(** * blog-web: a verification development for [main.go]

    A shallow embedding of the blog server's request handlers and of the
    library functions they call, followed by the properties of the
    specification that were checked against it.

    Go strings are byte sequences; they are modelled by [string], whose
    characters are the 256 values of [ascii]. *)

From Stdlib Require Import ZArith Lia Bool Ascii String List.
From Stdlib Require Import Permutation Sorted.
From stdpp Require Import base list strings gmap.

Local Open Scope list_scope.
Local Open Scope string_scope.

(** ** Package [strings] *)

Module Strings.

(** [strings.HasPrefix(s, prefix)] *)
Fixpoint HasPrefix (s prefix : string) : bool :=
  match prefix, s with
  | EmptyString, _ => true
  | String p prefix', String c s' => if Ascii.eqb c p then HasPrefix s' prefix' else false
  | String _ _, EmptyString => false
  end.

(** [s[n:]] for [n <= len(s)] (Go panics beyond the length; every use in
    the program is guarded by a prefix or an index test). *)
Fixpoint sliceFrom (n : nat) (s : string) : string :=
  match n, s with
  | O, _ => s
  | S n', String _ s' => sliceFrom n' s'
  | S _, EmptyString => EmptyString
  end.

(** [s[:n]] for [n <= len(s)]. *)
Fixpoint sliceTo (n : nat) (s : string) : string :=
  match n, s with
  | O, _ => EmptyString
  | S n', String c s' => String c (sliceTo n' s')
  | S _, EmptyString => EmptyString
  end.

(** [strings.HasSuffix(s, suffix)]:
    [len(s) >= len(suffix) && s[len(s)-len(suffix):] == suffix]. *)
Definition HasSuffix (s suffix : string) : bool :=
  (String.length suffix <=? String.length s)%nat
  && String.eqb (sliceFrom (String.length s - String.length suffix) s) suffix.

(** [strings.TrimSuffix(s, suffix)] *)
Definition TrimSuffix (s suffix : string) : string :=
  if HasSuffix s suffix
  then sliceTo (String.length s - String.length suffix) s
  else s.

(** [strings.Index(s, substr)]: the byte offset of the first occurrence,
    [None] standing for Go's [-1]. *)
Fixpoint Index (s substr : string) : option nat :=
  if HasPrefix s substr then Some O
  else match s with
       | EmptyString => None
       | String _ s' => option_map S (Index s' substr)
       end.

(** [strings.SplitN(s, sep, n)] for a non-empty separator and [n > 0]:
    at most [n] pieces, the last one being the unsplit remainder. *)
Fixpoint SplitN (s sep : string) (n : nat) : list string :=
  match n with
  | O => []
  | S O => [s]
  | S n' =>
      match Index s sep with
      | None => [s]
      | Some m => sliceTo m s :: SplitN (sliceFrom (m + String.length sep) s) sep n'
      end
  end.

(** [strings.ReplaceAll(s, old, new)] for a non-empty [old]: occurrences
    are replaced left to right without overlap. *)
Fixpoint ReplaceAll_fuel (fuel : nat) (s old new : string) : string :=
  match fuel with
  | O => s
  | S fuel' =>
      if HasPrefix s old
      then new ++ ReplaceAll_fuel fuel' (sliceFrom (String.length old) s) old new
      else match s with
           | EmptyString => EmptyString
           | String c s' => String c (ReplaceAll_fuel fuel' s' old new)
           end
  end.

Definition ReplaceAll (s old new : string) : string :=
  ReplaceAll_fuel (S (String.length s)) s old new.

(** [unicode.IsSpace] on UTF-8 text: the encodings of the White_Space
    code points U+0009..U+000D, U+0020, U+0085, U+00A0, U+1680,
    U+2000..U+200A, U+2028, U+2029, U+202F, U+205F and U+3000. *)
Definition bytes (l : list nat) : string :=
  string_of_list_ascii (map ascii_of_nat l).

Definition spaceEncodings : list string :=
  map bytes
    ([[9]; [10]; [11]; [12]; [13]; [32]; [194; 133]; [194; 160]; [225; 154; 128]]
     ++ map (fun k => [226; 128; 128 + k]) (seq 0 11)
     ++ [[226; 128; 168]; [226; 128; 169]; [226; 128; 175]; [226; 129; 159];
         [227; 128; 128]])%nat%list.

(** The first white-space rune of [s], if [s] starts with one. *)
Definition leadingSpace (s : string) : option string :=
  find (HasPrefix s) spaceEncodings.

Definition trailingSpace (s : string) : option string :=
  find (HasSuffix s) spaceEncodings.

Fixpoint TrimLeft_fuel (fuel : nat) (s : string) : string :=
  match fuel with
  | O => s
  | S fuel' =>
      match leadingSpace s with
      | Some sp => TrimLeft_fuel fuel' (sliceFrom (String.length sp) s)
      | None => s
      end
  end.

Fixpoint TrimRight_fuel (fuel : nat) (s : string) : string :=
  match fuel with
  | O => s
  | S fuel' =>
      match trailingSpace s with
      | Some sp => TrimRight_fuel fuel' (sliceTo (String.length s - String.length sp) s)
      | None => s
      end
  end.

(** [strings.TrimSpace(s)]: leading and trailing white space removed. *)
Definition TrimSpace (s : string) : string :=
  let t := TrimLeft_fuel (String.length s) s in
  TrimRight_fuel (String.length t) t.

End Strings.

(** ** Package [text/template], reached through [html/template] *)

Module Template.

(** The replacement [template.HTMLEscape] writes for one byte. *)
Definition escapeByte (c : ascii) : string :=
  if Ascii.eqb c "000" then Strings.bytes [239; 191; 189]%nat   (* U+FFFD *)
  else if Ascii.eqb c "034" then "&#34;"
  else if Ascii.eqb c "'" then "&#39;"
  else if Ascii.eqb c "&" then "&amp;"
  else if Ascii.eqb c "<" then "&lt;"
  else if Ascii.eqb c ">" then "&gt;"
  else String c EmptyString.

(** [template.HTMLEscapeString(s)] *)
Fixpoint HTMLEscapeString (s : string) : string :=
  match s with
  | EmptyString => EmptyString
  | String c s' => escapeByte c ++ HTMLEscapeString s'
  end.

End Template.

(** ** Package [time]

    A [Time] is an instant, counted in seconds and nanoseconds from the
    zero time (January 1, year 1, 00:00:00 UTC), together with the offset
    of its location east of UTC, which only matters for display. *)

Module Time.

Local Open Scope Z_scope.

Record Time : Type := mkTime { sec : Z; nsec : Z; offset : Z }.

(** The zero value [time.Time{}]. *)
Definition zero : Time := mkTime 0 0 0.

(** [t.After(u)] *)
Definition After (t u : Time) : bool :=
  (sec u <? sec t) || ((sec t =? sec u) && (nsec u <? nsec t)).

Definition isLeap (year : Z) : bool :=
  (year mod 4 =? 0) && (negb (year mod 100 =? 0) || (year mod 400 =? 0)).

Definition daysIn (month year : Z) : Z :=
  if month =? 2 then (if isLeap year then 29 else 28)
  else if (month =? 4) || (month =? 6) || (month =? 9) || (month =? 11) then 30
  else 31.

(** Days from January 1, year 1 to the given civil date of the
    proleptic Gregorian calendar. *)
Definition daysFromCivil (year month day : Z) : Z :=
  let y := if month <=? 2 then year - 1 else year in
  let era := y / 400 in
  let yoe := y - era * 400 in
  let mp := if month <=? 2 then month + 9 else month - 3 in
  let doy := (153 * mp + 2) / 5 + day - 1 in
  let doe := yoe * 365 + yoe / 4 - yoe / 100 + doy in
  era * 146097 + doe - 306.

(** The civil date (year, month, day) of a day count from January 1,
    year 1. *)
Definition civilFromDays (days : Z) : Z * Z * Z :=
  let z := days + 306 in
  let era := z / 146097 in
  let doe := z - era * 146097 in
  let yoe := (doe - doe / 1460 + doe / 36524 - doe / 146096) / 365 in
  let doy := doe - (365 * yoe + yoe / 4 - yoe / 100) in
  let mp := (5 * doy + 2) / 153 in
  let d := doy - (153 * mp + 2) / 5 + 1 in
  let m := if mp <? 10 then mp + 3 else mp - 9 in
  let y := yoe + era * 400 in
  (if m <=? 2 then y + 1 else y, m, d).

(** [time.Date(year, month, day, 0, 0, 0, 0, time.UTC)] *)
Definition Date (year month day : Z) : Time :=
  mkTime (daysFromCivil year month day * 86400) 0 0.

Definition isDigit (c : ascii) : bool :=
  (48 <=? nat_of_ascii c)%nat && (nat_of_ascii c <=? 57)%nat.

Definition digit (c : ascii) : Z := Z.of_nat (nat_of_ascii c) - 48.

(** [getnum(s, true)]: exactly two decimal digits. *)
Definition getnum2 (s : string) : option (Z * string) :=
  match s with
  | String a (String b rest) =>
      if isDigit a && isDigit b then Some (digit a * 10 + digit b, rest) else None
  | _ => None
  end.

(** The chunk [2006] of a layout: exactly four decimal digits. *)
Definition getyear4 (s : string) : option (Z * string) :=
  match s with
  | String a (String b (String c (String d rest))) =>
      if isDigit a && isDigit b && isDigit c && isDigit d
      then Some (((digit a * 10 + digit b) * 10 + digit c) * 10 + digit d, rest)
      else None
  | _ => None
  end.

(** A literal byte of the layout. *)
Definition skipByte (c : ascii) (s : string) : option string :=
  match s with
  | String a rest => if Ascii.eqb a c then Some rest else None
  | EmptyString => None
  end.

(** [time.Parse("2006-01-02", value)]; [None] stands for a parse error. *)
Definition Parse_2006_01_02 (value : string) : option Time :=
  match getyear4 value with
  | None => None
  | Some (year, value) =>
  match skipByte "-" value with
  | None => None
  | Some value =>
  match getnum2 value with
  | None => None
  | Some (month, value) =>
  if (month <=? 0) || (12 <? month) then None else
  match skipByte "-" value with
  | None => None
  | Some value =>
  match getnum2 value with
  | None => None
  | Some (day, value) =>
  match value with
  | String _ _ => None                                (* extra text *)
  | EmptyString =>
      if (day <? 1) || (daysIn month year <? day) then None  (* day out of range *)
      else Some (Date year month day)
  end end end end end end.

Definition monthName (month : Z) : string :=
  nth (Z.to_nat (month - 1))
    ["January"; "February"; "March"; "April"; "May"; "June"; "July";
     "August"; "September"; "October"; "November"; "December"]%string
    EmptyString.

Definition digitChar (d : Z) : ascii := ascii_of_nat (Z.to_nat (48 + d)).

(** The decimal digits of a natural number, most significant first. *)
Fixpoint digits_fuel (fuel : nat) (u : Z) (acc : string) : string :=
  match fuel with
  | O => acc
  | S fuel' =>
      let acc' := String (digitChar (u mod 10)) acc in
      if u / 10 =? 0 then acc' else digits_fuel fuel' (u / 10) acc'
  end.

Definition digits (u : Z) : string := digits_fuel (S (Z.to_nat u)) u EmptyString.

Fixpoint zeros (n : nat) : string :=
  match n with
  | O => EmptyString
  | S n' => String "0" (zeros n')
  end.

(** [appendInt(b, x, width)]: a sign for negative numbers, then the
    digits padded with zeros to [width]. *)
Definition appendInt (x : Z) (width : nat) : string :=
  let ds := digits (Z.abs x) in
  ((if (x <? 0)%Z then "-" else "") ++ zeros (width - String.length ds) ++ ds)%string.

(** [t.Format("Jan 2, 2006")], in the location of [t]. *)
Definition Format_Jan_2_2006 (t : Time) : string :=
  let '(year, month, day) := civilFromDays ((sec t + offset t) / 86400) in
  (Strings.sliceTo 3 (monthName month) ++ " " ++ appendInt day 0 ++ ", "
   ++ appendInt year 4)%string.

End Time.

(** ** Package [golang.org/x/text/cases]

    [cases.Title(language.English)] on ASCII text.  A word starts after
    a character that is neither a letter, a digit nor an underscore; the
    first letter of a word is mapped to upper case and the other letters
    to lower case.  The model covers the strings the post page passes to
    it, which are made of ASCII letters, digits, underscores and spaces;
    bytes it does not know are copied and end the word. *)

Module Cases.

Definition isUpper (c : ascii) : bool :=
  (65 <=? nat_of_ascii c)%nat && (nat_of_ascii c <=? 90)%nat.
Definition isLower (c : ascii) : bool :=
  (97 <=? nat_of_ascii c)%nat && (nat_of_ascii c <=? 122)%nat.
Definition isCased (c : ascii) : bool := isUpper c || isLower c.

Definition toUpper (c : ascii) : ascii :=
  if isLower c then ascii_of_nat (nat_of_ascii c - 32) else c.
Definition toLower (c : ascii) : ascii :=
  if isUpper c then ascii_of_nat (nat_of_ascii c + 32) else c.

(** Digits and the underscore continue a word without being cased. *)
Definition isBreak (c : ascii) : bool :=
  negb (isCased c || Time.isDigit c || Ascii.eqb c "_").

Fixpoint title (isMidWord : bool) (s : string) : string :=
  match s with
  | EmptyString => EmptyString
  | String c s' =>
      if isCased c then
        String (if isMidWord then toLower c else toUpper c) (title true s')
      else
        String c (title (if isBreak c then false else isMidWord) s')
  end.

Definition Title_English (s : string) : string := title false s.

End Cases.

(** ** Package [regexp]

    The fragment of RE2 syntax used by the program: character classes,
    concatenation, one-or-more repetition and the two text anchors.  The
    only class in the program is ASCII, so matching byte by byte agrees
    with matching rune by rune: every byte of a multi-byte rune is at
    least 128 and lies in no range of the class. *)

Module Regexp.

Inductive Regexp : Type :=
| CharClass (ranges : list (nat * nat))   (* [lo-hi ...], inclusive *)
| Concat (r1 r2 : Regexp)
| Plus (r : Regexp)                        (* r+ *)
| BeginText                                (* ^ without the m flag *)
| EndText.                                 (* $ without the m flag: end of text only *)

Definition inClass (ranges : list (nat * nat)) (c : ascii) : bool :=
  existsb (fun '(lo, hi) => (lo <=? nat_of_ascii c)%nat && (nat_of_ascii c <=? hi)%nat) ranges.

(** The loop of a repetition [r+], given the matcher [body] of [r]: one
    more iteration is tried only if the previous one consumed input, so
    the remaining length bounds the number of iterations. *)
Definition plusLoop (body : bool -> string -> (bool -> string -> bool) -> bool)
    (k : bool -> string -> bool) : nat -> bool -> string -> bool :=
  fix loop (fuel : nat) (b : bool) (s0 : string) {struct fuel} : bool :=
    match fuel with
    | O => false
    | S fuel' =>
        body b s0 (fun b' s' =>
          k b' s'
          || (if (String.length s' <? String.length s0)%nat
              then loop fuel' b' s' else false))
    end.

(** A backtracking matcher in continuation-passing style.  [atStart]
    tells whether the current position is the beginning of the text;
    [k] receives the position reached. *)
Fixpoint accept (r : Regexp) (atStart : bool) (s : string)
    (k : bool -> string -> bool) {struct r} : bool :=
  match r with
  | CharClass ranges =>
      match s with
      | String c s' => inClass ranges c && k false s'
      | EmptyString => false
      end
  | Concat r1 r2 => accept r1 atStart s (fun b s' => accept r2 b s' k)
  | Plus r1 => plusLoop (accept r1) k (S (String.length s)) atStart s
  | BeginText => atStart && k atStart s
  | EndText =>
      match s with
      | EmptyString => k atStart s
      | String _ _ => false
      end
  end.

(** An unanchored search: a match may start at any offset. *)
Fixpoint search (r : Regexp) (atStart : bool) (s : string) : bool :=
  accept r atStart s (fun _ _ => true)
  || match s with
     | EmptyString => false
     | String _ s' => search r false s'
     end.

(** The [MatchString] method of a compiled expression. *)
Definition MatchString (r : Regexp) (s : string) : bool := search r true s.

End Regexp.

(** ** Package [sort]

    [sort.Slice] as the Go library implements it: pattern-defeating
    quicksort over the index operations [Less] and [Swap] of the slice,
    with insertion sort for at most twelve elements and heap sort when
    too many partitions were unbalanced.  Indices are natural numbers;
    every loop is a recursion on the distance it still has to cover. *)

Module Sort.

Section Slice.

Context {A : Type} (less : A -> A -> bool).

(** [less(i, j)] of the caller, which compares the current elements.
    An index outside the slice makes Go panic; here the answer is
    [false]. *)
Definition Less (data : list A) (i j : nat) : bool :=
  match data !! i, data !! j with
  | Some x, Some y => less x y
  | _, _ => false
  end.

(** [data[i], data[j] = data[j], data[i]].  An index outside the slice
    makes Go panic; here the data stay as they are. *)
Definition Swap (data : list A) (i j : nat) : list A :=
  match data !! i, data !! j with
  | Some x, Some y => <[j:=x]> (<[i:=y]> data)
  | _, _ => data
  end.

(** The inner loop of insertion sort:
    [for j := i; j > a && Less(j, j-1); j-- { Swap(j, j-1) }]. *)
Fixpoint insertDown (data : list A) (a j : nat) {struct j} : list A :=
  match j with
  | O => data
  | S j' =>
      if (a <? j)%nat && Less data j j'
      then insertDown (Swap data j j') a j'
      else data
  end.

Fixpoint insertionSort_from (fuel : nat) (data : list A) (a i b : nat) : list A :=
  match fuel with
  | O => data
  | S fuel' =>
      if (i <? b)%nat
      then insertionSort_from fuel' (insertDown data a i) a (S i) b
      else data
  end.

(** [insertionSort_func(data, a, b)] *)
Definition insertionSort (data : list A) (a b : nat) : list A :=
  insertionSort_from (b - a) data a (S a) b.

(** [siftDown_func(data, lo, hi, first)], [root] starting at [lo]. *)
Fixpoint siftDown (fuel : nat) (data : list A) (root hi first : nat) : list A :=
  match fuel with
  | O => data
  | S fuel' =>
      let child := (2 * root + 1)%nat in
      if (hi <=? child)%nat then data
      else
        let child :=
          if (child + 1 <? hi)%nat && Less data (first + child) (first + child + 1)
          then (child + 1)%nat else child in
        if negb (Less data (first + root) (first + child)) then data
        else siftDown fuel' (Swap data (first + root) (first + child)) child hi first
  end.

(** [for i := (hi - 1) / 2; i >= 0; i-- { siftDown(data, i, hi, first) }] *)
Fixpoint buildHeap (i : nat) (data : list A) (hi first : nat) : list A :=
  let data := siftDown hi data i hi first in
  match i with
  | O => data
  | S i' => buildHeap i' data hi first
  end.

(** [for i := hi - 1; i >= 0; i-- { Swap(first, first+i); siftDown(data, 0, i, first) }],
    the argument being [i + 1]. *)
Fixpoint popHeap (n : nat) (data : list A) (first : nat) : list A :=
  match n with
  | O => data
  | S i => popHeap i (siftDown i (Swap data first (first + i)) 0 i first) first
  end.

(** [heapSort_func(data, a, b)] *)
Definition heapSort (data : list A) (a b : nat) : list A :=
  let first := a in
  let hi := (b - a)%nat in
  popHeap hi (buildHeap ((hi - 1) / 2) data hi first) first.

(** [for i <= j && p(i) { i++ }] *)
Fixpoint scanUp (fuel : nat) (p : nat -> bool) (i j : nat) : nat :=
  match fuel with
  | O => i
  | S fuel' => if (i <=? j)%nat && p i then scanUp fuel' p (S i) j else i
  end.

(** [for i <= j && p(j) { j-- }] *)
Fixpoint scanDown (p : nat -> bool) (i j : nat) {struct j} : nat :=
  match j with
  | O => j
  | S j' => if (i <=? j)%nat && p j then scanDown p i j' else j
  end.

(** The main loop shared by both partition functions: [up] and [down]
    tell which elements the two scans step over. *)
Fixpoint partitionLoop (fuel : nat) (up down : list A -> nat -> bool)
    (data : list A) (i j : nat) : list A * nat * nat :=
  match fuel with
  | O => (data, i, j)
  | S fuel' =>
      let i := scanUp (S j - i) (up data) i j in
      let j := scanDown (down data) i j in
      if (j <? i)%nat then (data, i, j)
      else partitionLoop fuel' up down (Swap data i j) (S i) (j - 1)
  end.

(** [partition_func(data, a, b, pivot)]: the new position of the pivot
    and whether the range was already partitioned. *)
Definition partition (data : list A) (a b pivot : nat) : list A * nat * bool :=
  let data := Swap data a pivot in
  let up d i := Less d i a in
  let down d j := negb (Less d j a) in
  let i := scanUp (b - a) (up data) (a + 1) (b - 1) in
  let j := scanDown (down data) i (b - 1) in
  if (j <? i)%nat then (Swap data j a, j, true)
  else
    let data := Swap data i j in
    let '(data, i, j) := partitionLoop (b - a) up down data (S i) (j - 1) in
    (Swap data j a, j, false).

(** [partitionEqual_func(data, a, b, pivot)] *)
Definition partitionEqual (data : list A) (a b pivot : nat) : list A * nat :=
  let data := Swap data a pivot in
  let up d i := negb (Less d a i) in
  let down d j := Less d a j in
  let '(data, i, j) := partitionLoop (S (b - a)) up down data (a + 1) (b - 1) in
  (data, i).

(** The two shifting loops of [partialInsertionSort_func]. *)
Fixpoint shiftLeft (data : list A) (j : nat) {struct j} : list A :=
  match j with
  | O => data
  | S j' => if negb (Less data j j') then data else shiftLeft (Swap data j j') j'
  end.

Fixpoint shiftRight (fuel : nat) (data : list A) (j b : nat) : list A :=
  match fuel with
  | O => data
  | S fuel' =>
      if (j <? b)%nat
      then if negb (Less data j (j - 1)) then data
           else shiftRight fuel' (Swap data j (j - 1)) (S j) b
      else data
  end.

Fixpoint partialInsertionSort_from (steps : nat) (data : list A) (a i b : nat)
    : list A * bool :=
  match steps with
  | O => (data, false)
  | S steps' =>
      let i := scanUp (b - i) (fun i => negb (Less data i (i - 1))) i (b - 1) in
      if (i =? b)%nat then (data, true)
      else if (b - a <? 50)%nat then (data, false)
      else
        let data := Swap data i (i - 1) in
        let data := if (2 <=? i - a)%nat then shiftLeft data (i - 1) else data in
        let data := if (2 <=? b - i)%nat then shiftRight (b - i) data (i + 1) b else data in
        partialInsertionSort_from steps' data a i b
  end.

(** [partialInsertionSort_func(data, a, b)] with [maxSteps = 5] and
    [shortestShifting = 50]. *)
Definition partialInsertionSort (data : list A) (a b : nat) : list A * bool :=
  partialInsertionSort_from 5 data a (a + 1) b.

(** [xorshift.Next] on 64-bit words.  [breakPatterns] masks the result
    down to an index of the range, so the properties proved below hold
    whatever the generator returns. *)
Definition xorshiftNext (r : Z) : Z :=
  let r := Z.lxor r (Z.land (Z.shiftl r 13) (2 ^ 64 - 1)) in
  let r := Z.lxor r (Z.shiftr r 7) in
  Z.lxor r (Z.land (Z.shiftl r 17) (2 ^ 64 - 1)).

(** [bits.Len(uint(n))] *)
Definition bitsLen (n : nat) : nat := Z.to_nat (Z.log2 (Z.of_nat n) + (if (n =? 0)%nat then 0 else 1)).

Definition nextPowerOfTwo (length : nat) : Z := Z.shiftl 1 (Z.of_nat (bitsLen length)).

Fixpoint breakPatterns_from (n : nat) (data : list A) (a length idx i : nat) (random : Z)
    : list A :=
  match n with
  | O => data
  | S n' =>
      let random := xorshiftNext random in
      let other := Z.to_nat (Z.land random (nextPowerOfTwo length - 1)) in
      let other := if (length <=? other)%nat then (other - length)%nat else other in
      breakPatterns_from n' (Swap data (idx - 1 + i) (a + other)) a length idx (S i) random
  end.

(** [breakPatterns_func(data, a, b)] *)
Definition breakPatterns (data : list A) (a b : nat) : list A :=
  let length := (b - a)%nat in
  if (8 <=? length)%nat
  then breakPatterns_from 3 data a length (a + (length / 4) * 2 - 1) 0 (Z.of_nat length)
  else data.

Inductive sortedHint : Type := unknownHint | increasingHint | decreasingHint.

(** [order2_func]: the swap counter is threaded through. *)
Definition order2 (data : list A) (a b swaps : nat) : nat * nat * nat :=
  if Less data b a then (b, a, S swaps) else (a, b, swaps).

(** [median_func] *)
Definition median (data : list A) (a b c swaps : nat) : nat * nat :=
  let '(a, b, swaps) := order2 data a b swaps in
  let '(b, c, swaps) := order2 data b c swaps in
  let '(a, b, swaps) := order2 data a b swaps in
  (b, swaps).

(** [medianAdjacent_func] *)
Definition medianAdjacent (data : list A) (a swaps : nat) : nat * nat :=
  median data (a - 1) a (a + 1) swaps.

(** [choosePivot_func(data, a, b)] with [shortestNinther = 50] and
    [maxSwaps = 12]. *)
Definition choosePivot (data : list A) (a b : nat) : nat * sortedHint :=
  let l := (b - a)%nat in
  let swaps := O in
  let i := (a + l / 4 * 1)%nat in
  let j := (a + l / 4 * 2)%nat in
  let k := (a + l / 4 * 3)%nat in
  let '(j, swaps) :=
    if (8 <=? l)%nat then
      let '(i, j, k, swaps) :=
        if (50 <=? l)%nat then
          let '(i, swaps) := medianAdjacent data i swaps in
          let '(j, swaps) := medianAdjacent data j swaps in
          let '(k, swaps) := medianAdjacent data k swaps in
          (i, j, k, swaps)
        else (i, j, k, swaps) in
      median data i j k swaps
    else (j, swaps) in
  match swaps with
  | O => (j, increasingHint)
  | 12%nat => (j, decreasingHint)
  | _ => (j, unknownHint)
  end.

(** [reverseRange_func(data, a, b)] *)
Fixpoint reverseRange_from (fuel : nat) (data : list A) (i j : nat) : list A :=
  match fuel with
  | O => data
  | S fuel' =>
      if (i <? j)%nat then reverseRange_from fuel' (Swap data i j) (S i) (j - 1)
      else data
  end.

Definition reverseRange (data : list A) (a b : nat) : list A :=
  reverseRange_from (b - a) data a (b - 1).

Definition isIncreasing (h : sortedHint) : bool :=
  match h with increasingHint => true | _ => false end.

(** [pdqsort_func(data, a, b, limit)].  The flags [wasBalanced] and
    [wasPartitioned] are the local variables of the Go loop: a recursive
    call starts with both true, the next iteration of the loop keeps the
    values just computed. *)
Fixpoint pdqsort_loop (fuel : nat) (data : list A) (a b limit : nat)
    (wasBalanced wasPartitioned : bool) : list A :=
  match fuel with
  | O => data
  | S fuel' =>
      let length := (b - a)%nat in
      if (length <=? 12)%nat then insertionSort data a b
      else if (limit =? 0)%nat then heapSort data a b
      else
        let '(data, limit) :=
          if negb wasBalanced then (breakPatterns data a b, (limit - 1)%nat)
          else (data, limit) in
        let '(pivot, hint) := choosePivot data a b in
        let '(data, pivot, hint) :=
          match hint with
          | decreasingHint =>
              (reverseRange data a b, ((b - 1) - (pivot - a))%nat, increasingHint)
          | _ => (data, pivot, hint)
          end in
        let '(data, sorted) :=
          if wasBalanced && wasPartitioned && isIncreasing hint
          then partialInsertionSort data a b
          else (data, false) in
        if sorted then data
        else if (0 <? a)%nat && negb (Less data (a - 1) pivot) then
          let '(data, mid) := partitionEqual data a b pivot in
          pdqsort_loop fuel' data mid b limit wasBalanced wasPartitioned
        else
          let '(data, mid, alreadyPartitioned) := partition data a b pivot in
          let wasPartitioned := alreadyPartitioned in
          let leftLen := (mid - a)%nat in
          let rightLen := (b - mid)%nat in
          let balanceThreshold := (length / 8)%nat in
          if (leftLen <? rightLen)%nat then
            let wasBalanced := (balanceThreshold <=? leftLen)%nat in
            let data := pdqsort_loop fuel' data a mid limit true true in
            pdqsort_loop fuel' data (mid + 1) b limit wasBalanced wasPartitioned
          else
            let wasBalanced := (balanceThreshold <=? rightLen)%nat in
            let data := pdqsort_loop fuel' data (mid + 1) b limit true true in
            pdqsort_loop fuel' data a mid limit wasBalanced wasPartitioned
  end.

Definition pdqsort (data : list A) (a b limit : nat) : list A :=
  pdqsort_loop (S (b - a)) data a b limit true true.

(** [sort.Slice(x, less)] *)
Definition Slice (x : list A) : list A :=
  let length := List.length x in
  let limit := bitsLen length in
  pdqsort x 0 length limit.

End Slice.

End Sort.

(** ** Package [path/filepath], on Unix

    [Clean] is the lexical cleaning of Plan 9's [cleanname]: it drops
    empty elements and [.], lets [..] take back the element before it,
    and leaves [..] at the start of a relative path.  The buffer [out]
    is the text written so far; [dotdot] is the length up to which it
    may not be taken back. *)

Module Filepath.

(** [os.IsPathSeparator(c)] *)
Definition isSep (c : ascii) : bool := Ascii.eqb c "/".

(** [r == n || os.IsPathSeparator(path[r])], for the rest [p] of the
    path from [r] on. *)
Definition atEnd (p : string) : bool :=
  match p with
  | EmptyString => true
  | String c _ => isSep c
  end.

(** The bytes of [p] before its first separator, and what follows
    them: [for ; r < n && !os.IsPathSeparator(path[r]); r++]. *)
Fixpoint element (p : string) : string * string :=
  match p with
  | EmptyString => (EmptyString, EmptyString)
  | String c p' =>
      if isSep c then (EmptyString, p)
      else let '(e, rest) := element p' in (String c e, rest)
  end.

(** [for out.w > dotdot && !os.IsPathSeparator(out.index(out.w)) { out.w-- }],
    where [out] holds the bytes written before the loop. *)
Fixpoint backtrack (out : string) (dotdot w : nat) : nat :=
  match w with
  | O => O
  | S w' =>
      if (dotdot <? w)%nat
         && negb (match String.get w out with Some c => isSep c | None => false end)
      then backtrack out dotdot w'
      else w
  end.

(** The loop [for r < n] of [Clean]; [p] is the path from [r] on.  Every
    round consumes a byte of [p], so the length of the path bounds the
    number of rounds. *)
Fixpoint cleanLoop (fuel : nat) (rooted : bool) (out : string) (dotdot : nat)
    (p : string) : string :=
  match fuel with
  | O => out
  | S fuel' =>
      match p with
      | EmptyString => out
      | String c p1 =>
          if isSep c then
            (* empty path element *)
            cleanLoop fuel' rooted out dotdot p1
          else if Ascii.eqb c "." && atEnd p1 then
            (* . element *)
            cleanLoop fuel' rooted out dotdot p1
          else if Ascii.eqb c "."
                  && match p1 with
                     | String c1 p2 => Ascii.eqb c1 "." && atEnd p2
                     | EmptyString => false
                     end then
            (* .. element: remove to last separator *)
            let p2 := Strings.sliceFrom 1 p1 in
            if (dotdot <? String.length out)%nat then
              (* can backtrack *)
              let w := backtrack out dotdot (String.length out - 1) in
              cleanLoop fuel' rooted (Strings.sliceTo w out) dotdot p2
            else if negb rooted then
              (* cannot backtrack, but not rooted, so append .. element *)
              let out := if (0 <? String.length out)%nat then out ++ "/" else out in
              let out := out ++ ".." in
              cleanLoop fuel' rooted out (String.length out) p2
            else cleanLoop fuel' rooted out dotdot p2
          else
            (* real path element: add slash if needed, copy element *)
            let out :=
              if rooted && negb (String.length out =? 1)%nat
                 || negb rooted && negb (String.length out =? 0)%nat
              then out ++ "/" else out in
            let '(e, rest) := element p in
            cleanLoop fuel' rooted (out ++ e) dotdot rest
      end
  end.

(** [filepath.Clean(path)] *)
Definition Clean (path : string) : string :=
  match path with
  | EmptyString => "."
  | String c rest =>
      let rooted := isSep c in
      let out :=
        if rooted then cleanLoop (String.length path) true "/" 1 rest
        else cleanLoop (String.length path) false "" 0 path in
      if (String.length out =? 0)%nat then "." else out
  end.

(** [filepath.Join(elem...)]: the elements from the first non-empty one
    on, joined by separators and cleaned. *)
Fixpoint Join (elem : list string) : string :=
  match elem with
  | [] => EmptyString
  | e :: rest =>
      if String.eqb e "" then Join rest else Clean (String.concat "/" elem)
  end.

End Filepath.

(** ** The program *)

(** [var validSlugRegex = regexp.MustCompile(`^[a-zA-Z0-9_-]+$`)] *)
Definition validSlugRegex : Regexp.Regexp :=
  Regexp.Concat Regexp.BeginText
    (Regexp.Concat
       (Regexp.Plus (Regexp.CharClass [(97, 122); (65, 90); (48, 57); (95, 95); (45, 45)]%nat))
       Regexp.EndText).

(** [func IsValidSlug(slug string) bool] *)
Definition IsValidSlug (slug : string) : bool :=
  Regexp.MatchString validSlugRegex slug.


(** A line feed and a double quote, for the string constants below. *)
Definition LF : string := String "010" EmptyString.
Definition q : string := String "034" EmptyString.

Definition error : Type := string.

Inductive Result (A : Type) : Type :=
| Ok (a : A)
| Err (e : error).
Arguments Ok {A} a.
Arguments Err {A} e.

(** [type Post struct] *)
Module Post.
Record t : Type := mk { Slug : string; Title : string; Date : Time.Time; DateStr : string }.
End Post.

(** [type PostFrontmatter struct] *)
Module PostFrontmatter.
Record t : Type := mk { Title : string; Date : string }.
(** The zero value of [var fm PostFrontmatter]. *)
Definition empty : t := mk EmptyString EmptyString.
End PostFrontmatter.

(** [type PageData struct]; [Content] is a [template.HTML], which the
    template inserts without escaping. *)
Module PageData.
Record t : Type := mk { Title : string; Content : string }.
End PageData.

(** *** The HTTP request and response *)

Record Request : Type := mkRequest {
  PathValues : gmap string string;        (* wildcards matched by the router *)
  URLQuery : gmap string (list string);   (* [r.URL.Query()] *)
  Cookies : list (string * string)        (* the cookies sent, in order *)
}.

(** [r.PathValue(name)] *)
Definition PathValue (r : Request) (name : string) : string :=
  default EmptyString (PathValues r !! name).

(** [r.URL.Query().Get(key)]: the first value, or the empty string. *)
Definition QueryGet (r : Request) (key : string) : string :=
  match URLQuery r !! key with
  | Some (v :: _) => v
  | _ => EmptyString
  end.

(** [r.Cookie(name)]: the first cookie of that name, or [ErrNoCookie]. *)
Definition Cookie (r : Request) (name : string) : Result string :=
  match find (fun c => String.eqb (fst c) name) (Cookies r) with
  | Some c => Ok (snd c)
  | None => Err "http: named cookie not present"
  end.

Record HttpCookie : Type := mkCookie {
  CookieName : string; CookieValue : string; CookiePath : string;
  MaxAge : Z; HttpOnly : bool; SameSite : string
}.

(** What a handler finally writes: an [http.Error], or the page data it
    hands to the base template. *)
Inductive Written : Type :=
| HttpError (code : nat) (body : string)
| Page (data : PageData.t).

Record ResponseWriter : Type := mkResponse {
  Header : gmap string string;
  SetCookies : list HttpCookie;
  Body : option Written
}.

Definition newResponse : ResponseWriter := mkResponse ∅ [] None.

Definition HeaderSet (w : ResponseWriter) (key value : string) : ResponseWriter :=
  mkResponse (<[key := value]> (Header w)) (SetCookies w) (Body w).

Definition StatusBadRequest : nat := 400.
Definition StatusNotFound : nat := 404.
Definition StatusInternalServerError : nat := 500.

(** [http.Error(w, error, code)] *)
Definition http_Error (w : ResponseWriter) (msg : string) (code : nat) : ResponseWriter :=
  let w := HeaderSet w "Content-Type" "text/plain; charset=utf-8" in
  let w := HeaderSet w "X-Content-Type-Options" "nosniff" in
  mkResponse (Header w) (SetCookies w) (Some (HttpError code (msg ++ LF))).

(** [http.SetCookie(w, cookie)] *)
Definition http_SetCookie (w : ResponseWriter) (c : HttpCookie) : ResponseWriter :=
  mkResponse (Header w) (SetCookies w ++ [c])%list (Body w).

(** [func setSecurityHeaders(w http.ResponseWriter)] *)
Definition setSecurityHeaders (w : ResponseWriter) : ResponseWriter :=
  let w := HeaderSet w "X-Content-Type-Options" "nosniff" in
  let w := HeaderSet w "X-Frame-Options" "DENY" in
  let w := HeaderSet w "X-XSS-Protection" "1; mode=block" in
  HeaderSet w "Referrer-Policy" "strict-origin-when-cross-origin".

(** [func renderPage(w, title, content)].  The base template is a file
    outside the program text; the model stops at the data handed to
    [tmpl.Execute].  What follows when the execution fails, a call of
    [http.Error] with status 500 and "Error rendering page", is not
    modelled: [Page] stands for a page handed to the template. *)
Definition renderPage (w : ResponseWriter) (title : string) (content : string)
    : ResponseWriter :=
  let data := PageData.mk title content in
  let w := HeaderSet w "Content-Type" "text/html; charset=utf-8" in
  mkResponse (Header w) (SetCookies w) (Some (Page data)).

(** [func toTitleCase(s string) string] *)
Definition toTitleCase (s : string) : string := Cases.Title_English s.

(** *** The reader of posts *)

(** [type SlugReader interface { Read(slug string) (string, error) }].
    A method of a Go value may change it, so [Read] returns the reader
    as well. *)
Class SlugReader (R : Type) : Type :=
  Read : R -> string -> Result string * R.

(** [MockSlugReader] of the test file: a map from slugs to contents. *)
Record MockSlugReader : Type := { content : gmap string string }.

#[export] Instance MockSlugReader_Read : SlugReader MockSlugReader :=
  fun m slug =>
    match content m !! slug with
    | Some c => (Ok c, m)
    | None => (Err "file does not exist", m)
    end.

(** A reader that records the slugs it is asked for before passing them
    on to the reader it wraps. *)
Record SpyReader (R : Type) : Type := mkSpy { calls : list string; inner : R }.
Arguments mkSpy {R} calls inner.
Arguments calls {R} s.
Arguments inner {R} s.

#[export] Instance SpyReader_Read {R} `{SlugReader R} : SlugReader (SpyReader R) :=
  fun spy slug =>
    let '(res, sl) := Read (inner spy) slug in
    (res, mkSpy (calls spy ++ [slug])%list sl).

(** The files as [os.Open] and [io.ReadAll] present them during one
    request: at a path, the error of [os.Open], or else the outcome of
    [io.ReadAll] on the file opened. *)
Definition FileSystem : Type := string -> Result (Result string).

(** [type FileReader struct{}]; the record holds the files the reader
    finds. *)
Record FileReader : Type := { os_files : FileSystem }.

(** [func (fr *FileReader) Read(slug string) (string, error)] *)
#[export] Instance FileReader_Read : SlugReader FileReader :=
  fun fr slug =>
    match os_files fr (Filepath.Join ["posts"; slug ++ ".md"]) with
    | Err err => (Err err, fr)
    | Ok f =>
        match f with
        | Err err => (Err err, fr)
        | Ok b => (Ok b, fr)
        end
    end.

(** *** The directory of posts, as [os.ReadDir], [os.ReadFile] and
    [f.Info] present it during one request *)

Record DirEntry : Type := mkDirEntry {
  Name : string;
  ReadFile : Result string;          (* [os.ReadFile] of this entry *)
  ModTime : option Time.Time         (* [f.Info()]: [None] on error or nil *)
}.

(** Fixed texts of the pages *)

Definition welcomeTitle_th : string := "‡∏¢‡∏¥‡∏ô‡∏î‡∏µ‡∏ï‡πâ‡∏≠‡∏ô‡∏£‡∏±‡∏ö‡∏™‡∏π‡πà LearnArai".
Definition welcomeText_th : string := "‡∏™‡∏ß‡∏±‡∏™‡∏î‡∏µ‡∏Ñ‡∏£‡∏±‡∏ö!! ‡∏ú‡∏°‡∏Ñ‡∏∑‡∏≠‡∏Ñ‡∏ô‡∏ó‡∏µ‡πà‡∏ä‡∏≠‡∏ö‡∏™‡∏£‡πâ‡∏≤‡∏á‡∏™‡∏£‡∏£‡∏Ñ‡πå‡πÅ‡∏•‡∏∞‡πÄ‡∏£‡∏µ‡∏¢‡∏ô‡∏£‡∏π‡πâ‡∏™‡∏¥‡πà‡∏á‡∏ï‡πà‡∏≤‡∏á‡πÜ ‡∏ô‡∏µ‡πà‡∏Ñ‡∏∑‡∏≠‡∏û‡∏∑‡πâ‡∏ô‡∏ó‡∏µ‡πà‡∏™‡πà‡∏ß‡∏ô‡∏ï‡∏±‡∏ß‡∏Ç‡∏≠‡∏á‡∏ú‡∏°‡∏ã‡∏∂‡πà‡∏á‡πÄ‡∏≠‡∏≤‡πÑ‡∏ß‡πâ‡∏™‡∏≥‡∏´‡∏£‡∏±‡∏ö‡πÅ‡∏ä‡∏£‡πå‡∏Ñ‡∏ß‡∏≤‡∏°‡∏Ñ‡∏¥‡∏î ‡∏™‡∏¥‡πà‡∏á‡∏ó‡∏µ‡πà‡πÑ‡∏î‡πâ‡πÄ‡∏£‡∏µ‡∏¢‡∏ô‡∏£‡∏π‡πâ ‡∏´‡∏£‡∏∑‡∏≠‡πÇ‡∏õ‡∏£‡πÄ‡∏à‡∏Å‡∏ï‡πå‡∏ó‡∏µ‡πà‡∏Å‡∏≥‡∏•‡∏±‡∏á‡∏ó‡∏≥‡∏≠‡∏¢‡∏π‡πà".
Definition postsHeading_th : string := "‡∏ö‡∏ó‡∏Ñ‡∏ß‡∏≤‡∏°".
Definition welcomeTitle_en : string := "Welcome to LearnArai".
Definition welcomeText_en : string := "Hi!! I'm someone who likes to create and learn new things. This is my personal space where I can share ideas or projects I'm currently working on.".
Definition postsHeading_en : string := "Posts".

Definition contactPage_th : string :=
  "<div class=" ++ q ++ "contact-page" ++ q ++ ">
	<h1>Contact &amp; About Me</h1>
	
	<section class=" ++ q ++ "about-section" ++ q ++ ">
		<h2>About Me</h2>
		<p>‡∏ò‡∏µ‡∏£‡∏†‡∏±‡∏ó‡∏£ ‡∏¢‡∏≤‡πÉ‡∏à</p>
		<p>website ‡∏ô‡∏µ‡πâ‡∏à‡∏±‡∏î‡∏ó‡∏≥‡∏Ç‡∏∂‡πâ‡∏ô‡πÄ‡∏û‡∏∑‡πà‡∏≠‡∏Å‡∏≤‡∏£‡∏®‡∏∂‡∏Å‡∏©‡∏≤‡πÅ‡∏•‡∏∞‡πÅ‡∏ö‡πà‡∏á‡∏õ‡∏±‡∏ô‡∏Ñ‡∏ß‡∏≤‡∏°‡∏£‡∏π‡πâ‡πÄ‡∏ó‡πà‡∏≤‡∏ô‡∏±‡πâ‡∏ô ‡∏´‡∏≤‡∏Å‡∏°‡∏µ‡∏Ç‡πâ‡∏≠‡∏ú‡∏¥‡∏î‡∏û‡∏•‡∏≤‡∏î‡∏´‡∏£‡∏∑‡∏≠‡∏ï‡πâ‡∏≠‡∏á‡∏Å‡∏≤‡∏£‡πÉ‡∏´‡πâ‡πÄ‡∏û‡∏¥‡πà‡∏°‡πÄ‡∏ï‡∏¥‡∏°‡∏≠‡∏∞‡πÑ‡∏£ ‡∏™‡∏≤‡∏°‡∏≤‡∏£‡∏ñ‡∏ï‡∏¥‡∏î‡∏ï‡πà‡∏≠‡∏ï‡∏≤‡∏°‡∏ó‡∏µ‡πà‡∏ï‡∏¥‡∏î‡∏ï‡πà‡∏≠‡∏Ç‡πâ‡∏≤‡∏á‡∏•‡πà‡∏≤‡∏á‡πÑ‡∏î‡πâ‡πÄ‡∏•‡∏¢ ‡∏Ç‡∏≠‡∏ö‡∏Ñ‡∏∏‡∏ì‡∏ó‡∏µ‡πà‡πÄ‡∏Ç‡πâ‡∏≤‡∏°‡∏≤‡∏≠‡πà‡∏≤‡∏ô‡∏Å‡∏±‡∏ô‡∏ô‡∏∞‡∏Ñ‡∏£‡∏±‡∏ö ü•∞</p>
	</section>

	<section class=" ++ q ++ "contact-section" ++ q ++ ">
		<h2>Contact Me</h2>
		<ul class=" ++ q ++ "contact-list" ++ q ++ ">
			<li>Email: <a href=" ++ q ++ "mailto:teerapat.yj@gmail.com" ++ q ++ ">teerapat.yj@gmail.com</a></li>
			<li>GitHub: <a href=" ++ q ++ "https://github.com/kenn-teera" ++ q ++ " target=" ++ q ++ "_blank" ++ q ++ " rel=" ++ q ++ "noopener noreferrer" ++ q ++ ">github.com/kenn-teera</a></li>
			<li>LinkedIn: <a href=" ++ q ++ "https://linkedin.com/in/teerapat-yajai/" ++ q ++ " target=" ++ q ++ "_blank" ++ q ++ " rel=" ++ q ++ "noopener noreferrer" ++ q ++ ">linkedin.com/in/teerapat-yajai</a></li>
		</ul>
	</section>
</div>".

Definition contactPage_en : string :=
  "<div class=" ++ q ++ "contact-page" ++ q ++ ">
	<h1>Contact &amp; About Me</h1>
	
	<section class=" ++ q ++ "about-section" ++ q ++ ">
		<h2>About Me</h2>
		<p>Teerapat Yajai</p>
		<p>This website is built for learning and sharing knowledge. If there are any errors or you want to add more, you can contact me through the contact information below. Thank you for reading! ü•∞</p>
	</section>

	<section class=" ++ q ++ "contact-section" ++ q ++ ">
		<h2>Contact Me</h2>
		<ul class=" ++ q ++ "contact-list" ++ q ++ ">
			<li>Email: <a href=" ++ q ++ "mailto:teerapat.yj@gmail.com" ++ q ++ ">teerapat.yj@gmail.com</a></li>
			<li>GitHub: <a href=" ++ q ++ "https://github.com/kenn-teera" ++ q ++ " target=" ++ q ++ "_blank" ++ q ++ " rel=" ++ q ++ "noopener noreferrer" ++ q ++ ">github.com/kenn-teera</a></li>
			<li>LinkedIn: <a href=" ++ q ++ "https://linkedin.com/in/teerapat-yajai" ++ q ++ " target=" ++ q ++ "_blank" ++ q ++ " rel=" ++ q ++ "noopener noreferrer" ++ q ++ ">linkedin.com/in/teerapat-yajai</a></li>
		</ul>
	</section>
</div>".

Section Program.

(** [yaml.Unmarshal(in, &fm)]: the decoder receives the text and the
    current value of the target and returns the target as it leaves it,
    with the error it reports, if any. *)
Variable yaml_Unmarshal :
  string -> PostFrontmatter.t -> PostFrontmatter.t * option error.

(** [goldmark.Convert(source, &buf)]: the HTML written, or an error. *)
Variable goldmark_Convert : string -> Result string.

(** [func ParseFrontmatter(content string) (PostFrontmatter, string)].
    The warning logged on a decoding error is not part of the result. *)
Definition ParseFrontmatter (content : string) : PostFrontmatter.t * string :=
  let fm := PostFrontmatter.empty in
  if negb (Strings.HasPrefix content "---") then (fm, content)
  else
    match Strings.SplitN (Strings.sliceFrom 3 content) "---" 2 with
    | part0 :: part1 :: _ =>
        let '(fm, err) := yaml_Unmarshal part0 fm in
        (fm, Strings.TrimSpace part1)
    | _ => (fm, content)
    end.

(** The locale of a request, as both [HomeHandler] and [ContactHandler]
    compute it in their first lines. *)
Definition requestLang (r : Request) : string :=
  let lang := QueryGet r "lang" in
  let lang :=
    if String.eqb lang "" then
      match Cookie r "lang" with
      | Ok value => value
      | Err _ => lang
      end
    else lang in
  if negb (String.eqb lang "en") && negb (String.eqb lang "th") then "th" else lang.

(** [func ContactHandler(w http.ResponseWriter, r *http.Request)] *)
Definition ContactHandler (w : ResponseWriter) (r : Request) : ResponseWriter :=
  let w := setSecurityHeaders w in
  let lang := requestLang r in
  let content :=
    if String.eqb lang "th" then contactPage_th else contactPage_en in
  renderPage w "Contact" content.

(** The body of the loop over the directory entries in [HomeHandler]:
    [None] where the Go code does not append a post. *)
Definition collectPost (lang : string) (f : DirEntry) : option Post.t :=
  if Strings.HasSuffix (Name f) ".md" then
    let slug := Strings.TrimSuffix (Name f) ".md" in
    let hasLangPrefix := Strings.HasPrefix slug "th-" || Strings.HasPrefix slug "en-" in
    if hasLangPrefix && negb (Strings.HasPrefix slug (lang ++ "-")) then None
    else
      match ReadFile f with
      | Err _ => None
      | Ok content =>
          let '(fm, _) := ParseFrontmatter content in
          let title :=
            if negb (String.eqb (PostFrontmatter.Title fm) "") then PostFrontmatter.Title fm
            else
              let displaySlug :=
                if Strings.HasPrefix slug "th-" || Strings.HasPrefix slug "en-"
                then Strings.sliceFrom 3 slug else slug in
              toTitleCase (Strings.ReplaceAll displaySlug "-" " ") in
          let '(date, dateStr) :=
            if negb (String.eqb (PostFrontmatter.Date fm) "") then
              match Time.Parse_2006_01_02 (PostFrontmatter.Date fm) with
              | Some t => (t, Time.Format_Jan_2_2006 t)
              | None => (Time.zero, EmptyString)
              end
            else (Time.zero, EmptyString) in
          let '(date, dateStr) :=
            if String.eqb dateStr "" then
              match ModTime f with
              | Some mt => (mt, Time.Format_Jan_2_2006 mt)
              | None => (date, dateStr)
              end
            else (date, dateStr) in
          Some (Post.mk slug title date dateStr)
      end
  else None.

(** [for _, f := range files { ... posts = append(posts, post) }] *)
Definition collectPosts (lang : string) (files : list DirEntry) : list Post.t :=
  omap (collectPost lang) files.

(** The comparison given to [sort.Slice]:
    [posts[i].Date.After(posts[j].Date)]. *)
Definition newerFirst (p1 p2 : Post.t) : bool := Time.After (Post.Date p1) (Post.Date p2).

(** The list item written for one post. *)
Definition postItem (post : Post.t) : string :=
  "<li>"
  ++ "<a href=" ++ q ++ "/posts/" ++ Template.HTMLEscapeString (Post.Slug post) ++ q ++ ">"
  ++ Template.HTMLEscapeString (Post.Title post) ++ "</a>"
  ++ "<span class=" ++ q ++ "post-date" ++ q ++ ">"
  ++ Template.HTMLEscapeString (Post.DateStr post) ++ "</span>"
  ++ "</li>" ++ LF.

(** The sorted post index of the home page. *)
Definition postIndex (lang : string) (files : list DirEntry) : list Post.t :=
  Sort.Slice newerFirst (collectPosts lang files).

(** The HTML built from the sorted posts in [HomeHandler]. *)
Definition homeContent (lang : string) (posts : list Post.t) : string :=
  let '(welcomeTitle, welcomeText, postsHeading) :=
    if String.eqb lang "th"
    then (welcomeTitle_th, welcomeText_th, postsHeading_th)
    else (welcomeTitle_en, welcomeText_en, postsHeading_en) in
  "<h1>" ++ Template.HTMLEscapeString welcomeTitle ++ "</h1>" ++ LF
  ++ "<p class=" ++ q ++ "about-me" ++ q ++ ">"
  ++ Template.HTMLEscapeString welcomeText ++ "</p>" ++ LF
  ++ "<h2 class=" ++ q ++ "posts-heading" ++ q ++ ">"
  ++ Template.HTMLEscapeString postsHeading ++ "</h2>" ++ LF
  ++ "<ul class=" ++ q ++ "post-list" ++ q ++ ">" ++ LF
  ++ String.concat "" (map postItem posts)
  ++ "</ul>" ++ LF.

(** [func HomeHandler(w http.ResponseWriter, r *http.Request)];
    [readDir] is the result of [os.ReadDir("posts")]. *)
Definition HomeHandler (readDir : Result (list DirEntry))
    (w : ResponseWriter) (r : Request) : ResponseWriter :=
  let w := setSecurityHeaders w in
  let lang := requestLang r in
  let w := http_SetCookie w (mkCookie "lang" lang "/" 31536000 false "Lax") in
  match readDir with
  | Err _ => http_Error w "Could not read posts" StatusInternalServerError
  | Ok files =>
      let posts := postIndex lang files in
      renderPage w "Home" (homeContent lang posts)
  end.

(** The article built in [PostHandler] from the title, the frontmatter
    and the rendered markdown. *)
Definition postHTML (title : string) (fm : PostFrontmatter.t) (buf : string) : string :=
  "<article>" ++ LF
  ++ "<div class=" ++ q ++ "post-header" ++ q ++ ">" ++ LF
  ++ "<h1>" ++ Template.HTMLEscapeString title ++ "</h1>" ++ LF
  ++ (if negb (String.eqb (PostFrontmatter.Date fm) "") then
        match Time.Parse_2006_01_02 (PostFrontmatter.Date fm) with
        | Some t => "<span class=" ++ q ++ "post-meta" ++ q ++ ">"
                    ++ Time.Format_Jan_2_2006 t ++ "</span>" ++ LF
        | None => ""
        end
      else "")
  ++ "</div>" ++ LF
  ++ buf
  ++ "</article>".

(** [func PostHandler(sl SlugReader) http.HandlerFunc] *)
Definition PostHandler {R : Type} `{SlugReader R} (sl : R)
    (w : ResponseWriter) (r : Request) : ResponseWriter * R :=
  let w := setSecurityHeaders w in
  let slug := PathValue r "slug" in
  if negb (IsValidSlug slug) then
    (http_Error w "Invalid post slug" StatusBadRequest, sl)
  else
    let '(res, sl) := Read sl slug in
    match res with
    | Err _ => (http_Error w "Post not found" StatusNotFound, sl)
    | Ok postMarkdown =>
        let '(fm, markdownContent) := ParseFrontmatter postMarkdown in
        match goldmark_Convert markdownContent with
        | Err _ => (http_Error w "Error rendering post" StatusInternalServerError, sl)
        | Ok buf =>
            let title := PostFrontmatter.Title fm in
            let title :=
              if String.eqb title "" then toTitleCase (Strings.ReplaceAll slug "-" " ")
              else title in
            (renderPage w title (postHTML title fm buf), sl)
        end
    end.

End Program.

(** ** A decoder for flat documents

    An instance of the decoder for concrete documents, after the
    behaviour of [yaml.v3] on block mappings whose lines have the form
    [key: value] with distinct keys and a plain scalar or a flow
    collection as value.  The text is parsed completely before anything
    is stored: a syntax error leaves the target as it was.  The fields
    are then decoded one after the other; a value of the wrong kind
    leaves its field alone, the remaining fields are still decoded, and
    the error is reported at the end (the library's [TypeError]).
    Quoted scalars, comments, null values, plain values that hold a
    colon followed by a space and flow collections that are not closed
    are outside this form, and the instance does not follow the library
    on them; it serves the examples only, on documents of this form. *)

Module Yaml.

Fixpoint splitLines (s : string) : list string :=
  match s with
  | EmptyString => [EmptyString]
  | String c s' =>
      if Ascii.eqb c "010" then EmptyString :: splitLines s'
      else match splitLines s' with
           | l :: ls => String c l :: ls
           | [] => [String c EmptyString]
           end
  end.

(** A line [key: value], cut at its first colon. *)
Definition cutColon (line : string) : option (string * string) :=
  match Strings.Index line ":" with
  | None => None
  | Some m =>
      let rest := Strings.sliceFrom (m + 1) line in
      if String.eqb rest "" || Strings.HasPrefix rest " "
      then Some (Strings.sliceTo m line, Strings.TrimSpace rest)
      else None
  end.

Fixpoint parse (ls : list string) : option (list (string * string)) :=
  match ls with
  | [] => Some []
  | l :: ls' =>
      if String.eqb (Strings.TrimSpace l) "" then parse ls'
      else match cutColon l, parse ls' with
           | Some kv, Some kvs => Some (kv :: kvs)
           | _, _ => None
           end
  end.

Definition isCollection (value : string) : bool :=
  Strings.HasPrefix value "[" || Strings.HasPrefix value "{".

(** One field: the target after it and whether a type error occurred. *)
Definition decodeField (st : PostFrontmatter.t * bool) (kv : string * string)
    : PostFrontmatter.t * bool :=
  let '(fm, failed) := st in
  let '(key, value) := kv in
  if String.eqb key "title" then
    if isCollection value then (fm, true)
    else (PostFrontmatter.mk value (PostFrontmatter.Date fm), failed)
  else if String.eqb key "date" then
    if isCollection value then (fm, true)
    else (PostFrontmatter.mk (PostFrontmatter.Title fm) value, failed)
  else (fm, failed).

Definition Unmarshal (text : string) (target : PostFrontmatter.t)
    : PostFrontmatter.t * option error :=
  match parse (splitLines text) with
  | None => (target, Some "yaml: did not find expected key")
  | Some kvs =>
      let '(fm, failed) := fold_left decodeField kvs (target, false) in
      (fm, if failed then Some "yaml: unmarshal errors" else None)
  end.

End Yaml.

(** A renderer that passes its source through, standing in for the
    markdown library where an example needs a concrete one. *)
Definition convertVerbatim (source : string) : Result string := Ok source.

(** A request for [/posts/{slug}]. *)
Definition postRequest (slug : string) : Request :=
  mkRequest {[ "slug" := slug ]} ∅ [].

(** A post file with a date in its frontmatter and no file information. *)
Definition datedPost (stem date : string) : DirEntry :=
  mkDirEntry (stem ++ ".md")
    (Ok ("---" ++ LF ++ "date: " ++ date ++ LF ++ "---" ++ LF ++ "text")) None.

(** A post file without frontmatter and without file information. *)
Definition undatedPost (stem : string) : DirEntry :=
  mkDirEntry (stem ++ ".md") (Ok "text") None.

(** Twelve posts of one day followed by a post of a later day. *)
Definition thirteenPosts : list DirEntry :=
  (map (fun stem => datedPost stem "2026-01-15")
     ["post-01"; "post-02"; "post-03"; "post-04"; "post-05"; "post-06";
      "post-07"; "post-08"; "post-09"; "post-10"; "post-11"; "post-12"]
   ++ [datedPost "post-13" "2026-01-20"])%list.

(** ** Definitions used to state the properties *)

(** The characters the specification allows in a slug. *)
Definition isSlugChar (c : ascii) : Prop :=
  let n := nat_of_ascii c in
  (65 <= n <= 90)%nat \/ (97 <= n <= 122)%nat \/ (48 <= n <= 57)%nat
  \/ c = "-"%char \/ c = "_"%char.

Definition slugRanges : list (nat * nat) :=
  [(97, 122); (65, 90); (48, 57); (95, 95); (45, 45)]%nat.

Fixpoint allInClass (ranges : list (nat * nat)) (s : string) : bool :=
  match s with
  | EmptyString => true
  | String c s' => Regexp.inClass ranges c && allInClass ranges s'
  end.

Definition nonEmpty (s : string) : bool :=
  match s with EmptyString => false | String _ _ => true end.

(** [s] begins with [p]. *)
Definition beginsWith (s p : string) : Prop := exists t, s = p ++ t.

(** [sep] occurs somewhere in [s]. *)
Definition occursIn (sep s : string) : Prop := exists u v, s = u ++ sep ++ v.

(** The first occurrence of [sep] in [s] is right after [u], and [v]
    follows it. *)
Definition firstSplit (sep s u v : string) : Prop :=
  s = u ++ sep ++ v
  /\ forall u' v', s = u' ++ sep ++ v' -> (String.length u <= String.length u')%nat.

(** The locale of a request as the specification words it: the query
    parameter if it is not empty, else the cookie if there is one; the
    value chosen counts only if it is [en] or [th]. *)
Definition selectedLang (r : Request) : string :=
  if String.eqb (QueryGet r "lang") "" then
    match Cookie r "lang" with
    | Ok v => v
    | Err _ => EmptyString
    end
  else QueryGet r "lang".

Definition resolvedLocale (r : Request) : string :=
  let v := selectedLang r in
  if String.eqb v "en" then "en" else "th".

(** The home page and the post page with every dynamic text escaped,
    as the specification asks; only [body] is inserted as it is. *)
Definition homePage_escaped (welcomeTitle welcomeText postsHeading : string)
    (posts : list Post.t) : string :=
  "<h1>" ++ Template.HTMLEscapeString welcomeTitle ++ "</h1>" ++ LF
  ++ "<p class=" ++ q ++ "about-me" ++ q ++ ">"
  ++ Template.HTMLEscapeString welcomeText ++ "</p>" ++ LF
  ++ "<h2 class=" ++ q ++ "posts-heading" ++ q ++ ">"
  ++ Template.HTMLEscapeString postsHeading ++ "</h2>" ++ LF
  ++ "<ul class=" ++ q ++ "post-list" ++ q ++ ">" ++ LF
  ++ String.concat ""
       (map (fun post =>
               "<li><a href=" ++ q ++ "/posts/"
               ++ Template.HTMLEscapeString (Post.Slug post) ++ q ++ ">"
               ++ Template.HTMLEscapeString (Post.Title post) ++ "</a>"
               ++ "<span class=" ++ q ++ "post-date" ++ q ++ ">"
               ++ Template.HTMLEscapeString (Post.DateStr post) ++ "</span></li>" ++ LF)
          posts)
  ++ "</ul>" ++ LF.

Definition postPage_escaped (title : string) (date : option string) (body : string)
    : string :=
  "<article>" ++ LF
  ++ "<div class=" ++ q ++ "post-header" ++ q ++ ">" ++ LF
  ++ "<h1>" ++ Template.HTMLEscapeString title ++ "</h1>" ++ LF
  ++ match date with
     | Some d => "<span class=" ++ q ++ "post-meta" ++ q ++ ">"
                 ++ Template.HTMLEscapeString d ++ "</span>" ++ LF
     | None => ""
     end
  ++ "</div>" ++ LF
  ++ body
  ++ "</article>".

(** The date shown on the post page, if any. *)
Definition shownDate (fm : PostFrontmatter.t) : option string :=
  if String.eqb (PostFrontmatter.Date fm) "" then None
  else option_map Time.Format_Jan_2_2006 (Time.Parse_2006_01_02 (PostFrontmatter.Date fm)).

(** The bytes [template.HTMLEscapeString] replaces. *)
Definition isSpecial (c : ascii) : bool :=
  Ascii.eqb c "000" || Ascii.eqb c "034" || Ascii.eqb c "'" || Ascii.eqb c "&"
  || Ascii.eqb c "<" || Ascii.eqb c ">".

Fixpoint plain (s : string) : bool :=
  match s with
  | EmptyString => true
  | String c s' => negb (isSpecial c) && plain s'
  end.


(** *** Notions for the correctness of [sort.Slice] *)

(** [less] is a strict weak order: irreflexive, transitive, and so is
    its complement. *)
Definition StrictWeakOrder {A : Type} (less : A -> A -> bool) : Prop :=
  (forall x, less x x = false)
  /\ (forall x y z, less x y = true -> less y z = true -> less x z = true)
  /\ (forall x y z, less x y = false -> less y z = false -> less x z = false).

(** No element of the list is less than an element before it. *)
Definition sortedBy {A : Type} (less : A -> A -> bool) (l : list A) : Prop :=
  forall i j x y, (i <= j)%nat -> l !! i = Some x -> l !! j = Some y -> less y x = false.

(** The same for the positions from [a] up to [b], read with a default. *)
Definition sortedOn {A : Type} (less : A -> A -> bool) (d : A) (data : list A) (a b : nat) : Prop :=
  forall i j, (a <= i)%nat -> (i <= j)%nat -> (j < b)%nat ->
    less (nth j data d) (nth i data d) = false.

(** [l'] differs from [l] only between [a] and [b], where it holds the
    same elements: whatever is true of all of them in [l] is true of all
    of them in [l']. *)
Definition sameRange {A : Type} (d : A) (a b : nat) (l l' : list A) : Prop :=
  List.length l' = List.length l
  /\ (forall k, (k < a)%nat \/ (b <= k)%nat -> nth k l' d = nth k l d)
  /\ (forall P : A -> Prop, (forall k, (a <= k < b)%nat -> P (nth k l d)) ->
      forall k, (a <= k < b)%nat -> P (nth k l' d)).

(** The element before position [a], if any, is not above any element
    between [a] and [b]. *)
Definition boundedBelow {A : Type} (less : A -> A -> bool) (d : A) (data : list A) (a b : nat) : Prop :=
  a = O \/ forall k, (a <= k < b)%nat -> less (nth k data d) (nth (a - 1) data d) = false.

(** The invariant of the partition loops: the pivot [pv] sits at [a],
    [U] holds below [i] and fails above [j]. *)
Definition partitionInv {A : Type} (d : A) (U : A -> bool) (pv : A) (n a b : nat)
    (data : list A) (i j : nat) : Prop :=
  List.length data = n /\ nth a data d = pv /\ (a < i)%nat /\ (i <= j + 1)%nat /\ (j < b)%nat
  /\ (forall k, (a < k < i)%nat -> U (nth k data d) = true)
  /\ (forall k, (j < k < b)%nat -> U (nth k data d) = false).

(** [c] is a child of [p] in the heap. *)
Definition child (p c : nat) : Prop := c = (2 * p + 1)%nat \/ c = (2 * p + 2)%nat.

(** The heap order between the nodes from [lo] on and their children,
    for the heap of size [hi] that starts at [first]: everywhere but at
    [root]; between the parent of [root] and the children of [root];
    everywhere. *)
Definition heapExceptAt {A : Type} (less : A -> A -> bool) (d : A) (first hi lo : nat)
    (data : list A) (root : nat) : Prop :=
  forall p c, (lo <= p)%nat -> p <> root -> child p c -> (c < hi)%nat ->
    less (nth (first + p) data d) (nth (first + c) data d) = false.

Definition heapGrandAt {A : Type} (less : A -> A -> bool) (d : A) (first hi lo : nat)
    (data : list A) (root : nat) : Prop :=
  forall pp c, (lo <= pp)%nat -> child pp root -> child root c -> (c < hi)%nat ->
    less (nth (first + pp) data d) (nth (first + c) data d) = false.

Definition heapFromAt {A : Type} (less : A -> A -> bool) (d : A) (first hi lo : nat)
    (data : list A) : Prop :=
  forall p c, (lo <= p)%nat -> child p c -> (c < hi)%nat ->
    less (nth (first + p) data d) (nth (first + c) data d) = false.

(** Neither element is less than the other. *)
Definition equivalent {A : Type} (less : A -> A -> bool) (x y : A) : bool :=
  negb (less x y) && negb (less y x).

Definition sameInstant (t u : Time.Time) : bool :=
  (Time.sec t =? Time.sec u)%Z && (Time.nsec t =? Time.nsec u)%Z.

(** *** Notions for the further properties *)

(** The headers [setSecurityHeaders] sets are on the response. *)
Definition hasSecurityHeaders (w : ResponseWriter) : Prop :=
  Header w !! "X-Content-Type-Options" = Some "nosniff"
  /\ Header w !! "X-Frame-Options" = Some "DENY"
  /\ Header w !! "X-XSS-Protection" = Some "1; mode=block"
  /\ Header w !! "Referrer-Policy" = Some "strict-origin-when-cross-origin".


(** The bytes that open or close a tag or an attribute value, and the
    byte NUL. *)
Definition isMarkup (c : ascii) : bool :=
  Ascii.eqb c "000" || Ascii.eqb c "034" || Ascii.eqb c "'"
  || Ascii.eqb c "<" || Ascii.eqb c ">".

(** The number of occurrences of the byte [c] in [s]. *)
Fixpoint countByte (c : ascii) (s : string) : nat :=
  match s with
  | EmptyString => O
  | String a s' => ((if Ascii.eqb a c then 1 else 0) + countByte c s')%nat
  end.

(** The post with empty fields. *)
Definition emptyPost : Post.t := Post.mk "" "" Time.zero "".

(** No byte of [s] is a path separator. *)
Fixpoint noSep (s : string) : bool :=
  match s with
  | EmptyString => true
  | String c s' => negb (Filepath.isSep c) && noSep s'
  end.

(** A text made of white-space characters only. *)
Inductive whiteSpace : string -> Prop :=
| whiteSpace_nil : whiteSpace ""
| whiteSpace_cons sp t :
    In sp Strings.spaceEncodings -> whiteSpace t -> whiteSpace (sp ++ t).

(** The date [YYYY-MM-DD] as a reader writes it out: the abbreviated
    month, the day without a leading zero, the year. *)
Definition longDate (s : string) : string :=
  match s with
  | String a (String b (String c (String d (String _
      (String e (String f (String _ (String g (String h _))))))))) =>
      nth (Z.to_nat (Time.digit e * 10 + Time.digit f - 1))
        ["Jan"; "Feb"; "Mar"; "Apr"; "May"; "Jun"; "Jul"; "Aug"; "Sep"; "Oct"; "Nov"; "Dec"]
        ""
      ++ " " ++ (if Ascii.eqb g "0" then String h "" else String g (String h ""))
      ++ ", " ++ String a (String b (String c (String d "")))
  | _ => ""
  end.

(** A file system with one post, and one that has a file outside the
    directory of posts as well. *)
Definition onePost : FileSystem :=
  fun path =>
    if String.eqb path "posts/hello-world.md" then Ok (Ok "# Hello")
    else Err "open: no such file or directory".

Definition onePostAndSecret : FileSystem :=
  fun path =>
    if String.eqb path "posts/hello-world.md" then Ok (Ok "# Hello")
    else if String.eqb path "secret.md" then Ok (Ok "top secret")
    else Err "open: no such file or directory".

(** *** Escaped text and titles in the words of the specification *)

(** No byte of [e] opens or closes a tag or an attribute value. *)
Fixpoint noMarkup (e : string) : bool :=
  match e with
  | EmptyString => true
  | String c e' => negb (isMarkup c) && noMarkup e'
  end.

(** The text a reader of HTML gets from [e]: the character references
    for the less-than and greater-than signs, the ampersand and the two
    quotes stand for these characters, every other byte for itself. *)
Fixpoint decodeEntities (e : string) : string :=
  match e with
  | EmptyString => EmptyString
  | String c r =>
      if Ascii.eqb c "&" then
        match r with
        | String c1 (String c2 (String c3 r3)) =>
            if Ascii.eqb c1 "l" && Ascii.eqb c2 "t" && Ascii.eqb c3 ";"
            then String "<" (decodeEntities r3)
            else if Ascii.eqb c1 "g" && Ascii.eqb c2 "t" && Ascii.eqb c3 ";"
            then String ">" (decodeEntities r3)
            else
              match r3 with
              | String c4 r4 =>
                  if Ascii.eqb c1 "a" && Ascii.eqb c2 "m" && Ascii.eqb c3 "p"
                     && Ascii.eqb c4 ";"
                  then String "&" (decodeEntities r4)
                  else if Ascii.eqb c1 "#" && Ascii.eqb c2 "3" && Ascii.eqb c3 "4"
                          && Ascii.eqb c4 ";"
                  then String "034" (decodeEntities r4)
                  else if Ascii.eqb c1 "#" && Ascii.eqb c2 "3" && Ascii.eqb c3 "9"
                          && Ascii.eqb c4 ";"
                  then String "'" (decodeEntities r4)
                  else String c (decodeEntities r)
              | EmptyString => String c (decodeEntities r)
              end
        | _ => String c (decodeEntities r)
        end
      else String c (decodeEntities r)
  end.

(** The text with the replacement character U+FFFD in the place of
    every byte NUL, which HTML does not allow. *)
Fixpoint withoutNUL (s : string) : string :=
  match s with
  | EmptyString => EmptyString
  | String c s' =>
      if Ascii.eqb c "000" then Strings.bytes [239; 191; 189]%nat ++ withoutNUL s'
      else String c (withoutNUL s')
  end.

(** [e] is the text [s], HTML-escaped: it holds no markup of its own,
    and a reader of HTML gets [s] from it. *)
Definition htmlEscaped (s e : string) : Prop :=
  noMarkup e = true /\ decodeEntities e = withoutNUL s.

(** The words of a slug: its parts between the hyphens. *)
Fixpoint slugWords (slug : string) : list string :=
  match slug with
  | EmptyString => [EmptyString]
  | String c slug' =>
      if Ascii.eqb c "-" then EmptyString :: slugWords slug'
      else match slugWords slug' with
           | w :: ws => String c w :: ws
           | [] => [String c EmptyString]
           end
  end.

Definition lowerLetters : string := "abcdefghijklmnopqrstuvwxyz".
Definition upperLetters : string := "ABCDEFGHIJKLMNOPQRSTUVWXYZ".

(** The place of [c] in [alphabet], if it is one of its letters. *)
Fixpoint placeIn (alphabet : string) (c : ascii) : option nat :=
  match alphabet with
  | EmptyString => None
  | String a alphabet' =>
      if Ascii.eqb a c then Some O else option_map S (placeIn alphabet' c)
  end.

(** The letter of [to] at the place [c] has in [from]; [c] itself if it
    is no letter of [from]. *)
Definition otherCase (from to : string) (c : ascii) : ascii :=
  match placeIn from c with
  | Some n => default c (String.get n to)
  | None => c
  end.

Definition isLetter (c : ascii) : bool :=
  match placeIn lowerLetters c, placeIn upperLetters c with
  | None, None => false
  | _, _ => true
  end.

Fixpoint lowerAll (w : string) : string :=
  match w with
  | EmptyString => EmptyString
  | String c w' => String (otherCase upperLetters lowerLetters c) (lowerAll w')
  end.

(** A word capitalized: its first letter in upper case, the letters
    after it in lower case, everything else as it is. *)
Fixpoint capitalize (w : string) : string :=
  match w with
  | EmptyString => EmptyString
  | String c w' =>
      if isLetter c then String (otherCase lowerLetters upperLetters c) (lowerAll w')
      else String c (capitalize w')
  end.

(** The title made from a slug: its words capitalized, with spaces
    where the hyphens were. *)
Definition titleOfSlug (slug : string) : string :=
  String.concat " " (map capitalize (slugWords slug)).

(** A text with every byte the escaper replaces but NUL. *)
Definition markupText : string :=
  "<a href=" ++ q ++ "x" ++ q ++ ">Tom & 'Jerry'</a>".

(** ** Properties *)

(** *** Strings *)

Lemma string_app_nil (t : string) : "" ++ t = t.
Proof. reflexivity. Qed.

Lemma string_app_cons (c : ascii) (s t : string) : String c s ++ t = String c (s ++ t).
Proof. reflexivity. Qed.

Ltac string_simpl :=
  repeat (rewrite ?string_app_cons, ?string_app_nil in *; simpl in *).

Lemma HasPrefix_nil s : Strings.HasPrefix s "" = true.
Proof. destruct s; reflexivity. Qed.

Lemma HasPrefix_beginsWith s p : Strings.HasPrefix s p = true <-> beginsWith s p.
Proof.
  unfold beginsWith. revert s; induction p as [|c p IH]; intros s.
  - rewrite HasPrefix_nil. split; [intros _; exists s; reflexivity|reflexivity].
  - destruct s as [|d s]; simpl.
    + split; [discriminate|intros [t Ht]; discriminate].
    + destruct (Ascii.eqb_spec d c) as [->|Hne].
      * rewrite IH. split; intros [t Ht]; exists t.
        -- rewrite Ht; reflexivity.
        -- rewrite string_app_cons in Ht. injection Ht as Ht; exact Ht.
      * split; [discriminate|intros [t Ht]].
        rewrite string_app_cons in Ht. injection Ht as Hc _; contradiction.
Qed.

Lemma HasPrefix_app p t : Strings.HasPrefix (p ++ t) p = true.
Proof. apply HasPrefix_beginsWith. exists t; reflexivity. Qed.

Lemma sliceFrom_app p t : Strings.sliceFrom (String.length p) (p ++ t) = t.
Proof.
  induction p as [|c p IH]; string_simpl; [destruct t; reflexivity|exact IH].
Qed.

Lemma sliceTo_app p t : Strings.sliceTo (String.length p) (p ++ t) = p.
Proof.
  induction p as [|c p IH]; string_simpl; [destruct t; reflexivity|f_equal; exact IH].
Qed.

Lemma string_app_length (s t : string) :
  String.length (s ++ t) = (String.length s + String.length t)%nat.
Proof. induction s as [|c s IH]; string_simpl; [reflexivity|f_equal; exact IH]. Qed.

Lemma string_app_assoc (s t u : string) : (s ++ t) ++ u = s ++ (t ++ u).
Proof. induction s as [|c s IH]; string_simpl; [reflexivity|f_equal; exact IH]. Qed.

Lemma Index_cons c s sep :
  Strings.Index (String c s) sep =
  if Strings.HasPrefix (String c s) sep then Some O
  else option_map S (Strings.Index s sep).
Proof. reflexivity. Qed.

Lemma Index_nil sep :
  Strings.Index "" sep = if Strings.HasPrefix "" sep then Some O else None.
Proof. reflexivity. Qed.

Lemma Index_None s sep : Strings.Index s sep = None <-> ~ occursIn sep s.
Proof.
  unfold occursIn. induction s as [|c s IH].
  - rewrite Index_nil. destruct (Strings.HasPrefix "" sep) eqn:E.
    + split; [discriminate|intros H; exfalso; apply H].
      apply HasPrefix_beginsWith in E as [t Ht]. exists EmptyString, t. exact Ht.
    + split; [intros _ [u [v H]]|reflexivity].
      destruct u; [|discriminate]. rewrite string_app_nil in H.
      assert (Strings.HasPrefix "" sep = true) by (apply HasPrefix_beginsWith; exists v; exact H).
      congruence.
  - rewrite Index_cons. destruct (Strings.HasPrefix (String c s) sep) eqn:E.
    + split; [discriminate|intros H; exfalso; apply H].
      apply HasPrefix_beginsWith in E as [t Ht]. exists EmptyString, t. exact Ht.
    + destruct (Strings.Index s sep) as [m|] eqn:Em; simpl.
      * split; [discriminate|intros H; exfalso].
        assert (Hs : ~ ~ exists u v, s = u ++ sep ++ v).
        { intros Hn. apply IH in Hn. discriminate. }
        apply Hs. intros [u [v Huv]]. apply H. exists (String c u), v.
        rewrite string_app_cons, Huv. reflexivity.
      * split; [intros _ [u [v H]]|reflexivity].
        destruct u as [|d u].
        -- rewrite string_app_nil in H.
           assert (Strings.HasPrefix (String c s) sep = true)
             by (apply HasPrefix_beginsWith; exists v; exact H).
           congruence.
        -- rewrite string_app_cons in H. injection H as _ H.
           apply (proj1 IH eq_refl). exists u, v. exact H.
Qed.

Lemma HasSuffix_app stem suffix : Strings.HasSuffix (stem ++ suffix) suffix = true.
Proof.
  unfold Strings.HasSuffix. rewrite string_app_length.
  replace (String.length stem + String.length suffix - String.length suffix)%nat
    with (String.length stem) by lia.
  rewrite sliceFrom_app, String.eqb_refl, andb_true_r.
  apply Nat.leb_le. lia.
Qed.

Lemma TrimSuffix_app stem suffix : Strings.TrimSuffix (stem ++ suffix) suffix = stem.
Proof.
  unfold Strings.TrimSuffix. rewrite HasSuffix_app, string_app_length.
  replace (String.length stem + String.length suffix - String.length suffix)%nat
    with (String.length stem) by lia.
  apply sliceTo_app.
Qed.

(** *** Slug validation *)

Section SlugValidation.

Lemma inClass_slugRanges c :
  Regexp.inClass slugRanges c = true <-> isSlugChar c.
Proof.
  unfold Regexp.inClass, slugRanges, isSlugChar; cbn [existsb].
  rewrite orb_false_r, !orb_true_iff, !andb_true_iff, !Nat.leb_le.
  assert (H95 : forall a, nat_of_ascii a = 95%nat <-> a = "_"%char).
  { intros a; split; [intros E | intros ->; reflexivity].
    rewrite <- (ascii_nat_embedding a), E; reflexivity. }
  assert (H45 : forall a, nat_of_ascii a = 45%nat <-> a = "-"%char).
  { intros a; split; [intros E | intros ->; reflexivity].
    rewrite <- (ascii_nat_embedding a), E; reflexivity. }
  rewrite <- H95, <- H45. lia.
Qed.

(** One-or-more repetitions of a class followed by the end of the text
    accept exactly the non-empty strings drawn from the class. *)
Lemma accept_plus_class_end ranges K b s :
  (forall b', K b' EmptyString = true) ->
  Regexp.accept (Regexp.Concat (Regexp.Plus (Regexp.CharClass ranges)) Regexp.EndText) b s K
  = nonEmpty s && allInClass ranges s.
Proof.
  intros HK. cbn [Regexp.accept].
  generalize (S (String.length s)) (Nat.lt_succ_diag_r (String.length s)).
  intros fuel; revert b s.
  induction fuel as [|fuel IH]; intros b s Hlt; [lia|].
  destruct s as [|c s]; [reflexivity|].
  cbn [Regexp.plusLoop Regexp.accept nonEmpty allInClass andb String.length] in *.
  destruct (Regexp.inClass ranges c); [|reflexivity].
  cbn [andb].
  replace (String.length s <? S (String.length s))%nat with true
    by (symmetry; apply Nat.ltb_lt; lia).
  rewrite IH by lia.
  destruct s as [|c' s]; [rewrite HK; reflexivity|reflexivity].
Qed.

Lemma search_begin_not_at_start r s :
  Regexp.search (Regexp.Concat Regexp.BeginText r) false s = false.
Proof. induction s as [|c s IH]; cbn in *; [reflexivity|exact IH]. Qed.

Lemma IsValidSlug_unfold s :
  IsValidSlug s = nonEmpty s && allInClass slugRanges s.
Proof.
  unfold IsValidSlug, Regexp.MatchString, validSlugRegex.
  fold slugRanges.
  destruct s as [|c s].
  - reflexivity.
  - cbn [Regexp.search]. rewrite search_begin_not_at_start, orb_false_r.
    change (Regexp.accept (Regexp.Concat Regexp.BeginText ?r) true ?t ?k)
      with (true && Regexp.accept r true t k).
    rewrite accept_plus_class_end by reflexivity. reflexivity.
Qed.

Lemma allInClass_slug_iff s :
  allInClass slugRanges s = true <->
  (forall c, In c (list_ascii_of_string s) -> isSlugChar c).
Proof.
  induction s as [|c s IH]; cbn [allInClass list_ascii_of_string].
  - split; [intros _ c []|reflexivity].
  - rewrite andb_true_iff, inClass_slugRanges, IH. split.
    + intros [Hc Hs] a [<-|Ha]; auto.
    + intros H; split; [apply H; left; reflexivity|intros a Ha; apply H; right; exact Ha].
Qed.

(** C2. [IsValidSlug s] holds exactly when [s] is non-empty and consists
    of ASCII letters, ASCII digits, hyphens and underscores only; the
    three sample slugs of the specification evaluate as stated. *)
Theorem IsValidSlug_spec :
  (forall s : string,
      IsValidSlug s = true <->
      s <> EmptyString /\ (forall c, In c (list_ascii_of_string s) -> isSlugChar c))
  /\ IsValidSlug "../etc/passwd" = false
  /\ IsValidSlug "valid-slug_123" = true
  /\ IsValidSlug "" = false.
Proof.
  split; [|repeat split; reflexivity].
  intros s. rewrite IsValidSlug_unfold, andb_true_iff, allInClass_slug_iff.
  destruct s; cbn [nonEmpty]; intuition congruence.
Qed.

End SlugValidation.

(** The table of [TestIsValidSlug]. *)
Example TestIsValidSlug :
  map IsValidSlug
    ["valid-slug"; "valid_slug"; "ValidSlug123"; "th-getting-started"; "en-my-post";
     "../etc/passwd"; "path/traversal"; "slug with spaces"; ""; "slug<script>";
     "slug&param=value"]
  = [true; true; true; true; true; false; false; false; false; false; false].
Proof. reflexivity. Qed.

(** *** Frontmatter *)

Lemma Index_Some s sep m :
  Strings.Index s sep = Some m ->
  exists u v, firstSplit sep s u v /\ String.length u = m.
Proof.
  unfold firstSplit. revert m; induction s as [|c s IH]; intros m.
  - rewrite Index_nil. destruct (Strings.HasPrefix "" sep) eqn:E; [|discriminate].
    intros [= <-]. apply HasPrefix_beginsWith in E as [t Ht].
    exists EmptyString, t. repeat split; [exact Ht|simpl; lia].
  - rewrite Index_cons. destruct (Strings.HasPrefix (String c s) sep) eqn:E.
    + intros [= <-]. apply HasPrefix_beginsWith in E as [t Ht].
      exists EmptyString, t. repeat split; [exact Ht|simpl; lia].
    + destruct (Strings.Index s sep) as [k|] eqn:Ek; [|discriminate].
      intros [= <-]. destruct (IH k eq_refl) as (u & v & [Huv Hmin] & Hlen).
      exists (String c u), v. repeat split.
      * rewrite string_app_cons, <- Huv. reflexivity.
      * intros u' v' H'. destruct u' as [|d u'].
        -- rewrite string_app_nil in H'.
           assert (Strings.HasPrefix (String c s) sep = true)
             by (apply HasPrefix_beginsWith; exists v'; exact H').
           congruence.
        -- rewrite string_app_cons in H'. injection H' as _ H'.
           specialize (Hmin u' v' H'). simpl. lia.
      * simpl. lia.
Qed.

Lemma Index_firstSplit sep s u v :
  firstSplit sep s u v -> Strings.Index s sep = Some (String.length u).
Proof.
  intros [Hs Hmin]. destruct (Strings.Index s sep) as [m|] eqn:E.
  - destruct (Index_Some _ _ _ E) as (u0 & v0 & [Hs0 Hmin0] & Hlen).
    specialize (Hmin u0 v0 Hs0). specialize (Hmin0 u v Hs). f_equal. lia.
  - apply Index_None in E. exfalso. apply E. exists u, v. exact Hs.
Qed.

Lemma SplitN_2_firstSplit sep s u v :
  firstSplit sep s u v -> Strings.SplitN s sep 2 = [u; v].
Proof.
  intros H. pose proof (Index_firstSplit _ _ _ _ H) as E.
  destruct H as [-> _]. simpl. rewrite E.
  rewrite sliceTo_app. rewrite <- string_app_length, <- string_app_assoc.
  rewrite sliceFrom_app. reflexivity.
Qed.

Lemma SplitN_2_none sep s :
  ~ occursIn sep s -> Strings.SplitN s sep 2 = [s].
Proof. intros H. apply Index_None in H. simpl. rewrite H. reflexivity. Qed.

Section Frontmatter.

Variable yaml_Unmarshal :
  string -> PostFrontmatter.t -> PostFrontmatter.t * option error.

(** C3. An input that does not begin with the delimiter [---] comes
    back unchanged, with an empty frontmatter. *)
Theorem ParseFrontmatter_without_delimiter (content : string) :
  ~ beginsWith content "---" ->
  ParseFrontmatter yaml_Unmarshal content
  = (PostFrontmatter.mk EmptyString EmptyString, content).
Proof.
  intros H. unfold ParseFrontmatter.
  destruct (Strings.HasPrefix content "---") eqn:E; [|reflexivity].
  apply HasPrefix_beginsWith in E. contradiction.
Qed.

(** C4. An input that begins with [---] and has no further [---] after
    it comes back verbatim, leading delimiter included, with an empty
    frontmatter. *)
Theorem ParseFrontmatter_without_closing_delimiter (content rest : string) :
  content = "---" ++ rest ->
  ~ occursIn "---" rest ->
  ParseFrontmatter yaml_Unmarshal content
  = (PostFrontmatter.mk EmptyString EmptyString, content).
Proof.
  intros -> H. unfold ParseFrontmatter.
  rewrite HasPrefix_app. cbn [negb].
  change 3%nat with (String.length "---"). rewrite sliceFrom_app.
  rewrite (SplitN_2_none _ _ H). reflexivity.
Qed.

(** C5, as amended.  When both delimiters are present and the decoder
    reports an error for the block between them, [ParseFrontmatter]
    returns the frontmatter exactly as the decoder left it, together
    with the trimmed text after the closing delimiter; the error goes no
    further than the log. *)
Theorem ParseFrontmatter_decode_error (content block rest : string)
    (fm : PostFrontmatter.t) (err : error) :
  beginsWith content "---" ->
  firstSplit "---" (Strings.sliceFrom 3 content) block rest ->
  yaml_Unmarshal block PostFrontmatter.empty = (fm, Some err) ->
  ParseFrontmatter yaml_Unmarshal content = (fm, Strings.TrimSpace rest).
Proof.
  intros Hp Hs Hy. unfold ParseFrontmatter.
  apply HasPrefix_beginsWith in Hp. rewrite Hp. cbn [negb].
  rewrite (SplitN_2_firstSplit _ _ _ _ Hs), Hy. reflexivity.
Qed.

End Frontmatter.

(** The cases of [TestParseFrontmatter] with a complete frontmatter. *)
Example TestParseFrontmatter_valid :
  ParseFrontmatter Yaml.Unmarshal
    ("---" ++ LF ++ "title: Test Post" ++ LF ++ "date: 2026-01-15" ++ LF ++ "---" ++ LF ++ LF
     ++ "This is the content.")
  = (PostFrontmatter.mk "Test Post" "2026-01-15", "This is the content.").
Proof. vm_compute. reflexivity. Qed.

Example TestParseFrontmatter_only_title :
  ParseFrontmatter Yaml.Unmarshal
    ("---" ++ LF ++ "title: Only Title" ++ LF ++ "---" ++ LF ++ LF ++ "Content here.")
  = (PostFrontmatter.mk "Only Title" "", "Content here.").
Proof. vm_compute. reflexivity. Qed.

Lemma firstSplit_Index sep s u v :
  s = u ++ sep ++ v -> Strings.Index s sep = Some (String.length u) ->
  firstSplit sep s u v.
Proof.
  intros Hs E. split; [exact Hs|].
  destruct (Index_Some _ _ _ E) as (u0 & v0 & [_ Hmin] & Hlen).
  intros u' v' H'. specialize (Hmin u' v' H'). lia.
Qed.

Lemma ParseFrontmatter_without_delimiter_witness :
  ParseFrontmatter Yaml.Unmarshal "Just content without frontmatter."
  = (PostFrontmatter.mk "" "", "Just content without frontmatter.").
Proof.
  apply ParseFrontmatter_without_delimiter.
  intros H. apply HasPrefix_beginsWith in H. vm_compute in H. discriminate.
Defined.

Lemma ParseFrontmatter_without_closing_delimiter_witness :
  ParseFrontmatter Yaml.Unmarshal ("---" ++ LF ++ "title: Incomplete" ++ LF ++ "This should not parse")
  = (PostFrontmatter.mk "" "",
     "---" ++ LF ++ "title: Incomplete" ++ LF ++ "This should not parse").
Proof.
  apply (ParseFrontmatter_without_closing_delimiter Yaml.Unmarshal _
           (LF ++ "title: Incomplete" ++ LF ++ "This should not parse")).
  - reflexivity.
  - apply Index_None. vm_compute. reflexivity.
Defined.

(** A block with a line that is no [key: value] pair: the decoder stops
    at the syntax error and the frontmatter stays empty. *)
Lemma ParseFrontmatter_decode_error_witness :
  ParseFrontmatter Yaml.Unmarshal
    ("---" ++ LF ++ "title: Hello" ++ LF ++ "no colon here" ++ LF ++ "---" ++ LF ++ "Body")
  = (PostFrontmatter.mk "" "", "Body").
Proof.
  apply (ParseFrontmatter_decode_error Yaml.Unmarshal _
           (LF ++ "title: Hello" ++ LF ++ "no colon here" ++ LF) (LF ++ "Body")
           _ "yaml: did not find expected key").
  - apply HasPrefix_beginsWith. vm_compute. reflexivity.
  - apply firstSplit_Index; vm_compute; reflexivity.
  - vm_compute. reflexivity.
Defined.

(** C5 as the specification states it fails: a block whose [date] is a
    sequence is a decoding error, yet the title decoded before it is
    returned. *)
Lemma ParseFrontmatter_decode_error_partial :
  let block := LF ++ "title: Hello" ++ LF ++ "date: [1, 2]" ++ LF in
  let content := "---" ++ block ++ "---" ++ LF ++ "Body" in
  beginsWith content "---"
  /\ firstSplit "---" (Strings.sliceFrom 3 content) block (LF ++ "Body")
  /\ snd (Yaml.Unmarshal block PostFrontmatter.empty) = Some "yaml: unmarshal errors"
  /\ ParseFrontmatter Yaml.Unmarshal content = (PostFrontmatter.mk "Hello" "", "Body")
  /\ fst (ParseFrontmatter Yaml.Unmarshal content) <> PostFrontmatter.mk "" "".
Proof.
  cbv zeta. split; [|split; [|split; [|split]]].
  - apply HasPrefix_beginsWith. vm_compute. reflexivity.
  - apply firstSplit_Index; vm_compute; reflexivity.
  - vm_compute. reflexivity.
  - vm_compute. reflexivity.
  - vm_compute. discriminate.
Qed.

(** *** Sorting: the result is a rearrangement of the input *)

Section SortPermutation.

Context {A : Type} (less : A -> A -> bool).

Lemma Swap_Permutation (data : list A) i j : Sort.Swap data i j ≡ₚ data.
Proof.
  unfold Sort.Swap.
  destruct (data !! i) as [x|] eqn:Ei; [|reflexivity].
  destruct (data !! j) as [y|] eqn:Ej; [|reflexivity].
  by apply Permutation_insert_swap.
Qed.

Lemma insertDown_Permutation (data : list A) a j :
  Sort.insertDown less data a j ≡ₚ data.
Proof.
  revert data; induction j as [|j IH]; intros data; simpl; [reflexivity|].
  destruct (_ && _); [|reflexivity].
  rewrite IH. apply Swap_Permutation.
Qed.

Lemma insertionSort_from_Permutation fuel (data : list A) a i b :
  Sort.insertionSort_from less fuel data a i b ≡ₚ data.
Proof.
  revert data i; induction fuel as [|fuel IH]; intros data i; simpl; [reflexivity|].
  destruct (i <? b)%nat; [|reflexivity].
  rewrite IH. apply insertDown_Permutation.
Qed.

Lemma insertionSort_Permutation (data : list A) a b :
  Sort.insertionSort less data a b ≡ₚ data.
Proof. apply insertionSort_from_Permutation. Qed.

Lemma siftDown_Permutation fuel (data : list A) root hi first :
  Sort.siftDown less fuel data root hi first ≡ₚ data.
Proof.
  revert data root; induction fuel as [|fuel IH]; intros data root; simpl; [reflexivity|].
  destruct (hi <=? _)%nat; [reflexivity|].
  destruct (negb _); [reflexivity|].
  rewrite IH. apply Swap_Permutation.
Qed.

Lemma buildHeap_Permutation i (data : list A) hi first :
  Sort.buildHeap less i data hi first ≡ₚ data.
Proof.
  revert data; induction i as [|i IH]; intros data; simpl.
  - apply siftDown_Permutation.
  - rewrite IH. apply siftDown_Permutation.
Qed.

Lemma popHeap_Permutation n (data : list A) first :
  Sort.popHeap less n data first ≡ₚ data.
Proof.
  revert data; induction n as [|n IH]; intros data; simpl; [reflexivity|].
  rewrite IH, siftDown_Permutation. apply Swap_Permutation.
Qed.

Lemma heapSort_Permutation (data : list A) a b :
  Sort.heapSort less data a b ≡ₚ data.
Proof.
  unfold Sort.heapSort. rewrite popHeap_Permutation. apply buildHeap_Permutation.
Qed.

Lemma partitionLoop_Permutation fuel up down (data : list A) i j :
  (Sort.partitionLoop fuel up down data i j).1.1 ≡ₚ data.
Proof.
  revert data i j; induction fuel as [|fuel IH]; intros data i j; simpl; [reflexivity|].
  destruct (_ <? _)%nat; [reflexivity|].
  rewrite IH. apply Swap_Permutation.
Qed.

Lemma partition_Permutation (data : list A) a b pivot :
  (Sort.partition less data a b pivot).1.1 ≡ₚ data.
Proof.
  unfold Sort.partition.
  destruct (_ <? _)%nat; simpl.
  - by rewrite !Swap_Permutation.
  - match goal with
    | |- context [Sort.partitionLoop ?f ?u ?d ?x ?i ?j] =>
        pose proof (partitionLoop_Permutation f u d x i j) as H;
        destruct (Sort.partitionLoop f u d x i j) as [[d' i'] j']
    end.
    simpl in *. by rewrite Swap_Permutation, H, !Swap_Permutation.
Qed.

Lemma partitionEqual_Permutation (data : list A) a b pivot :
  (Sort.partitionEqual less data a b pivot).1 ≡ₚ data.
Proof.
  unfold Sort.partitionEqual.
  match goal with
  | |- context [Sort.partitionLoop ?f ?u ?d ?x ?i ?j] =>
      pose proof (partitionLoop_Permutation f u d x i j) as H;
      destruct (Sort.partitionLoop f u d x i j) as [[d' i'] j']
  end.
  simpl in *. by rewrite H, Swap_Permutation.
Qed.

Lemma shiftLeft_Permutation (data : list A) j :
  Sort.shiftLeft less data j ≡ₚ data.
Proof.
  revert data; induction j as [|j IH]; intros data; simpl; [reflexivity|].
  destruct (negb _); [reflexivity|].
  rewrite IH. apply Swap_Permutation.
Qed.

Lemma shiftRight_Permutation fuel (data : list A) j b :
  Sort.shiftRight less fuel data j b ≡ₚ data.
Proof.
  revert data j; induction fuel as [|fuel IH]; intros data j; simpl; [reflexivity|].
  destruct (j <? b)%nat; [|reflexivity].
  destruct (negb _); [reflexivity|].
  rewrite IH. apply Swap_Permutation.
Qed.

Lemma partialInsertionSort_from_Permutation steps (data : list A) a i b :
  (Sort.partialInsertionSort_from less steps data a i b).1 ≡ₚ data.
Proof.
  revert data i; induction steps as [|steps IH]; intros data i; simpl; [reflexivity|].
  destruct (_ =? b)%nat; [reflexivity|].
  destruct (b - a <? 50)%nat; [reflexivity|].
  rewrite IH.
  repeat match goal with |- context [if ?c then _ else _] => destruct c end;
    rewrite ?shiftRight_Permutation, ?shiftLeft_Permutation; apply Swap_Permutation.
Qed.

Lemma breakPatterns_from_Permutation n (data : list A) a length idx i random :
  Sort.breakPatterns_from n data a length idx i random ≡ₚ data.
Proof.
  revert data i random; induction n as [|n IH]; intros data i random; simpl; [reflexivity|].
  rewrite IH. apply Swap_Permutation.
Qed.

Lemma breakPatterns_Permutation (data : list A) a b :
  Sort.breakPatterns data a b ≡ₚ data.
Proof.
  unfold Sort.breakPatterns. destruct (8 <=? _)%nat; [|reflexivity].
  apply breakPatterns_from_Permutation.
Qed.

Lemma reverseRange_from_Permutation fuel (data : list A) i j :
  Sort.reverseRange_from fuel data i j ≡ₚ data.
Proof.
  revert data i j; induction fuel as [|fuel IH]; intros data i j; simpl; [reflexivity|].
  destruct (i <? j)%nat; [|reflexivity].
  rewrite IH. apply Swap_Permutation.
Qed.

Lemma pdqsort_loop_Permutation fuel (data : list A) a b limit wb wp :
  Sort.pdqsort_loop less fuel data a b limit wb wp ≡ₚ data.
Proof.
  revert data a b limit wb wp.
  induction fuel as [|fuel IH]; intros data a b limit wb wp; simpl; [reflexivity|].
  destruct (b - a <=? 12)%nat; [apply insertionSort_Permutation|].
  destruct (limit =? 0)%nat; [apply heapSort_Permutation|].
  set (d1 := if negb wb then _ else _).
  assert (H1 : d1.1 ≡ₚ data).
  { subst d1. destruct (negb wb); simpl; [apply breakPatterns_Permutation|reflexivity]. }
  destruct d1 as [data1 limit1]; simpl in H1.
  destruct (Sort.choosePivot less data1 a b) as [pivot hint].
  set (d2 := match hint with Sort.decreasingHint => _ | _ => _ end).
  assert (H2 : d2.1.1 ≡ₚ data).
  { subst d2. destruct hint; simpl; try exact H1.
    unfold Sort.reverseRange. by rewrite reverseRange_from_Permutation. }
  destruct d2 as [[data2 pivot2] hint2]; simpl in H2.
  set (d3 := if _ && Sort.isIncreasing hint2 then _ else _).
  assert (H3 : d3.1 ≡ₚ data).
  { subst d3. destruct (_ && _); simpl; [|exact H2].
    unfold Sort.partialInsertionSort. by rewrite partialInsertionSort_from_Permutation. }
  destruct d3 as [data3 sorted]; simpl in H3.
  destruct sorted; [exact H3|].
  destruct (_ && negb _).
  - pose proof (partitionEqual_Permutation data3 a b pivot2) as H4.
    destruct (Sort.partitionEqual less data3 a b pivot2) as [data4 mid]; simpl in H4.
    by rewrite IH, H4.
  - pose proof (partition_Permutation data3 a b pivot2) as H4.
    destruct (Sort.partition less data3 a b pivot2) as [[data4 mid] ap]; simpl in H4.
    destruct (_ <? _)%nat; by rewrite !IH, H4.
Qed.

Lemma Slice_Permutation (x : list A) : Sort.Slice less x ≡ₚ x.
Proof. apply pdqsort_loop_Permutation. Qed.

End SortPermutation.

(** *** The title of a slug against the specification's notion *)

Lemma ReplaceAll_fuel_hyphen fuel c s :
  Strings.ReplaceAll_fuel (S fuel) (String c s) "-" " "
  = String (if Ascii.eqb c "-" then " "%char else c) (Strings.ReplaceAll_fuel fuel s "-" " ").
Proof.
  cbn [Strings.ReplaceAll_fuel Strings.HasPrefix]. rewrite HasPrefix_nil.
  destruct (Ascii.eqb c "-"); reflexivity.
Qed.

Lemma slugWords_cons slug : exists w ws, slugWords slug = w :: ws.
Proof.
  destruct slug as [|c slug]; cbn [slugWords]; [eauto|].
  destruct (Ascii.eqb c "-"); [eauto|]. destruct (slugWords slug); eauto.
Qed.

Lemma concat_cons_String sep c w l :
  String.concat sep (String c w :: l) = String c (String.concat sep (w :: l)).
Proof. destruct l; reflexivity. Qed.

(** What the caser and the specification's alphabets say about the
    characters of a slug. *)
Lemma slugChar_cases c :
  Regexp.inClass slugRanges c = true ->
  c = "-"%char
  \/ (Ascii.eqb c "-" = false /\ Cases.isCased c = true /\ isLetter c = true
      /\ Cases.toUpper c = otherCase lowerLetters upperLetters c
      /\ Cases.toLower c = otherCase upperLetters lowerLetters c)
  \/ (Ascii.eqb c "-" = false /\ Cases.isCased c = false /\ Cases.isBreak c = false
      /\ isLetter c = false /\ otherCase upperLetters lowerLetters c = c).
Proof.
  intros H.
  destruct c as [[] [] [] [] [] [] [] []]; vm_compute in H; try discriminate H;
    first [left; reflexivity
          |right; left; vm_compute; repeat split; reflexivity
          |right; right; vm_compute; repeat split; reflexivity].
Qed.

Lemma title_of_slug_state s : forall fuel w ws,
  allInClass slugRanges s = true -> (String.length s < fuel)%nat ->
  slugWords s = w :: ws ->
  Cases.title false (Strings.ReplaceAll_fuel fuel s "-" " ")
  = String.concat " " (capitalize w :: map capitalize ws)
  /\ Cases.title true (Strings.ReplaceAll_fuel fuel s "-" " ")
     = String.concat " " (lowerAll w :: map capitalize ws).
Proof.
  induction s as [|c s IH]; intros fuel w ws Hs Hf Hw.
  - destruct fuel as [|fuel]; [cbn [String.length] in Hf; lia|].
    cbn [slugWords] in Hw. injection Hw as <- <-. split; reflexivity.
  - destruct fuel as [|fuel]; [cbn [String.length] in Hf; lia|].
    cbn [String.length] in Hf. cbn [allInClass] in Hs.
    apply andb_true_iff in Hs as [Hc Hs].
    destruct (slugWords_cons s) as (w' & ws' & Hw').
    destruct (IH fuel w' ws' Hs ltac:(lia) Hw') as [IHf IHt].
    rewrite ReplaceAll_fuel_hyphen. cbn [slugWords] in Hw. rewrite Hw' in Hw.
    destruct (slugChar_cases c Hc) as [->|[(Eh & Hcased & Hl & Hu & Hlo)|(Eh & Hcased & Hb & Hl & Hlo)]].
    + cbn [Ascii.eqb Bool.eqb] in Hw |- *. injection Hw as <- <-.
      change (Cases.title false (String " " ?x)) with (String " " (Cases.title false x)).
      change (Cases.title true (String " " ?x)) with (String " " (Cases.title false x)).
      rewrite IHf. split; reflexivity.
    + rewrite Eh in Hw |- *. injection Hw as <- <-.
      cbn [Cases.title capitalize lowerAll map]. rewrite Hcased, Hl, IHt, Hu, Hlo.
      rewrite !concat_cons_String. split; reflexivity.
    + rewrite Eh in Hw |- *. injection Hw as <- <-.
      cbn [Cases.title capitalize lowerAll map]. rewrite Hcased, Hb, Hl, IHf, IHt, Hlo.
      rewrite !concat_cons_String. split; reflexivity.
Qed.

(** On the characters of a slug, title-casing the slug with spaces for
    its hyphens gives the title of the specification. *)
Lemma toTitleCase_titleOfSlug slug :
  allInClass slugRanges slug = true ->
  toTitleCase (Strings.ReplaceAll slug "-" " ") = titleOfSlug slug.
Proof.
  intros Hs. destruct (slugWords_cons slug) as (w & ws & Hw).
  unfold toTitleCase, Cases.Title_English, Strings.ReplaceAll, titleOfSlug.
  rewrite Hw. apply (title_of_slug_state slug _ w ws Hs); [lia|exact Hw].
Qed.

(** *** The post page: validation comes first *)

Section PostPage.

Variable yaml_Unmarshal :
  string -> PostFrontmatter.t -> PostFrontmatter.t * option error.
Variable goldmark_Convert : string -> Result string.

(** C1. A slug that fails validation is answered with status 400 and the
    reader is not called: a spy wrapped around any reader has recorded
    nothing new and the reader is as it was.  A valid slug for which the
    reader reports an error is answered with status 404. *)
Theorem PostHandler_invalid_slug_and_not_found
    {R : Type} `{SlugReader R} (sl : R) (seen : list string)
    (w : ResponseWriter) (r : Request) :
  (IsValidSlug (PathValue r "slug") = false ->
   Body (PostHandler yaml_Unmarshal goldmark_Convert (mkSpy seen sl) w r).1
   = Some (HttpError 400 ("Invalid post slug" ++ LF))
   /\ (PostHandler yaml_Unmarshal goldmark_Convert (mkSpy seen sl) w r).2 = mkSpy seen sl)
  /\ (IsValidSlug (PathValue r "slug") = true ->
      forall e sl', Read sl (PathValue r "slug") = (Err e, sl') ->
      Body (PostHandler yaml_Unmarshal goldmark_Convert sl w r).1
      = Some (HttpError 404 ("Post not found" ++ LF))).
Proof.
  split.
  - intros Hv. unfold PostHandler. rewrite Hv. split; reflexivity.
  - intros Hv e sl' Hr. unfold PostHandler. rewrite Hv, Hr. reflexivity.
Qed.

(** C10. With no title in the frontmatter, the post page is rendered
    under the title made from the whole slug: its words, which are its
    parts between the hyphens, each with the first letter in upper case
    and the letters after it in lower case, and a space where each
    hyphen was; a language prefix stays.  For the slug
    [en-getting-started] the title is "En Getting Started". *)
Theorem PostHandler_title_from_slug
    {R : Type} `{SlugReader R} (sl sl' : R) (w : ResponseWriter) (r : Request)
    (postMarkdown buf : string) :
  let slug := PathValue r "slug" in
  let fm := (ParseFrontmatter yaml_Unmarshal postMarkdown).1 in
  let title := titleOfSlug slug in
  IsValidSlug slug = true ->
  Read sl slug = (Ok postMarkdown, sl') ->
  PostFrontmatter.Title fm = "" ->
  goldmark_Convert (ParseFrontmatter yaml_Unmarshal postMarkdown).2 = Ok buf ->
  Body (PostHandler yaml_Unmarshal goldmark_Convert sl w r).1
  = Some (Page (PageData.mk title (postHTML title fm buf)))
  /\ (slug = "en-getting-started" -> title = "En Getting Started").
Proof.
  intros slug fm title Hv Hr Ht Hc. split.
  - unfold PostHandler. fold slug. rewrite Hv, Hr. cbn [negb].
    subst fm. destruct (ParseFrontmatter yaml_Unmarshal postMarkdown) as [fm body].
    cbn [fst snd] in *. rewrite Hc, Ht. cbn [String.eqb].
    rewrite IsValidSlug_unfold in Hv. apply andb_true_iff in Hv as [_ Hv].
    rewrite (toTitleCase_titleOfSlug slug Hv). reflexivity.
  - intros E. subst title. rewrite E. reflexivity.
Qed.

End PostPage.

Lemma PostHandler_invalid_slug_and_not_found_witness :
  let sl := {| content := ∅ |} in
  (Body (PostHandler Yaml.Unmarshal convertVerbatim (mkSpy [] sl) newResponse
           (postRequest "../etc/passwd")).1
   = Some (HttpError 400 ("Invalid post slug" ++ LF))
   /\ (PostHandler Yaml.Unmarshal convertVerbatim (mkSpy [] sl) newResponse
         (postRequest "../etc/passwd")).2 = mkSpy [] sl)
  /\ Body (PostHandler Yaml.Unmarshal convertVerbatim sl newResponse
             (postRequest "nonexistent")).1
     = Some (HttpError 404 ("Post not found" ++ LF)).
Proof.
  intros sl. split.
  - apply (proj1 (PostHandler_invalid_slug_and_not_found Yaml.Unmarshal convertVerbatim
                    sl [] newResponse (postRequest "../etc/passwd"))).
    vm_compute. reflexivity.
  - apply (proj2 (PostHandler_invalid_slug_and_not_found Yaml.Unmarshal convertVerbatim
                    sl [] newResponse (postRequest "nonexistent")))
      with (e := "file does not exist") (sl' := sl).
    + vm_compute. reflexivity.
    + vm_compute. reflexivity.
Defined.

Lemma PostHandler_title_from_slug_witness :
  let sl := {| content := {[ "en-getting-started" := "## Why Go?" ]} |} in
  Body (PostHandler Yaml.Unmarshal convertVerbatim sl newResponse
          (postRequest "en-getting-started")).1
  = Some (Page (PageData.mk "En Getting Started"
                  (postHTML "En Getting Started" PostFrontmatter.empty "## Why Go?"))).
Proof.
  intros sl.
  apply (proj1 (PostHandler_title_from_slug Yaml.Unmarshal convertVerbatim sl sl newResponse
                  (postRequest "en-getting-started") "## Why Go?" "## Why Go?"
                  ltac:(vm_compute; reflexivity) ltac:(vm_compute; reflexivity)
                  ltac:(vm_compute; reflexivity) ltac:(vm_compute; reflexivity))).
Defined.

(** *** The locale of a request *)

Lemma eqb_cases (a b : string) : (String.eqb a b = true /\ a = b) \/ (String.eqb a b = false /\ a <> b).
Proof. destruct (String.eqb_spec a b); [left|right]; split; auto. Qed.

Lemma requestLang_resolvedLocale r : requestLang r = resolvedLocale r.
Proof.
  unfold requestLang, resolvedLocale, selectedLang.
  destruct (String.eqb (QueryGet r "lang") "") eqn:Eq.
  - destruct (Cookie r "lang") as [v|e].
    + destruct (eqb_cases v "en") as [[-> ->]|[-> _]]; [reflexivity|].
      destruct (eqb_cases v "th") as [[-> ->]|[-> _]]; reflexivity.
    + apply String.eqb_eq in Eq. rewrite Eq. reflexivity.
  - destruct (eqb_cases (QueryGet r "lang") "en") as [[-> ->]|[-> _]]; [reflexivity|].
    destruct (eqb_cases (QueryGet r "lang") "th") as [[-> ->]|[-> _]]; reflexivity.
Qed.

Section Locale.

Variable yaml_Unmarshal :
  string -> PostFrontmatter.t -> PostFrontmatter.t * option error.

(** C8. On the home page and on the contact page the locale is exactly
    [en] or [th]; it is the value of the query parameter [lang], or of
    the cookie [lang] when the parameter is empty or absent, and [th]
    whenever that value is anything but [en] or [th].  The home page
    stores it in the [lang] cookie, the contact page serves the fragment
    of that locale. *)
Theorem handlers_resolve_locale (readDir : Result (list DirEntry))
    (w : ResponseWriter) (r : Request) :
  let chosen :=
    if String.eqb (QueryGet r "lang") "" then
      match Cookie r "lang" with Ok v => v | Err _ => "" end
    else QueryGet r "lang" in
  let locale := if String.eqb chosen "en" then "en" else "th" in
  (locale = "en" \/ locale = "th")
  /\ (chosen = "en" \/ chosen = "th" -> locale = chosen)
  /\ (chosen <> "en" -> locale = "th")
  /\ map CookieValue (SetCookies (HomeHandler yaml_Unmarshal readDir w r))
     = (map CookieValue (SetCookies w) ++ [locale])%list
  /\ Body (ContactHandler w r)
     = Some (Page (PageData.mk "Contact"
                     (if String.eqb locale "th" then contactPage_th else contactPage_en))).
Proof.
  intros chosen locale.
  assert (EL : requestLang r = locale) by apply requestLang_resolvedLocale.
  repeat split.
  - subst locale. destruct (String.eqb chosen "en"); auto.
  - subst locale. intros [->| ->]; reflexivity.
  - subst locale. intros Hne. destruct (eqb_cases chosen "en") as [[_ E]|[-> _]];
      [contradiction|reflexivity].
  - unfold HomeHandler. rewrite EL.
    destruct readDir; cbn; rewrite map_app; reflexivity.
  - unfold ContactHandler. rewrite EL. reflexivity.
Qed.

End Locale.

(** *** The language filter of the index *)

Section LanguageFilter.

Variable yaml_Unmarshal :
  string -> PostFrontmatter.t -> PostFrontmatter.t * option error.

Lemma collectPost_Some lang f p :
  collectPost yaml_Unmarshal lang f = Some p ->
  Post.Slug p = Strings.TrimSuffix (Name f) ".md"
  /\ (Strings.HasPrefix (Post.Slug p) "th-" || Strings.HasPrefix (Post.Slug p) "en-" = true ->
      Strings.HasPrefix (Post.Slug p) (lang ++ "-") = true).
Proof.
  unfold collectPost.
  destruct (Strings.HasSuffix (Name f) ".md"); [|discriminate].
  set (slug := Strings.TrimSuffix (Name f) ".md").
  destruct (Strings.HasPrefix slug "th-" || Strings.HasPrefix slug "en-") eqn:Et;
    destruct (Strings.HasPrefix slug (lang ++ "-")) eqn:El; cbn [andb negb];
    try discriminate;
    (destruct (ReadFile f) as [c|e]; [|discriminate]);
    destruct (ParseFrontmatter yaml_Unmarshal c) as [fm body];
    repeat match goal with |- context [let '(_, _) := ?x in _] => destruct x end;
    intros [= <-]; cbn [Post.Slug]; fold slug; rewrite ?Et, ?El; split; auto; discriminate.
Qed.





End LanguageFilter.



(** *** Escaping *)

Lemma escapeByte_plain c : isSpecial c = false -> Template.escapeByte c = String c "".
Proof.
  unfold isSpecial, Template.escapeByte. intros H.
  repeat (apply orb_false_iff in H as [H ?]).
  repeat match goal with E : Ascii.eqb _ _ = false |- _ => rewrite E; clear E end.
  reflexivity.
Qed.

Lemma HTMLEscapeString_plain s : plain s = true -> Template.HTMLEscapeString s = s.
Proof.
  induction s as [|c s IH]; simpl; [reflexivity|].
  intros H. apply andb_true_iff in H as [Hc Hs].
  apply negb_true_iff in Hc. rewrite (escapeByte_plain c Hc), (IH Hs). reflexivity.
Qed.

Lemma plain_app s t : plain (s ++ t) = plain s && plain t.
Proof.
  induction s as [|c s IH]; string_simpl; [reflexivity|].
  rewrite IH, andb_assoc. reflexivity.
Qed.

Lemma digitChar_plain d : (0 <= d < 10)%Z -> isSpecial (Time.digitChar d) = false.
Proof.
  intros H.
  assert (d = 0 \/ d = 1 \/ d = 2 \/ d = 3 \/ d = 4 \/ d = 5 \/ d = 6 \/ d = 7
          \/ d = 8 \/ d = 9)%Z as E by lia.
  repeat (destruct E as [->|E]; [reflexivity|]). subst d. reflexivity.
Qed.

Lemma digits_fuel_plain fuel u acc :
  plain acc = true -> plain (Time.digits_fuel fuel u acc) = true.
Proof.
  revert u acc; induction fuel as [|fuel IH]; intros u acc Hacc; simpl; [exact Hacc|].
  assert (Hd : plain (String (Time.digitChar (u mod 10)) acc) = true).
  { simpl. rewrite digitChar_plain by (apply Z.mod_pos_bound; lia). exact Hacc. }
  destruct (u / 10 =? 0)%Z; [exact Hd|]. apply IH. exact Hd.
Qed.

Lemma zeros_plain n : plain (Time.zeros n) = true.
Proof. induction n as [|n IH]; simpl; [reflexivity|exact IH]. Qed.

Lemma appendInt_plain x width : plain (Time.appendInt x width) = true.
Proof.
  unfold Time.appendInt. rewrite !plain_app, zeros_plain.
  unfold Time.digits. rewrite digits_fuel_plain by reflexivity.
  destruct (x <? 0)%Z; reflexivity.
Qed.

Lemma monthName_plain month : plain (Strings.sliceTo 3 (Time.monthName month)) = true.
Proof.
  unfold Time.monthName. generalize (Z.to_nat (month - 1)) as n. intros n.
  do 12 (destruct n as [|n]; [reflexivity|]). destruct n; reflexivity.
Qed.

(** A formatted date contains nothing the escaper would replace. *)
Lemma Format_plain t : plain (Time.Format_Jan_2_2006 t) = true.
Proof.
  unfold Time.Format_Jan_2_2006.
  destruct (Time.civilFromDays _) as [[year month] day].
  rewrite !plain_app, monthName_plain, !appendInt_plain. reflexivity.
Qed.

Lemma HTMLEscapeString_Format t :
  Template.HTMLEscapeString (Time.Format_Jan_2_2006 t) = Time.Format_Jan_2_2006 t.
Proof. apply HTMLEscapeString_plain, Format_plain. Qed.

Lemma homeContent_escaped lang posts :
  homeContent lang posts
  = homePage_escaped
      (if String.eqb lang "th" then welcomeTitle_th else welcomeTitle_en)
      (if String.eqb lang "th" then welcomeText_th else welcomeText_en)
      (if String.eqb lang "th" then postsHeading_th else postsHeading_en)
      posts.
Proof. unfold homeContent. destruct (String.eqb lang "th"); reflexivity. Qed.

Lemma postHTML_escaped title fm buf :
  postHTML title fm buf = postPage_escaped title (shownDate fm) buf.
Proof.
  unfold postHTML, postPage_escaped, shownDate.
  destruct (String.eqb (PostFrontmatter.Date fm) ""); cbn [negb]; [reflexivity|].
  destruct (Time.Parse_2006_01_02 _) as [t|]; cbn [option_map]; [|reflexivity].
  rewrite HTMLEscapeString_Format. reflexivity.
Qed.

(** *** The escaper against the specification's notion *)

Lemma noMarkup_app s t : noMarkup (s ++ t) = noMarkup s && noMarkup t.
Proof.
  induction s as [|c s IH]; [rewrite string_app_nil; reflexivity|].
  rewrite string_app_cons. cbn [noMarkup]. rewrite IH, andb_assoc. reflexivity.
Qed.

Lemma escapeByte_noMarkup c : noMarkup (Template.escapeByte c) = true.
Proof.
  unfold Template.escapeByte.
  destruct (Ascii.eqb c "000") eqn:E0; [reflexivity|].
  destruct (Ascii.eqb c "034") eqn:E1; [reflexivity|].
  destruct (Ascii.eqb c "'") eqn:E2; [reflexivity|].
  destruct (Ascii.eqb c "&") eqn:E3; [reflexivity|].
  destruct (Ascii.eqb c "<") eqn:E4; [reflexivity|].
  destruct (Ascii.eqb c ">") eqn:E5; [reflexivity|].
  cbn [noMarkup]. unfold isMarkup. rewrite E0, E1, E2, E4, E5. reflexivity.
Qed.

Lemma decodeEntities_escapeByte c t :
  decodeEntities (Template.escapeByte c ++ t)
  = withoutNUL (String c "") ++ decodeEntities t.
Proof.
  unfold Template.escapeByte. cbn [withoutNUL].
  destruct (Ascii.eqb c "000") eqn:E0; [reflexivity|].
  destruct (Ascii.eqb_spec c "034") as [->|N1]; [reflexivity|].
  destruct (Ascii.eqb_spec c "'") as [->|N2]; [reflexivity|].
  destruct (Ascii.eqb c "&") eqn:E3.
  { apply Ascii.eqb_eq in E3. subst c. reflexivity. }
  destruct (Ascii.eqb_spec c "<") as [->|N4]; [reflexivity|].
  destruct (Ascii.eqb_spec c ">") as [->|N5]; [reflexivity|].
  rewrite !string_app_cons, !string_app_nil. cbn [decodeEntities]. rewrite E3. reflexivity.
Qed.

Lemma withoutNUL_cons c s : withoutNUL (String c s) = withoutNUL (String c "") ++ withoutNUL s.
Proof.
  cbn [withoutNUL]. destruct (Ascii.eqb c "000").
  - rewrite string_app_assoc, string_app_nil. reflexivity.
  - rewrite string_app_cons, string_app_nil. reflexivity.
Qed.

(** The escaper of the handlers escapes in the sense of the
    specification. *)
Lemma HTMLEscapeString_htmlEscaped s : htmlEscaped s (Template.HTMLEscapeString s).
Proof.
  split.
  - induction s as [|c s IH]; [reflexivity|].
    cbn [Template.HTMLEscapeString]. rewrite noMarkup_app, escapeByte_noMarkup, IH. reflexivity.
  - induction s as [|c s IH]; [reflexivity|].
    cbn [Template.HTMLEscapeString].
    rewrite decodeEntities_escapeByte, IH, <- withoutNUL_cons. reflexivity.
Qed.

Section Composition.

Variable yaml_Unmarshal :
  string -> PostFrontmatter.t -> PostFrontmatter.t * option error.
Variable goldmark_Convert : string -> Result string.

(** C9. The escaper of the handlers escapes in the sense of the
    specification: the text it returns holds none of the bytes that
    open or close a tag or an attribute value, and a reader of HTML gets
    the original text back from it.  The home page and the post page
    are exactly the pages in which the localized texts, every slug,
    title and date string have gone through that escaper, with only the
    rendered markdown inserted as it is; the contact page is one of the
    two fixed fragments, verbatim. *)
Theorem pages_escape_dynamic_text :
  (forall s : string, htmlEscaped s (Template.HTMLEscapeString s))
  /\ (forall (files : list DirEntry) (w : ResponseWriter) (r : Request),
      let lang := requestLang r in
      Body (HomeHandler yaml_Unmarshal (Ok files) w r)
      = Some (Page (PageData.mk "Home"
                      (homePage_escaped
                         (if String.eqb lang "th" then welcomeTitle_th else welcomeTitle_en)
                         (if String.eqb lang "th" then welcomeText_th else welcomeText_en)
                         (if String.eqb lang "th" then postsHeading_th else postsHeading_en)
                         (postIndex yaml_Unmarshal lang files)))))
  /\ (forall (R : Type) (reader : SlugReader R) (sl sl' : R) (w : ResponseWriter)
        (r : Request) (postMarkdown buf : string),
        let slug := PathValue r "slug" in
        let fm := (ParseFrontmatter yaml_Unmarshal postMarkdown).1 in
        let title :=
          if String.eqb (PostFrontmatter.Title fm) ""
          then toTitleCase (Strings.ReplaceAll slug "-" " ")
          else PostFrontmatter.Title fm in
        IsValidSlug slug = true ->
        Read sl slug = (Ok postMarkdown, sl') ->
        goldmark_Convert (ParseFrontmatter yaml_Unmarshal postMarkdown).2 = Ok buf ->
        Body (PostHandler yaml_Unmarshal goldmark_Convert sl w r).1
        = Some (Page (PageData.mk title (postPage_escaped title (shownDate fm) buf))))
  /\ (forall (w : ResponseWriter) (r : Request),
        Body (ContactHandler w r) = Some (Page (PageData.mk "Contact" contactPage_th))
        \/ Body (ContactHandler w r) = Some (Page (PageData.mk "Contact" contactPage_en))).
Proof.
  split; [exact HTMLEscapeString_htmlEscaped|]. split; [|split].
  - intros files w r lang. unfold HomeHandler. fold lang.
    cbn [renderPage Body]. rewrite homeContent_escaped. reflexivity.
  - intros R reader sl sl' w r postMarkdown buf slug fm title Hv Hr Hc.
    unfold PostHandler. fold slug. rewrite Hv, Hr. cbn [negb].
    subst title fm. destruct (ParseFrontmatter yaml_Unmarshal postMarkdown) as [fm body].
    cbn [fst snd] in *. rewrite Hc. cbn [renderPage Body fst].
    rewrite postHTML_escaped. reflexivity.
  - intros w r. unfold ContactHandler. cbn [renderPage Body].
    destruct (String.eqb (requestLang r) "th"); [left|right]; reflexivity.
Qed.

End Composition.

(** The post of the specification's example, with markup in its title:
    the heading is the escaped title and the date reads "Jan 15, 2026".
    A text with markup comes out of the escaper without any and is read
    back as it was; a file name and a title with markup are escaped in
    the index. *)
Lemma pages_escape_dynamic_text_witness :
  let md := "---" ++ LF ++ "title: Test <Post>" ++ LF ++ "date: 2026-01-15" ++ LF ++ "---"
            ++ LF ++ LF ++ "# Hi" in
  let sl := {| content := {[ "test-post" := md ]} |} in
  Body (PostHandler Yaml.Unmarshal convertVerbatim sl newResponse (postRequest "test-post")).1
  = Some (Page (PageData.mk "Test <Post>"
                  ("<article>" ++ LF ++ "<div class=" ++ q ++ "post-header" ++ q ++ ">" ++ LF
                   ++ "<h1>Test &lt;Post&gt;</h1>" ++ LF
                   ++ "<span class=" ++ q ++ "post-meta" ++ q ++ ">Jan 15, 2026</span>" ++ LF
                   ++ "</div>" ++ LF ++ "# Hi" ++ "</article>")))
  /\ Template.HTMLEscapeString markupText
     = "&lt;a href=&#34;x&#34;&gt;Tom &amp; &#39;Jerry&#39;&lt;/a&gt;"
  /\ noMarkup (Template.HTMLEscapeString markupText) = true
  /\ decodeEntities (Template.HTMLEscapeString markupText) = markupText
  /\ Body (HomeHandler Yaml.Unmarshal
             (Ok [mkDirEntry "a&b.md"
                    (Ok ("---" ++ LF ++ "title: <script>alert(1)</script>" ++ LF ++ "---"))
                    None])
             newResponse (mkRequest ∅ {[ "lang" := ["en"] ]} []))
     = Some (Page (PageData.mk "Home"
                     ("<h1>Welcome to LearnArai</h1>" ++ LF
                      ++ "<p class=" ++ q ++ "about-me" ++ q ++ ">"
                      ++ "Hi!! I&#39;m someone who likes to create and learn new things. This is my personal space where I can share ideas or projects I&#39;m currently working on."
                      ++ "</p>" ++ LF
                      ++ "<h2 class=" ++ q ++ "posts-heading" ++ q ++ ">Posts</h2>" ++ LF
                      ++ "<ul class=" ++ q ++ "post-list" ++ q ++ ">" ++ LF
                      ++ "<li><a href=" ++ q ++ "/posts/a&amp;b" ++ q ++ ">"
                      ++ "&lt;script&gt;alert(1)&lt;/script&gt;</a>"
                      ++ "<span class=" ++ q ++ "post-date" ++ q ++ "></span></li>" ++ LF
                      ++ "</ul>" ++ LF))).
Proof.
  intros md sl.
  destruct (pages_escape_dynamic_text Yaml.Unmarshal convertVerbatim)
    as (Hesc & Hhome & Hpost & _).
  split; [|split; [|split; [|split]]].
  - apply (Hpost MockSlugReader MockSlugReader_Read sl sl newResponse (postRequest "test-post")
             md "# Hi"); vm_compute; reflexivity.
  - vm_compute. reflexivity.
  - apply (Hesc markupText).
  - apply (Hesc markupText).
  - rewrite Hhome. vm_compute. reflexivity.
Defined.

(** *** Order of the index: [sort.Slice] sorts *)

Section SortCorrect.

Context {A : Type} (less : A -> A -> bool) (d : A).
Hypothesis SWO : StrictWeakOrder less.

Local Notation "data @ i" := (nth i data d) (at level 20).

Lemma less_irrefl x : less x x = false.
Proof. apply SWO. Qed.

Lemma less_asym x y : less x y = true -> less y x = false.
Proof.
  intros H. destruct (less y x) eqn:E; [|reflexivity].
  destruct SWO as (Hi & Ht & _). rewrite <- (Hi x). symmetry. eapply Ht; eauto.
Qed.

(** [less y x = false] reads: [x] may stand before [y]. *)
Lemma le_trans x y z : less y x = false -> less z y = false -> less z x = false.
Proof. intros H1 H2. destruct SWO as (_ & _ & Hn). eapply Hn; eauto. Qed.

Lemma less_le_trans x y z : less x y = true -> less z y = false -> less x z = true.
Proof.
  intros H1 H2. destruct (less x z) eqn:E; [reflexivity|].
  (* le z x, le y z -> le y x: less x y = false *)
  rewrite <- H1. symmetry. eapply le_trans; eauto.
Qed.

Lemma le_less_trans x y z : less y x = false -> less y z = true -> less x z = true.
Proof.
  intros H1 H2. destruct (less x z) eqn:E; [reflexivity|].
  rewrite <- H2. symmetry. eapply le_trans; eauto.
Qed.

Lemma Swap_length (data : list A) i j : length (Sort.Swap data i j) = length data.
Proof.
  unfold Sort.Swap. destruct (data !! i), (data !! j); rewrite ?length_insert; reflexivity.
Qed.

Lemma Swap_nth (data : list A) i j k :
  i < length data -> j < length data ->
  (Sort.Swap data i j) @ k
  = if decide (k = j) then data @ i else if decide (k = i) then data @ j else data @ k.
Proof.
  intros Hi Hj. unfold Sort.Swap.
  destruct (lookup_lt_is_Some_2 _ _ Hi) as [x Hx].
  destruct (lookup_lt_is_Some_2 _ _ Hj) as [y Hy].
  rewrite Hx, Hy, !nth_lookup, !list_lookup_insert, !length_insert, Hx, Hy.
  repeat case_decide; try lia; try reflexivity; subst; simpl.
Qed.

Lemma Less_nth (data : list A) i j :
  i < length data -> j < length data ->
  Sort.Less less data i j = less (data @ i) (data @ j).
Proof.
  intros Hi Hj. unfold Sort.Less.
  destruct (lookup_lt_is_Some_2 _ _ Hi) as [x Hx].
  destruct (lookup_lt_is_Some_2 _ _ Hj) as [y Hy].
  rewrite !nth_lookup, Hx, Hy. reflexivity.
Qed.

Lemma sameRange_refl a b l : sameRange d a b l l.
Proof. repeat split; auto. Qed.

Lemma sameRange_trans a b l1 l2 l3 :
  sameRange d a b l1 l2 -> sameRange d a b l2 l3 -> sameRange d a b l1 l3.
Proof.
  intros (L1 & O1 & P1) (L2 & O2 & P2). repeat split.
  - congruence.
  - intros k Hk. rewrite O2, O1; auto.
  - intros P HP. apply P2, P1, HP.
Qed.

Lemma sameRange_mono a b a' b' l l' :
  a' <= a -> b <= b' -> sameRange d a b l l' -> sameRange d a' b' l l'.
Proof.
  intros Ha Hb (L & O & P). repeat split; [exact L|intros; apply O; lia|].
  intros Q HQ k Hk.
  destruct (decide (a <= k < b)) as [Hin|Hout].
  - apply (P Q); [intros; apply HQ; lia|exact Hin].
  - rewrite O by lia. apply HQ, Hk.
Qed.

Lemma sameRange_Swap a b l i j :
  a <= i < b -> a <= j < b -> b <= length l -> sameRange d a b l (Sort.Swap l i j).
Proof.
  intros Hi Hj Hb. repeat split.
  - apply Swap_length.
  - intros k Hk. rewrite Swap_nth by lia. repeat case_decide; try lia; reflexivity.
  - intros P HP k Hk. rewrite Swap_nth by lia. repeat case_decide; apply HP; lia.
Qed.

Lemma sameRange_length a b l l' : sameRange d a b l l' -> length l' = length l.
Proof. intros H; apply H. Qed.

Lemma sameRange_outside a b l l' k :
  sameRange d a b l l' -> k < a \/ b <= k -> l' @ k = l @ k.
Proof. intros (_ & H & _); apply H. Qed.

Lemma sameRange_inside a b l l' (P : A -> Prop) :
  sameRange d a b l l' -> (forall k, a <= k < b -> P (l @ k)) ->
  forall k, a <= k < b -> P (l' @ k).
Proof. intros (_ & _ & H); apply H. Qed.

Lemma boundedBelow_sameRange a b l l' :
  sameRange d a b l l' -> boundedBelow less d l a b -> boundedBelow less d l' a b.
Proof.
  intros H [->|HB]; [left; reflexivity|].
  destruct (decide (a = 0)) as [->|Ha]; [left; reflexivity|right].
  rewrite (sameRange_outside _ _ _ _ _ H) by lia.
  apply (sameRange_inside _ _ _ _ (fun x => less x (l @ (a - 1)) = false) H HB).
Qed.

(** Insertion sort *)

Lemma insertDown_spec a j : forall data i,
  a <= j -> j <= i -> i < length data ->
  sortedOn less d data a j ->
  sortedOn less d data j (S i) ->
  (forall p q, a <= p -> p < j -> j < q -> q <= i -> less (data @ q) (data @ p) = false) ->
  sameRange d a (S i) data (Sort.insertDown less data a j)
  /\ sortedOn less d (Sort.insertDown less data a j) a (S i).
Proof.
  induction j as [|j IH]; intros data i Ha Hji Hi S1 S2 Hc.
  - simpl. split; [apply sameRange_refl|]. assert (a = 0) by lia. subst a. exact S2.
  - cbn [Sort.insertDown].
    destruct ((a <? S j)%nat && Sort.Less less data (S j) j) eqn:E.
    + apply andb_true_iff in E as [Ea El]. apply Nat.ltb_lt in Ea.
      rewrite Less_nth in El by lia.
      set (data' := Sort.Swap data (S j) j).
      assert (Hn : forall k, data' @ k = if decide (k = j) then data @ (S j)
                                         else if decide (k = S j) then data @ j else data @ k).
      { intros k. unfold data'. rewrite Swap_nth by lia. reflexivity. }
      assert (SR : sameRange d a (S i) data data').
      { apply sameRange_Swap; rewrite ?Swap_length; lia. }
      destruct (IH data' i) as [SR' So].
      * lia.
      * lia.
      * unfold data'. rewrite Swap_length. lia.
      * intros p q Hp Hpq Hq. rewrite !Hn. repeat case_decide; try lia. apply S1; lia.
      * intros p q Hp Hpq Hq. rewrite !Hn. repeat case_decide; try lia; subst;
          first [apply less_irrefl | apply less_asym; exact El | apply S2; lia | apply Hc; lia].
      * intros p q Hp Hpj Hjq Hq. rewrite !Hn. repeat case_decide; try lia; subst;
          first [apply S1; lia | apply Hc; lia].
      * split; [eapply sameRange_trans; eauto|exact So].
    + split; [apply sameRange_refl|].
      intros p q Hp Hpq Hq.
      destruct (decide (q < S j)) as [Hq1|Hq1]; [apply S1; lia|].
      destruct (decide (S j <= p)) as [Hp1|Hp1]; [apply S2; lia|].
      destruct (decide (q = S j)) as [->|Hq2]; [|apply Hc; lia].
      (* p <= j < S j = q, and a < S j since a <= p *)
      apply andb_false_iff in E as [E|E]; [apply Nat.ltb_ge in E; lia|].
      rewrite Less_nth in E by lia.
      apply le_trans with (y := data @ j); [|exact E].
      apply S1; lia.
Qed.

Lemma insertionSort_from_spec a b fuel : forall data i,
  a < i -> i <= b -> b <= length data -> b - i <= fuel ->
  sortedOn less d data a i ->
  sameRange d a b data (Sort.insertionSort_from less fuel data a i b)
  /\ sortedOn less d (Sort.insertionSort_from less fuel data a i b) a b.
Proof.
  induction fuel as [|fuel IH]; intros data i Hai Hib Hb Hf S1.
  - simpl. assert (i = b) by lia. subst. split; [apply sameRange_refl|exact S1].
  - cbn [Sort.insertionSort_from]. destruct (i <? b)%nat eqn:E.
    + apply Nat.ltb_lt in E.
      destruct (insertDown_spec a i data i) as [SR So];
        [lia|lia|lia|exact S1| |intros; lia|].
      { intros p q Hp Hpq Hq. assert (p = i) by lia. assert (q = i) by lia. subst.
        apply less_irrefl. }
      destruct (IH (Sort.insertDown less data a i) (S i)) as [SR' So'];
        [lia|lia| |lia|exact So|].
      { rewrite (sameRange_length _ _ _ _ SR). lia. }
      split; [|exact So'].
      eapply sameRange_trans; [|exact SR'].
      eapply sameRange_mono; [| |exact SR]; lia.
    + apply Nat.ltb_ge in E. assert (i = b) by lia. subst.
      split; [apply sameRange_refl|exact S1].
Qed.

Lemma insertionSort_spec data a b :
  a <= b -> b <= length data ->
  sameRange d a b data (Sort.insertionSort less data a b)
  /\ sortedOn less d (Sort.insertionSort less data a b) a b.
Proof.
  intros Hab Hb. unfold Sort.insertionSort.
  destruct (decide (a = b)) as [->|Hne].
  - rewrite Nat.sub_diag. simpl. split; [apply sameRange_refl|]. intros i j; lia.
  - apply insertionSort_from_spec; try lia.
    intros i j Hi Hij Hj. assert (i = a) by lia. assert (j = a) by lia. subst.
    apply less_irrefl.
Qed.


(** The two partition functions *)

Lemma scanUp_spec p j fuel : forall i,
  j + 1 - i <= fuel -> i <= j + 1 ->
  i <= Sort.scanUp fuel p i j /\ Sort.scanUp fuel p i j <= j + 1
  /\ (forall k, i <= k -> k < Sort.scanUp fuel p i j -> p k = true)
  /\ (Sort.scanUp fuel p i j <= j -> p (Sort.scanUp fuel p i j) = false).
Proof.
  induction fuel as [|fuel IH]; intros i Hf Hi; simpl.
  - split; [lia|]. split; [lia|]. split; intros; lia.
  - destruct ((i <=? j)%nat && p i) eqn:E.
    + apply andb_true_iff in E as [E1 E2]. apply Nat.leb_le in E1.
      destruct (IH (S i)) as (H1 & H2 & H3 & H4); [lia|lia|].
      split; [lia|]. split; [lia|]. split; [|exact H4].
      intros k Hk1 Hk2. destruct (decide (k = i)) as [->|]; [exact E2|apply H3; lia].
    + split; [lia|]. split; [lia|]. split; [intros; lia|].
      intros Hij. apply andb_false_iff in E as [E|E]; [apply Nat.leb_gt in E; lia|exact E].
Qed.

Lemma scanDown_spec p i : forall j,
  1 <= i -> i <= j + 1 ->
  Sort.scanDown p i j <= j /\ i <= Sort.scanDown p i j + 1
  /\ (forall k, Sort.scanDown p i j < k -> k <= j -> p k = true)
  /\ (i <= Sort.scanDown p i j -> p (Sort.scanDown p i j) = false).
Proof.
  induction j as [|j IH]; intros H1 Hi; cbn [Sort.scanDown].
  - split; [lia|]. split; [lia|]. split; intros; lia.
  - destruct ((i <=? S j)%nat && p (S j)) eqn:E.
    + apply andb_true_iff in E as [E1 E2]. apply Nat.leb_le in E1.
      destruct IH as (A1 & A2 & A3 & A4); [lia|lia|].
      split; [lia|]. split; [lia|]. split; [|exact A4].
      intros k Hk1 Hk2. destruct (decide (k = S j)) as [->|]; [exact E2|apply A3; lia].
    + split; [lia|]. split; [lia|]. split; [intros; lia|].
      intros Hij. apply andb_false_iff in E as [E|E]; [apply Nat.leb_gt in E; lia|exact E].
Qed.

Section PartitionLoop.

Variables (U : A -> bool) (pv : A) (n a b : nat).
Variables (up down : list A -> nat -> bool).
Hypothesis Hbn : b <= n.
Hypothesis Hup : forall data k, length data = n -> data @ a = pv -> a < k < b ->
  up data k = U (data @ k).
Hypothesis Hdown : forall data k, length data = n -> data @ a = pv -> a < k < b ->
  down data k = negb (U (data @ k)).

Local Abbreviation PInv := (partitionInv d U pv n a b).

Lemma partition_step data i j f :
  PInv data i j -> j + 1 - i <= f ->
  let i1 := Sort.scanUp f (up data) i j in
  let j1 := Sort.scanDown (down data) i1 j in
  i <= i1 /\ j1 <= j /\
  ((j1 < i1 /\ i1 = j1 + 1 /\ PInv data i1 j1)
   \/ (i1 < j1 /\ PInv (Sort.Swap data i1 j1) (S i1) (j1 - 1)
       /\ sameRange d (a + 1) b data (Sort.Swap data i1 j1))).
Proof.
  intros (HL & Ha & Hai & Hij & Hjb & HU1 & HU2) Hf i1 j1.
  destruct (scanUp_spec (up data) j f i Hf Hij) as (U1 & U2 & U3 & U4). fold i1 in U1, U2, U3, U4.
  destruct (scanDown_spec (down data) i1 j) as (D1 & D2 & D3 & D4); [lia|lia|].
  fold j1 in D1, D2, D3, D4.
  split; [exact U1|]. split; [exact D1|].
  assert (HUlow : forall k, a < k < i1 -> U (data @ k) = true).
  { intros k Hk. destruct (decide (k < i)) as [?|?]; [apply HU1; lia|].
    rewrite <- Hup by (auto; lia). apply U3; lia. }
  assert (HUhigh : forall k, j1 < k < b -> U (data @ k) = false).
  { intros k Hk. destruct (decide (j < k)) as [?|?]; [apply HU2; lia|].
    apply negb_true_iff. rewrite <- Hdown by (auto; lia). apply D3; lia. }
  destruct (decide (j1 < i1)) as [Hlt|Hge].
  - left. repeat split; auto; lia.
  - right.
    assert (Hi1 : U (data @ i1) = false).
    { rewrite <- Hup by (auto; lia). apply U4. lia. }
    assert (Hj1 : U (data @ j1) = true).
    { apply negb_false_iff. rewrite <- Hdown by (auto; lia). apply D4. lia. }
    assert (i1 <> j1) by (intros E; rewrite E in Hi1; congruence).
    split; [lia|]. split.
    + unfold partitionInv. rewrite Swap_length.
      repeat split; try lia.
      * rewrite Swap_nth by lia. repeat case_decide; try lia. exact Ha.
      * intros k Hk. rewrite Swap_nth by lia. repeat case_decide; try lia; subst; auto.
        apply HUlow; lia.
      * intros k Hk. rewrite Swap_nth by lia. repeat case_decide; try lia; subst; auto.
        apply HUhigh; lia.
    + apply sameRange_Swap; lia.
Qed.

Lemma partitionLoop_spec fuel : forall data i j,
  PInv data i j -> j + 1 - i <= fuel ->
  sameRange d (a + 1) b data (Sort.partitionLoop fuel up down data i j).1.1
  /\ PInv (Sort.partitionLoop fuel up down data i j).1.1
        (Sort.partitionLoop fuel up down data i j).1.2
        (Sort.partitionLoop fuel up down data i j).2
  /\ (Sort.partitionLoop fuel up down data i j).1.2
     = (Sort.partitionLoop fuel up down data i j).2 + 1.
Proof.
  induction fuel as [|fuel IH]; intros data i j HI Hf.
  - simpl. split; [apply sameRange_refl|]. split; [exact HI|].
    destruct HI as (_ & _ & _ & ? & _). lia.
  - cbn [Sort.partitionLoop].
    assert (Hf' : j + 1 - i <= S j - i) by lia.
    destruct (partition_step data i j (S j - i) HI Hf') as (Hi1 & Hj1 & Hcase).
    set (i1 := Sort.scanUp (S j - i) (up data) i j) in *.
    set (j1 := Sort.scanDown (down data) i1 j) in *.
    destruct Hcase as [(Hlt & He & HI')|(Hlt & HI' & SR)].
    + apply Nat.ltb_lt in Hlt as Hlt'. rewrite Hlt'. simpl.
      split; [apply sameRange_refl|]. split; [exact HI'|exact He].
    + assert (Hge : (j1 <? i1)%nat = false) by (apply Nat.ltb_ge; lia). rewrite Hge.
      destruct (IH _ _ _ HI') as (SR' & HI'' & He); [lia|].
      split; [eapply sameRange_trans; eauto|]. split; assumption.
Qed.

End PartitionLoop.

Lemma partition_spec data a b pivot :
  a <= pivot -> pivot < b -> b <= length data ->
  let r := Sort.partition less data a b pivot in
  let pv := data @ pivot in
  sameRange d a b data r.1.1
  /\ a <= r.1.2 /\ r.1.2 < b
  /\ r.1.1 @ (r.1.2) = pv
  /\ (forall k, a <= k -> k < r.1.2 -> less (r.1.1 @ k) pv = true)
  /\ (forall k, r.1.2 < k -> k < b -> less (r.1.1 @ k) pv = false).
Proof.
  intros Hap Hpb Hb r pv. subst r. unfold Sort.partition. cbv zeta.
  set (data1 := Sort.Swap data a pivot).
  set (up := fun (d0 : list A) (i : nat) => Sort.Less less d0 i a).
  set (down := fun (d0 : list A) (j : nat) => negb (Sort.Less less d0 j a)).
  change (fun i : nat => Sort.Less less data1 i a) with (up data1).
  change (fun j : nat => negb (Sort.Less less data1 j a)) with (down data1).
  set (U := fun x => less x pv).
  set (n := length data).
  assert (Hup : forall dd k, length dd = n -> dd @ a = pv -> a < k < b -> up dd k = U (dd @ k)).
  { intros dd k HL Hv Hk. unfold up, U. rewrite Less_nth by lia. rewrite Hv. reflexivity. }
  assert (Hdown : forall dd k, length dd = n -> dd @ a = pv -> a < k < b ->
                               down dd k = negb (U (dd @ k))).
  { intros dd k HL Hv Hk. unfold down, U. rewrite Less_nth by lia. rewrite Hv. reflexivity. }
  assert (SR1 : sameRange d a b data data1) by (apply sameRange_Swap; lia).
  assert (HI1 : partitionInv d U pv n a b data1 (a + 1) (b - 1)).
  { unfold partitionInv, data1. rewrite Swap_length.
    split; [reflexivity|]. split.
    { rewrite Swap_nth by lia. repeat case_decide; try lia; subst; reflexivity. }
    split; [lia|]. split; [lia|]. split; [lia|]. split; intros; lia. }
  assert (Hf : b - 1 + 1 - (a + 1) <= b - a) by lia.
  destruct (partition_step U pv n a b up down Hb Hup Hdown data1 (a + 1) (b - 1) (b - a) HI1 Hf)
    as (Hi1 & Hj1 & Hcase).
  set (i1 := Sort.scanUp (b - a) (up data1) (a + 1) (b - 1)) in *.
  set (j1 := Sort.scanDown (down data1) i1 (b - 1)) in *.
  assert (Final : forall data3 i3 j3,
             sameRange d a b data data3 -> partitionInv d U pv n a b data3 i3 j3 -> i3 = j3 + 1 ->
             let r := Sort.Swap data3 j3 a in
             sameRange d a b data r /\ a <= j3 /\ j3 < b /\ r @ j3 = pv
             /\ (forall k, a <= k -> k < j3 -> less (r @ k) pv = true)
             /\ (forall k, j3 < k -> k < b -> less (r @ k) pv = false)).
  { intros data3 i3 j3 SR (HL & Ha & Hai & Hij & Hjb & HU1 & HU2) He r0. subst r0.
    split; [eapply sameRange_trans; [exact SR|apply sameRange_Swap; lia]|].
    split; [lia|]. split; [lia|]. split; [|split].
    - rewrite Swap_nth by lia. repeat case_decide; try lia; congruence.
    - intros k Hk1 Hk2. rewrite Swap_nth by lia. repeat case_decide; try lia; subst.
      + apply (HU1 j3). lia.
      + apply (HU1 k). lia.
    - intros k Hk1 Hk2. rewrite Swap_nth by lia. repeat case_decide; try lia.
      apply (HU2 k). lia. }
  destruct Hcase as [(Hlt & He & HI')|(Hlt & HI' & SR)].
  - apply Nat.ltb_lt in Hlt as Hlt'. rewrite Hlt'. cbn [fst snd].
    apply Final with (i3 := i1); auto.
  - assert (Hge : (j1 <? i1)%nat = false) by (apply Nat.ltb_ge; lia). rewrite Hge.
    destruct (partitionLoop_spec U pv n a b up down Hb Hup Hdown (b - a) _ _ _ HI')
      as (SR' & HI'' & He); [lia|].
    destruct (Sort.partitionLoop (b - a) up down (Sort.Swap data1 i1 j1) (S i1) (j1 - 1))
      as [[data3 i3] j3]. cbn [fst snd] in *.
    apply Final with (i3 := i3); auto.
    eapply sameRange_trans; [exact SR1|].
    eapply sameRange_trans; [|eapply sameRange_mono; [| |exact SR']; lia].
    eapply sameRange_mono; [| |exact SR]; lia.
Qed.

Lemma partitionEqual_spec data a b pivot :
  a <= pivot -> pivot < b -> b <= length data ->
  (forall k, a <= k -> k < b -> less (data @ k) (data @ pivot) = false) ->
  let r := Sort.partitionEqual less data a b pivot in
  let pv := data @ pivot in
  sameRange d a b data r.1
  /\ a < r.2 /\ r.2 <= b
  /\ (forall k, a <= k -> k < r.2 -> less pv (r.1 @ k) = false)
  /\ (forall k, r.2 <= k -> k < b -> less pv (r.1 @ k) = true)
  /\ (forall k, a <= k -> k < b -> less (r.1 @ k) pv = false).
Proof.
  intros Hap Hpb Hb Hmin r pv. subst r. unfold Sort.partitionEqual. cbv zeta.
  set (data1 := Sort.Swap data a pivot).
  set (up := fun (d0 : list A) (i : nat) => negb (Sort.Less less d0 a i)).
  set (down := fun (d0 : list A) (j : nat) => Sort.Less less d0 a j).
  set (U := fun x => negb (less pv x)).
  set (n := length data).
  assert (Hup : forall dd k, length dd = n -> dd @ a = pv -> a < k < b -> up dd k = U (dd @ k)).
  { intros dd k HL Hv Hk. unfold up, U. rewrite Less_nth by lia. rewrite Hv. reflexivity. }
  assert (Hdown : forall dd k, length dd = n -> dd @ a = pv -> a < k < b ->
                               down dd k = negb (U (dd @ k))).
  { intros dd k HL Hv Hk. unfold down, U. rewrite Less_nth by lia. rewrite Hv, negb_involutive.
    reflexivity. }
  assert (SR1 : sameRange d a b data data1) by (apply sameRange_Swap; lia).
  assert (HI1 : partitionInv d U pv n a b data1 (a + 1) (b - 1)).
  { unfold partitionInv, data1. rewrite Swap_length.
    split; [reflexivity|]. split.
    { rewrite Swap_nth by lia. repeat case_decide; try lia; subst; reflexivity. }
    split; [lia|]. split; [lia|]. split; [lia|]. split; intros; lia. }
  destruct (partitionLoop_spec U pv n a b up down Hb Hup Hdown (S (b - a)) _ _ _ HI1)
    as (SR' & HI'' & He); [lia|].
  destruct (Sort.partitionLoop (S (b - a)) up down data1 (a + 1) (b - 1))
    as [[data3 i3] j3]. cbn [fst snd] in *.
  destruct HI'' as (HL & Ha & Hai & Hij & Hjb & HU1 & HU2).
  assert (SR : sameRange d a b data data3).
  { eapply sameRange_trans; [exact SR1|]. eapply sameRange_mono; [| |exact SR']; lia. }
  split; [exact SR|]. split; [lia|]. split; [lia|]. split; [|split].
  - intros k Hk1 Hk2. destruct (decide (k = a)) as [->|Hne].
    + rewrite Ha. apply less_irrefl.
    + apply negb_true_iff. apply (HU1 k). lia.
  - intros k Hk1 Hk2. apply negb_false_iff. apply (HU2 k). lia.
  - intros k Hk1 Hk2.
    apply (sameRange_inside _ _ _ _ (fun x => less x pv = false) SR); [|lia].
    intros k' Hk'. apply Hmin; lia.
Qed.


(** Heap sort *)

Section Heap.

Variables (first hi lo : nat).

Local Abbreviation heapExcept := (heapExceptAt less d first hi lo).
Local Abbreviation heapGrand := (heapGrandAt less d first hi lo).
Local Abbreviation heapFrom := (heapFromAt less d first hi lo).

Lemma siftDown_spec fuel : forall data root,
  first + hi <= length data -> lo <= root -> hi <= fuel + root ->
  heapExcept data root -> heapGrand data root ->
  sameRange d (first + lo) (first + hi) data (Sort.siftDown less fuel data root hi first)
  /\ heapFrom (Sort.siftDown less fuel data root hi first).
Proof.
  induction fuel as [|fuel IH]; intros data root Hlen Hlo Hf HE HG.
  - simpl. split; [apply sameRange_refl|].
    intros p c Hp Hc Hch. apply HE; auto. unfold child in Hc. lia.
  - cbn [Sort.siftDown]. cbv zeta.
    destruct (hi <=? 2 * root + 1)%nat eqn:E1.
    { apply Nat.leb_le in E1. split; [apply sameRange_refl|].
      intros p c Hp Hc Hch. apply HE; auto. unfold child in Hc. lia. }
    apply Nat.leb_gt in E1.
    set (c1 := 2 * root + 1) in *.
    set (cs := if ((c1 + 1 <? hi)%nat && Sort.Less less data (first + c1) (first + c1 + 1))
               then c1 + 1 else c1).
    assert (Hcs : (cs = c1 \/ cs = c1 + 1) /\ cs < hi
                  /\ forall c, child root c -> c < hi ->
                      less (data @ (first + cs)) (data @ (first + c)) = false).
    { subst cs. destruct ((c1 + 1 <? hi)%nat && _) eqn:E2.
      - apply andb_true_iff in E2 as [E2 E3]. apply Nat.ltb_lt in E2.
        rewrite Less_nth in E3 by lia.
        split; [right; reflexivity|]. split; [lia|].
        intros c [Hc|Hc] Hch.
        + replace (first + c) with (first + c1) by (subst c1; lia).
          replace (first + (c1 + 1)) with (first + c1 + 1) by lia.
          apply less_asym. exact E3.
        + replace c with (c1 + 1) by (subst c1; lia). apply less_irrefl.
      - split; [left; reflexivity|]. split; [lia|].
        intros c [Hc|Hc] Hch.
        + replace c with c1 by (subst c1; lia). apply less_irrefl.
        + apply andb_false_iff in E2 as [E2|E2]; [apply Nat.ltb_ge in E2; subst c1; lia|].
          rewrite Less_nth in E2 by (subst c1; lia).
          replace (first + c) with (first + c1 + 1) by (subst c1; lia). exact E2. }
    destruct Hcs as (Hcs1 & Hcs2 & Hmax).
    destruct (negb (Sort.Less less data (first + root) (first + cs))) eqn:E4.
    + apply negb_true_iff in E4. rewrite Less_nth in E4 by (subst c1; lia).
      split; [apply sameRange_refl|].
      intros p c Hp Hc Hch. destruct (decide (p = root)) as [->|Hne]; [|apply HE; auto].
      eapply le_trans; [apply (Hmax c Hc Hch)|exact E4].
    + apply negb_false_iff in E4. rewrite Less_nth in E4 by (subst c1; lia).
      set (data' := Sort.Swap data (first + root) (first + cs)).
      assert (Hn : forall k, data' @ (first + k)
                             = if decide (k = cs) then data @ (first + root)
                               else if decide (k = root) then data @ (first + cs)
                               else data @ (first + k)).
      { intros k. unfold data'. rewrite Swap_nth by (subst c1; lia).
        repeat case_decide; try lia; reflexivity. }
      destruct (IH data' cs) as [SR HF].
      * unfold data'. rewrite Swap_length. exact Hlen.
      * subst c1. lia.
      * subst c1. lia.
      * intros p c Hp Hpc Hc Hch. rewrite !Hn.
        unfold child in *. subst c1.
        repeat case_decide; try lia; subst.
        -- apply less_asym. exact E4.
        -- apply Hmax; auto.
        -- apply (HG p cs); auto; unfold child; lia.
        -- apply HE; auto.
      * intros pp c Hpp Hc1 Hc2 Hch. rewrite !Hn.
        unfold child in *. subst c1.
        repeat case_decide; try lia; subst.
        apply HE; auto; unfold child; lia.
      * split; [|exact HF].
        eapply sameRange_trans; [|exact SR].
        apply sameRange_Swap; subst c1; lia.
Qed.

End Heap.

Lemma heapFrom_root_max first hi data :
  heapFromAt less d first hi 0 data ->
  forall k, k < hi -> less (data @ first) (data @ (first + k)) = false.
Proof.
  intros HF k. induction k as [k IH] using lt_wf_ind. intros Hk.
  destruct (decide (k = 0)) as [->|Hne].
  - rewrite Nat.add_0_r. apply less_irrefl.
  - set (p := (k - 1) / 2).
    assert (Hpk : child p k).
    { unfold child, p. pose proof (Nat.div_mod_eq (k - 1) 2).
      pose proof (Nat.mod_upper_bound (k - 1) 2). lia. }
    assert (p < k) by (unfold child in Hpk; lia).
    eapply le_trans; [apply (HF p k); [lia|exact Hpk|exact Hk]|].
    apply IH; lia.
Qed.

Lemma buildHeap_spec first hi i : forall data,
  first + hi <= length data ->
  heapFromAt less d first hi (S i) data ->
  sameRange d first (first + hi) data (Sort.buildHeap less i data hi first)
  /\ heapFromAt less d first hi 0 (Sort.buildHeap less i data hi first).
Proof.
  induction i as [|i IH]; intros data Hlen HF; cbn [Sort.buildHeap]; cbv zeta.
  - destruct (siftDown_spec first hi 0 hi data 0) as [SR HF']; [lia|lia|lia| | |].
    + intros p c Hp Hne Hc Hch. apply HF; auto; lia.
    + intros pp c Hpp Hc. unfold child in Hc. lia.
    + rewrite Nat.add_0_r in SR. split; assumption.
  - destruct (siftDown_spec first hi (S i) hi data (S i)) as [SR HF']; [lia|lia|lia| | |].
    + intros p c Hp Hne Hc Hch. apply HF; auto; lia.
    + intros pp c Hpp Hc. unfold child in Hc. lia.
    + destruct (IH (Sort.siftDown less hi data (S i) hi first)) as [SR2 HF2].
      * rewrite (sameRange_length _ _ _ _ SR). exact Hlen.
      * exact HF'.
      * split; [|exact HF2].
        eapply sameRange_trans; [|exact SR2].
        eapply sameRange_mono; [| |exact SR]; lia.
Qed.

Lemma popHeap_spec first total n : forall data,
  n <= total -> first + total <= length data ->
  heapFromAt less d first n 0 data ->
  sortedOn less d data (first + n) (first + total) ->
  (forall k m, k < n -> n <= m -> m < total ->
     less (data @ (first + m)) (data @ (first + k)) = false) ->
  sameRange d first (first + total) data (Sort.popHeap less n data first)
  /\ sortedOn less d (Sort.popHeap less n data first) first (first + total).
Proof.
  induction n as [|i IH]; intros data Hn Hlen HF HS HC; cbn [Sort.popHeap].
  - split; [apply sameRange_refl|]. rewrite Nat.add_0_r in HS. exact HS.
  - set (data1 := Sort.Swap data first (first + i)).
    assert (Hn1 : forall k, data1 @ (first + k)
                            = if decide (k = i) then data @ first
                              else if decide (k = 0) then data @ (first + i)
                              else data @ (first + k)).
    { intros k. unfold data1. rewrite Swap_nth by lia.
      repeat case_decide; try lia; try reflexivity;
        try (replace (first + k) with first by lia; reflexivity). }
    assert (SR1 : sameRange d first (first + S i) data data1).
    { apply sameRange_Swap; lia. }
    pose proof (heapFrom_root_max first (S i) data HF) as Hmax.
    destruct (siftDown_spec first i 0 i data1 0) as [SR2 HF2].
    + unfold data1. rewrite Swap_length. lia.
    + lia.
    + lia.
    + intros p c Hp Hne Hc Hch. rewrite !Hn1. unfold child in Hc.
      repeat case_decide; try lia. apply HF; auto; lia.
    + intros pp c Hpp Hc. unfold child in Hc. lia.
    + rewrite Nat.add_0_r in SR2.
      set (data2 := Sort.siftDown less i data1 0 i first) in *.
      assert (Hhigh : forall m, i <= m -> m < total ->
                data2 @ (first + m) = if decide (m = i) then data @ first else data @ (first + m)).
      { intros m Hm1 Hm2. rewrite (sameRange_outside _ _ _ _ _ SR2) by lia.
        rewrite Hn1. repeat case_decide; try lia; reflexivity. }
      assert (Hlow : forall k, k < i ->
                (forall m, i < m -> m < total ->
                   less (data @ (first + m)) (data2 @ (first + k)) = false)
                /\ less (data @ first) (data2 @ (first + k)) = false).
      { intros k Hk.
        assert (Hall : forall k', first <= k' < first + i ->
                  (fun x => (forall m, i < m -> m < total ->
                              less (data @ (first + m)) x = false)
                            /\ less (data @ first) x = false) (data1 @ k')).
        { intros k' Hk'. replace k' with (first + (k' - first)) by lia.
          rewrite Hn1. repeat case_decide; try lia.
          - split; [intros m Hm1 Hm2; apply HC; lia|]. apply Hmax. lia.
          - split; [intros m Hm1 Hm2; apply HC; lia|]. apply Hmax. lia. }
        apply (sameRange_inside _ _ _ _ _ SR2 Hall). lia. }
      destruct (IH data2) as [SR3 HS3].
      * lia.
      * rewrite (sameRange_length _ _ _ _ SR2).
        unfold data1. rewrite Swap_length. exact Hlen.
      * exact HF2.
      * intros p q Hp Hpq Hq.
        replace p with (first + (p - first)) by lia.
        replace q with (first + (q - first)) by lia.
        rewrite !Hhigh by lia.
        assert (HC0 : forall m, S i <= m -> m < total ->
                        less (data @ (first + m)) (data @ first) = false).
        { intros m Hm1 Hm2. specialize (HC 0 m). rewrite Nat.add_0_r in HC. apply HC; lia. }
        repeat case_decide; try lia;
          first [apply less_irrefl | apply HC0; lia | apply HS; lia].
      * intros k m Hk Hm1 Hm2. rewrite Hhigh by lia. case_decide.
        -- apply (Hlow k Hk).
        -- apply (Hlow k Hk); lia.
      * split; [|exact HS3].
        eapply sameRange_trans; [|exact SR3].
        eapply sameRange_trans.
        -- eapply sameRange_mono; [| |exact SR1]; lia.
        -- eapply sameRange_mono; [| |exact SR2]; lia.
Qed.

Lemma heapSort_spec data a b :
  a <= b -> b <= length data ->
  sameRange d a b data (Sort.heapSort less data a b)
  /\ sortedOn less d (Sort.heapSort less data a b) a b.
Proof.
  intros Hab Hb. unfold Sort.heapSort. cbv zeta.
  set (hi := b - a).
  destruct (buildHeap_spec a hi ((hi - 1) / 2) data) as [SR1 HF1].
  - lia.
  - intros p c Hp Hc Hch. unfold child in Hc.
    pose proof (Nat.div_mod_eq (hi - 1) 2). pose proof (Nat.mod_upper_bound (hi - 1) 2). lia.
  - destruct (popHeap_spec a hi hi (Sort.buildHeap less ((hi - 1) / 2) data hi a))
      as [SR2 HS2].
    + lia.
    + rewrite (sameRange_length _ _ _ _ SR1). lia.
    + exact HF1.
    + intros p q; lia.
    + intros; lia.
    + replace (a + hi) with b in * by lia.
      split; [eapply sameRange_trans; eauto|exact HS2].
Qed.


(** Pivot choice, reversal and pattern breaking stay inside the range *)

Lemma order2_cases data x y s :
  ((Sort.order2 less data x y s).1.1 = x /\ (Sort.order2 less data x y s).1.2 = y)
  \/ ((Sort.order2 less data x y s).1.1 = y /\ (Sort.order2 less data x y s).1.2 = x).
Proof. unfold Sort.order2. destruct (Sort.Less less data y x); simpl; auto. Qed.

Lemma median_cases data x y z s :
  (Sort.median less data x y z s).1 = x \/ (Sort.median less data x y z s).1 = y
  \/ (Sort.median less data x y z s).1 = z.
Proof.
  unfold Sort.median.
  pose proof (order2_cases data x y s) as H1.
  destruct (Sort.order2 less data x y s) as [[x1 y1] s1]; simpl in H1.
  pose proof (order2_cases data y1 z s1) as H2.
  destruct (Sort.order2 less data y1 z s1) as [[y2 z2] s2]; simpl in H2.
  pose proof (order2_cases data x1 y2 s2) as H3.
  destruct (Sort.order2 less data x1 y2 s2) as [[x3 y3] s3]; simpl in H3.
  simpl. intuition congruence.
Qed.

Lemma choosePivot_range data a b :
  8 <= b - a -> a <= (Sort.choosePivot less data a b).1 /\ (Sort.choosePivot less data a b).1 < b.
Proof.
  intros Hl. unfold Sort.choosePivot. cbv zeta.
  assert (E8 : (8 <=? b - a)%nat = true) by (apply Nat.leb_le; lia). rewrite E8.
  pose proof (Nat.div_mod_eq (b - a) 4) as Hdiv.
  pose proof (Nat.mod_upper_bound (b - a) 4) as Hmod.
  set (q4 := (b - a) / 4) in *.
  assert (Hq : 2 <= q4) by lia.
  assert (Hres : forall (r : nat * nat), a <= r.1 < b ->
            a <= (let '(j, swaps) := r in
                  match swaps with
                  | 0 => (j, Sort.increasingHint)
                  | 12 => (j, Sort.decreasingHint)
                  | _ => (j, Sort.unknownHint)
                  end).1 < b).
  { intros [j sw] Hj. simpl in Hj.
    do 13 (destruct sw as [|sw]; [simpl; lia|]). simpl. lia. }
  destruct (50 <=? b - a)%nat.
  - pose proof (median_cases data (a + q4 * 1 - 1) (a + q4 * 1) (a + q4 * 1 + 1) 0) as M1.
    unfold Sort.medianAdjacent.
    destruct (Sort.median less data (a + q4 * 1 - 1) (a + q4 * 1) (a + q4 * 1 + 1) 0)
      as [i1 s1]; simpl in M1.
    pose proof (median_cases data (a + q4 * 2 - 1) (a + q4 * 2) (a + q4 * 2 + 1) s1) as M2.
    destruct (Sort.median less data (a + q4 * 2 - 1) (a + q4 * 2) (a + q4 * 2 + 1) s1)
      as [j1 s2]; simpl in M2.
    pose proof (median_cases data (a + q4 * 3 - 1) (a + q4 * 3) (a + q4 * 3 + 1) s2) as M3.
    destruct (Sort.median less data (a + q4 * 3 - 1) (a + q4 * 3) (a + q4 * 3 + 1) s2)
      as [k1 s3]; simpl in M3.
    pose proof (median_cases data i1 j1 k1 s3) as M4.
    apply Hres. lia.
  - pose proof (median_cases data (a + q4 * 1) (a + q4 * 2) (a + q4 * 3) 0) as M4.
    apply Hres. lia.
Qed.

Lemma reverseRange_from_spec a b fuel : forall data i j,
  a <= i -> j < b -> b <= length data ->
  sameRange d a b data (Sort.reverseRange_from fuel data i j).
Proof.
  induction fuel as [|fuel IH]; intros data i j Hi Hj Hb; simpl; [apply sameRange_refl|].
  destruct (i <? j)%nat eqn:E; [|apply sameRange_refl].
  apply Nat.ltb_lt in E.
  eapply sameRange_trans; [apply (sameRange_Swap a b data i j); lia|].
  apply IH; rewrite ?Swap_length; lia.
Qed.

Lemma reverseRange_spec data a b :
  a < b -> b <= length data -> sameRange d a b data (Sort.reverseRange data a b).
Proof. intros. apply reverseRange_from_spec; lia. Qed.

Lemma nextPowerOfTwo_bound length :
  0 < length -> (0 < Sort.nextPowerOfTwo length <= 2 * Z.of_nat length)%Z.
Proof.
  intros Hl. unfold Sort.nextPowerOfTwo, Sort.bitsLen.
  destruct (length =? 0)%nat eqn:E; [apply Nat.eqb_eq in E; lia|].
  rewrite Z.shiftl_1_l.
  assert (H0 : (0 < Z.of_nat length)%Z) by lia.
  pose proof (Z.log2_spec _ H0) as [H1 H2].
  pose proof (Z.log2_nonneg (Z.of_nat length)).
  rewrite Z2Nat.id by lia.
  rewrite Z.pow_add_r by lia. change (2 ^ 1)%Z with 2%Z. lia.
Qed.

Lemma breakPatterns_other length random :
  0 < length ->
  let other := Z.to_nat (Z.land random (Sort.nextPowerOfTwo length - 1)) in
  (if (length <=? other)%nat then other - length else other) < length.
Proof.
  intros Hl other.
  pose proof (nextPowerOfTwo_bound length Hl) as [Hp1 Hp2].
  assert (Hm : (0 <= Z.land random (Sort.nextPowerOfTwo length - 1)
                < Sort.nextPowerOfTwo length)%Z).
  { unfold Sort.nextPowerOfTwo in *. rewrite Z.shiftl_1_l in *.
    rewrite Z.sub_1_r, <- Z.ones_equiv, Z.land_ones by lia.
    apply Z.mod_pos_bound. exact Hp1. }
  destruct (length <=? other)%nat eqn:E.
  - apply Nat.leb_le in E. subst other. lia.
  - apply Nat.leb_gt in E. exact E.
Qed.

Lemma breakPatterns_from_spec a b n : forall data i random,
  8 <= b - a -> b <= length data -> i + n <= 3 ->
  sameRange d a b data
    (Sort.breakPatterns_from n data a (b - a) (a + (b - a) / 4 * 2 - 1) i random).
Proof.
  induction n as [|n IH]; intros data i random Hl Hb Hi; cbn [Sort.breakPatterns_from];
    [apply sameRange_refl|].
  cbv zeta.
  pose proof (Nat.div_mod_eq (b - a) 4) as Hdiv.
  pose proof (Nat.mod_upper_bound (b - a) 4) as Hmod.
  pose proof (breakPatterns_other (b - a) (Sort.xorshiftNext random)) as Ho.
  cbv zeta in Ho.
  set (other := if (b - a <=? _)%nat then _ else _) in *.
  eapply sameRange_trans.
  - apply (sameRange_Swap a b data (a + (b - a) / 4 * 2 - 1 - 1 + i) (a + other)); lia.
  - apply IH; rewrite ?Swap_length; lia.
Qed.

Lemma breakPatterns_spec data a b :
  b <= length data -> sameRange d a b data (Sort.breakPatterns data a b).
Proof.
  intros Hb. unfold Sort.breakPatterns. cbv zeta.
  destruct (8 <=? b - a)%nat eqn:E; [|apply sameRange_refl].
  apply Nat.leb_le in E. apply breakPatterns_from_spec; lia.
Qed.

(** Partial insertion sort *)

Lemma shiftLeft_spec a j : forall data i,
  a <= j -> j <= i -> i < length data ->
  (a = 0 \/ forall k, a <= k -> k <= i -> less (data @ k) (data @ (a - 1)) = false) ->
  sortedOn less d data a j ->
  sortedOn less d data j (S i) ->
  (forall p q, a <= p -> p < j -> j < q -> q <= i -> less (data @ q) (data @ p) = false) ->
  sameRange d a (S i) data (Sort.shiftLeft less data j)
  /\ sortedOn less d (Sort.shiftLeft less data j) a (S i).
Proof.
  induction j as [|j IH]; intros data i Ha Hji Hi HB S1 S2 Hc.
  - simpl. split; [apply sameRange_refl|]. assert (a = 0) by lia. subst a. exact S2.
  - cbn [Sort.shiftLeft].
    destruct (negb (Sort.Less less data (S j) j)) eqn:E.
    + apply negb_true_iff in E. rewrite Less_nth in E by lia.
      split; [apply sameRange_refl|].
      intros p q Hp Hpq Hq.
      destruct (decide (q < S j)) as [Hq1|Hq1]; [apply S1; lia|].
      destruct (decide (S j <= p)) as [Hp1|Hp1]; [apply S2; lia|].
      destruct (decide (q = S j)) as [->|Hq2]; [|apply Hc; lia].
      apply le_trans with (y := data @ j); [|exact E].
      apply S1; lia.
    + apply negb_false_iff in E. rewrite Less_nth in E by lia.
      assert (Haj : a <= j).
      { destruct (decide (a = S j)) as [->|]; [|lia].
        destruct HB as [HB|HB]; [lia|].
        specialize (HB (S j)). replace (S j - 1) with j in HB by lia.
        rewrite HB in E by lia. discriminate. }
      set (data' := Sort.Swap data (S j) j).
      assert (Hn : forall k, data' @ k = if decide (k = j) then data @ (S j)
                                         else if decide (k = S j) then data @ j else data @ k).
      { intros k. unfold data'. rewrite Swap_nth by lia. reflexivity. }
      assert (SR : sameRange d a (S i) data data').
      { apply sameRange_Swap; lia. }
      destruct (IH data' i) as [SR' So].
      * lia.
      * lia.
      * unfold data'. rewrite Swap_length. lia.
      * destruct HB as [HB|HB]; [left; exact HB|].
        destruct (decide (a = 0)) as [?|Hne]; [left; assumption|right].
        intros k Hk1 Hk2. rewrite !Hn. repeat case_decide; try lia; apply HB; lia.
      * intros p q Hp Hpq Hq. rewrite !Hn. repeat case_decide; try lia. apply S1; lia.
      * intros p q Hp Hpq Hq. rewrite !Hn. repeat case_decide; try lia; subst;
          first [apply less_irrefl | apply less_asym; exact E | apply S2; lia | apply Hc; lia].
      * intros p q Hp Hpj Hjq Hq. rewrite !Hn. repeat case_decide; try lia; subst;
          first [apply S1; lia | apply Hc; lia].
      * split; [eapply sameRange_trans; eauto|exact So].
Qed.

Lemma shiftRight_spec i b fuel : forall data j,
  i < j -> b <= length data ->
  sameRange d i b data (Sort.shiftRight less fuel data j b).
Proof.
  induction fuel as [|fuel IH]; intros data j Hj Hb; simpl; [apply sameRange_refl|].
  destruct (j <? b)%nat eqn:E; [|apply sameRange_refl].
  apply Nat.ltb_lt in E.
  destruct (negb _); [apply sameRange_refl|].
  eapply sameRange_trans; [apply (sameRange_Swap i b data j (j - 1)); lia|].
  apply IH; rewrite ?Swap_length; lia.
Qed.

Lemma sortedOn_extend data a i i' :
  a < i -> i <= i' ->
  sortedOn less d data a i ->
  (forall k, i <= k -> k < i' -> less (data @ k) (data @ (k - 1)) = false) ->
  sortedOn less d data a i'.
Proof.
  intros Hai Hii S1 Hadj. induction i' as [|i' IH]; [lia|].
  destruct (decide (i = S i')) as [<-|Hne]; [exact S1|].
  assert (S' : sortedOn less d data a i') by (apply IH; [lia|intros; apply Hadj; lia]).
  intros p q Hp Hpq Hq.
  destruct (decide (q < i')) as [?|?]; [apply S'; lia|].
  assert (q = i') by lia. subst q.
  destruct (decide (p = i')) as [->|?]; [apply less_irrefl|].
  apply le_trans with (y := data @ (i' - 1)).
  - apply S'; lia.
  - apply Hadj; lia.
Qed.

Lemma sortedOn_sameRange_below data data' a i lo hi :
  sameRange d lo hi data data' -> i <= lo ->
  sortedOn less d data a i -> sortedOn less d data' a i.
Proof.
  intros SR Hi S1 p q Hp Hpq Hq.
  rewrite !(sameRange_outside _ _ _ _ _ SR) by lia. apply S1; lia.
Qed.

Lemma partialInsertionSort_from_spec a b steps : forall data i,
  a < i -> i <= b -> b <= length data ->
  boundedBelow less d data a b ->
  sortedOn less d data a i ->
  sameRange d a b data (Sort.partialInsertionSort_from less steps data a i b).1
  /\ ((Sort.partialInsertionSort_from less steps data a i b).2 = true ->
      sortedOn less d (Sort.partialInsertionSort_from less steps data a i b).1 a b).
Proof.
  induction steps as [|steps IH]; intros data i Hai Hib Hb HB S1.
  - simpl. split; [apply sameRange_refl|discriminate].
  - cbn [Sort.partialInsertionSort_from]. cbv zeta.
    set (p := fun i0 : nat => negb (Sort.Less less data i0 (i0 - 1))).
    destruct (scanUp_spec p (b - 1) (b - i) i) as (U1 & U2 & U3 & U4); [lia|lia|].
    set (i' := Sort.scanUp (b - i) p i (b - 1)) in *.
    assert (S' : sortedOn less d data a i').
    { apply (sortedOn_extend data a i i'); [lia|lia|exact S1|].
      intros k Hk1 Hk2. specialize (U3 k Hk1 Hk2). unfold p in U3.
      apply negb_true_iff in U3. rewrite Less_nth in U3 by lia. exact U3. }
    destruct (i' =? b)%nat eqn:E1.
    { apply Nat.eqb_eq in E1. simpl. split; [apply sameRange_refl|].
      intros _. rewrite <- E1. exact S'. }
    apply Nat.eqb_neq in E1.
    destruct (b - a <? 50)%nat eqn:E2.
    { simpl. split; [apply sameRange_refl|discriminate]. }
    assert (Hlt : less (data @ i') (data @ (i' - 1)) = true).
    { specialize (U4 ltac:(lia)). unfold p in U4. apply negb_false_iff in U4.
      rewrite Less_nth in U4 by lia. exact U4. }
    set (data1 := Sort.Swap data i' (i' - 1)).
    assert (Hn1 : forall k, data1 @ k = if decide (k = i' - 1) then data @ i'
                                        else if decide (k = i') then data @ (i' - 1)
                                        else data @ k).
    { intros k. unfold data1. rewrite Swap_nth by lia. reflexivity. }
    assert (SR1 : sameRange d a b data data1) by (apply sameRange_Swap; lia).
    assert (L1 : length data1 = length data) by (apply Swap_length).
    set (data2 := if (2 <=? i' - a)%nat then Sort.shiftLeft less data1 (i' - 1) else data1).
    assert (H2 : sameRange d a b data1 data2 /\ sortedOn less d data2 a i').
    { subst data2. destruct (2 <=? i' - a)%nat eqn:E3.
      - apply Nat.leb_le in E3.
        destruct (shiftLeft_spec a (i' - 1) data1 (i' - 1)) as [SRl Sl]; try lia.
        + pose proof (boundedBelow_sameRange _ _ _ _ SR1 HB) as [HB1|HB1]; [left; exact HB1|].
          right. intros k Hk1 Hk2. apply HB1. lia.
        + intros p0 q0 Hp Hpq Hq. rewrite !Hn1. repeat case_decide; try lia. apply S'.
          all: lia.
        + intros p0 q0 Hp Hpq Hq. assert (p0 = q0) by lia. subst. apply less_irrefl.
        + replace (S (i' - 1)) with i' in * by lia.
          split; [|exact Sl]. eapply sameRange_mono; [| |exact SRl]; lia.
      - apply Nat.leb_gt in E3. split; [apply sameRange_refl|].
        intros p0 q0 Hp Hpq Hq. assert (p0 = q0) by lia. subst. apply less_irrefl. }
    destruct H2 as [SR2 S2].
    set (data3 := if (2 <=? b - i')%nat then Sort.shiftRight less (b - i') data2 (i' + 1) b
                  else data2).
    assert (H3 : sameRange d i' b data2 data3).
    { subst data3. destruct (2 <=? b - i')%nat; [|apply sameRange_refl].
      apply shiftRight_spec; [lia|].
      rewrite (sameRange_length _ _ _ _ SR2), L1. exact Hb. }
    assert (SR3 : sameRange d a b data data3).
    { eapply sameRange_trans; [exact SR1|]. eapply sameRange_trans; [exact SR2|].
      eapply sameRange_mono; [| |exact H3]; lia. }
    destruct (IH data3 i') as [SR4 S4].
    + lia.
    + lia.
    + rewrite (sameRange_length _ _ _ _ SR3). exact Hb.
    + apply (boundedBelow_sameRange _ _ _ _ SR3 HB).
    + apply (sortedOn_sameRange_below data2 data3 a i' i' b H3); [lia|exact S2].
    + split; [eapply sameRange_trans; eauto|exact S4].
Qed.

Lemma partialInsertionSort_spec data a b :
  a < b -> b <= length data -> boundedBelow less d data a b ->
  sameRange d a b data (Sort.partialInsertionSort less data a b).1
  /\ ((Sort.partialInsertionSort less data a b).2 = true ->
      sortedOn less d (Sort.partialInsertionSort less data a b).1 a b).
Proof.
  intros Hab Hb HB. unfold Sort.partialInsertionSort.
  apply partialInsertionSort_from_spec; try lia; auto.
  intros p q Hp Hpq Hq. assert (p = q) by lia. subst. apply less_irrefl.
Qed.


(** The main loop *)

Lemma sortedOn_around_pivot r a b mid pv :
  a <= mid -> mid < b ->
  r @ mid = pv ->
  (forall k, a <= k -> k < mid -> less (r @ k) pv = true) ->
  (forall k, mid < k -> k < b -> less (r @ k) pv = false) ->
  sortedOn less d r a mid ->
  sortedOn less d r (mid + 1) b ->
  sortedOn less d r a b.
Proof.
  intros Ham Hmb Hpv HL HR SL SRt p q Hp Hpq Hq.
  destruct (decide (q < mid)) as [?|?]; [apply SL; lia|].
  destruct (decide (mid < p)) as [?|?]; [apply SRt; lia|].
  destruct (decide (p = mid)) as [->|?].
  - destruct (decide (q = mid)) as [->|?]; [apply less_irrefl|].
    rewrite Hpv. apply HR; lia.
  - destruct (decide (q = mid)) as [->|?].
    + rewrite Hpv. apply less_asym. apply HL; lia.
    + destruct (less (r @ q) (r @ p)) eqn:E; [|reflexivity].
      destruct SWO as (_ & Ht & _).
      rewrite <- (HR q) by lia. symmetry. apply (Ht _ (r @ p)); [exact E|apply HL; lia].
Qed.

Lemma boundedBelow_mono data a b b' :
  b' <= b -> boundedBelow less d data a b -> boundedBelow less d data a b'.
Proof. intros Hb [H|H]; [left; exact H|right; intros k Hk; apply H; lia]. Qed.

Lemma pdqsort_loop_spec fuel : forall data a b limit wb wp,
  b - a < fuel -> a <= b -> b <= length data ->
  boundedBelow less d data a b ->
  sameRange d a b data (Sort.pdqsort_loop less fuel data a b limit wb wp)
  /\ sortedOn less d (Sort.pdqsort_loop less fuel data a b limit wb wp) a b.
Proof.
  induction fuel as [|fuel IH]; intros data a b limit wb wp Hf Hab Hb HB; [lia|].
  cbn [Sort.pdqsort_loop]. cbv zeta.
  destruct (b - a <=? 12)%nat eqn:E12; [apply insertionSort_spec; assumption|].
  apply Nat.leb_gt in E12.
  destruct (limit =? 0)%nat; [apply heapSort_spec; assumption|].
  set (d1 := if negb wb then _ else _).
  assert (H1 : sameRange d a b data d1.1).
  { subst d1. destruct (negb wb); simpl; [apply breakPatterns_spec; exact Hb|apply sameRange_refl]. }
  destruct d1 as [data1 limit1]; simpl in H1.
  pose proof (choosePivot_range data1 a b ltac:(lia)) as Hpiv.
  destruct (Sort.choosePivot less data1 a b) as [pivot hint]. simpl in Hpiv.
  set (d2 := match hint with Sort.decreasingHint => _ | _ => _ end).
  assert (H2 : sameRange d a b data d2.1.1 /\ a <= d2.1.2 /\ d2.1.2 < b).
  { subst d2. destruct hint; simpl; try (split; [exact H1|lia]).
    split; [|lia]. eapply sameRange_trans; [exact H1|].
    apply reverseRange_spec; [lia|]. rewrite (sameRange_length _ _ _ _ H1). exact Hb. }
  destruct d2 as [[data2 pivot2] hint2]; simpl in H2. destruct H2 as (H2 & Hp2a & Hp2b).
  set (d3 := if _ && Sort.isIncreasing hint2 then _ else _).
  assert (H3 : sameRange d a b data d3.1 /\ (d3.2 = true -> sortedOn less d d3.1 a b)).
  { subst d3. destruct (_ && _); simpl; [|split; [exact H2|discriminate]].
    destruct (partialInsertionSort_spec data2 a b) as [SRp Sp].
    - lia.
    - rewrite (sameRange_length _ _ _ _ H2). exact Hb.
    - apply (boundedBelow_sameRange _ _ _ _ H2 HB).
    - split; [eapply sameRange_trans; eauto|exact Sp]. }
  destruct d3 as [data3 sorted]; simpl in H3. destruct H3 as [H3 HS3].
  destruct sorted; [split; [exact H3|apply HS3; reflexivity]|]. clear HS3.
  assert (L3 : length data3 = length data) by (apply (sameRange_length _ _ _ _ H3)).
  assert (HB3 : boundedBelow less d data3 a b) by (apply (boundedBelow_sameRange _ _ _ _ H3 HB)).
  destruct ((0 <? a)%nat && negb (Sort.Less less data3 (a - 1) pivot2)) eqn:Eeq.
  - apply andb_true_iff in Eeq as [Ea0 Eeq]. apply Nat.ltb_lt in Ea0.
    apply negb_true_iff in Eeq. rewrite Less_nth in Eeq by lia.
    destruct HB3 as [?|HB3]; [lia|].
    destruct (partitionEqual_spec data3 a b pivot2) as (SR4 & Hm1 & Hm2 & Heq & Hgt & Hmin);
      [lia|lia|lia| |].
    { intros k Hk1 Hk2. apply le_trans with (y := data3 @ (a - 1)); [exact Eeq|apply HB3; lia]. }
    destruct (Sort.partitionEqual less data3 a b pivot2) as [data4 mid]. cbn [fst snd] in *.
    set (pv := data3 @ pivot2) in *.
    destruct (IH data4 mid b limit1 wb wp) as [SR5 S5].
    + lia.
    + lia.
    + rewrite (sameRange_length _ _ _ _ SR4). lia.
    + right. intros k Hk.
      apply le_trans with (y := pv); [apply Heq; lia|apply Hmin; lia].
    + set (r := Sort.pdqsort_loop less fuel data4 mid b limit1 wb wp) in *.
      split.
      * eapply sameRange_trans; [exact H3|]. eapply sameRange_trans; [exact SR4|].
        eapply sameRange_mono; [| |exact SR5]; lia.
      * assert (Hlow : forall k, a <= k -> k < mid ->
                  less pv (r @ k) = false /\ less (r @ k) pv = false).
        { intros k Hk1 Hk2. rewrite (sameRange_outside _ _ _ _ _ SR5) by lia.
          split; [apply Heq; lia|apply Hmin; lia]. }
        assert (Hhigh : forall k, mid <= k -> k < b -> less pv (r @ k) = true).
        { intros k Hk1 Hk2.
          apply (sameRange_inside _ _ _ _ (fun x => less pv x = true) SR5); [|lia].
          intros k' Hk'. apply Hgt; lia. }
        intros p q Hp Hpq Hq.
        destruct (decide (mid <= p)) as [?|?]; [apply S5; lia|].
        destruct (Hlow p ltac:(lia) ltac:(lia)) as [Lp1 Lp2].
        destruct (decide (q < mid)) as [?|?].
        -- destruct (Hlow q ltac:(lia) ltac:(lia)) as [Lq1 Lq2].
           apply le_trans with (y := pv); assumption.
        -- apply le_trans with (y := pv); [exact Lp1|].
           apply less_asym. apply Hhigh; lia.
  - clear Eeq.
    destruct (partition_spec data3 a b pivot2) as (SR4 & Hm1 & Hm2 & Hpv & Hlt & Hge);
      [lia|lia|lia|].
    destruct (Sort.partition less data3 a b pivot2) as [[data4 mid] ap]. cbn [fst snd] in *.
    set (pv := data3 @ pivot2) in *.
    assert (L4 : length data4 = length data) by (rewrite (sameRange_length _ _ _ _ SR4); exact L3).
    assert (HB4 : boundedBelow less d data4 a b)
      by (apply (boundedBelow_sameRange _ _ _ _ SR4 HB3)).
    assert (Done : forall r, sameRange d a b data4 r -> r @ mid = pv ->
              (forall k, a <= k -> k < mid -> less (r @ k) pv = true) ->
              (forall k, mid < k -> k < b -> less (r @ k) pv = false) ->
              sortedOn less d r a mid -> sortedOn less d r (mid + 1) b ->
              sameRange d a b data r /\ sortedOn less d r a b).
    { intros r SRr Hr1 Hr2 Hr3 Hr4 Hr5. split.
      - eapply sameRange_trans; [exact H3|]. eapply sameRange_trans; [exact SR4|exact SRr].
      - apply (sortedOn_around_pivot r a b mid pv); auto. }
    assert (Left : forall dd lim f1 f2, sameRange d (mid + 1) b data4 dd ->
              let r := Sort.pdqsort_loop less fuel dd a mid lim f1 f2 in
              sameRange d a mid dd r /\ sortedOn less d r a mid).
    { intros dd lim f1 f2 SRd. apply IH; [lia|lia| |].
      - rewrite (sameRange_length _ _ _ _ SRd). lia.
      - destruct HB4 as [?|HB4]; [left; assumption|right].
        intros k Hk. rewrite !(sameRange_outside _ _ _ _ _ SRd) by lia. apply HB4. lia. }
    assert (Right : forall dd lim f1 f2, sameRange d a mid data4 dd ->
              let r := Sort.pdqsort_loop less fuel dd (mid + 1) b lim f1 f2 in
              sameRange d (mid + 1) b dd r /\ sortedOn less d r (mid + 1) b).
    { intros dd lim f1 f2 SRd. apply IH; [lia|lia| |].
      - rewrite (sameRange_length _ _ _ _ SRd). lia.
      - right. intros k Hk. replace (mid + 1 - 1) with mid by lia.
        rewrite !(sameRange_outside _ _ _ _ _ SRd) by lia. rewrite Hpv. apply Hge; lia. }
    assert (Both : forall r, sameRange d a b data4 r ->
              (forall k, k < a \/ (mid <= k /\ k < mid + 1) \/ b <= k -> r @ k = data4 @ k) ->
              (forall P : A -> Prop, (forall k, a <= k < mid -> P (data4 @ k)) ->
                 forall k, a <= k < mid -> P (r @ k)) ->
              (forall P : A -> Prop, (forall k, mid + 1 <= k < b -> P (data4 @ k)) ->
                 forall k, mid + 1 <= k < b -> P (r @ k)) ->
              sortedOn less d r a mid -> sortedOn less d r (mid + 1) b ->
              sameRange d a b data r /\ sortedOn less d r a b).
    { intros r SRr Hout HPl HPr Sl Sr. apply Done; auto.
      - rewrite Hout by lia. exact Hpv.
      - intros k Hk1 Hk2. apply (HPl (fun x => less x pv = true)); [|lia].
        intros k' Hk'. apply Hlt; lia.
      - intros k Hk1 Hk2. apply (HPr (fun x => less x pv = false)); [|lia].
        intros k' Hk'. apply Hge; lia. }
    destruct (mid - a <? b - mid)%nat.
    + destruct (Left data4 limit1 true true (sameRange_refl _ _ _)) as [SRl Sl].
      set (dl := Sort.pdqsort_loop less fuel data4 a mid limit1 true true) in *.
      destruct (Right dl limit1 ((b - a) / 8 <=? mid - a)%nat ap SRl) as [SRr Sr].
      set (r := Sort.pdqsort_loop less fuel dl (mid + 1) b limit1 _ ap) in *.
      apply Both.
      * eapply sameRange_trans; [eapply sameRange_mono; [| |exact SRl]; lia|].
        eapply sameRange_mono; [| |exact SRr]; lia.
      * intros k Hk. rewrite (sameRange_outside _ _ _ _ _ SRr) by lia.
        apply (sameRange_outside _ _ _ _ _ SRl). lia.
      * intros P HP k Hk. rewrite (sameRange_outside _ _ _ _ _ SRr) by lia.
        apply (sameRange_inside _ _ _ _ P SRl HP). lia.
      * intros P HP k Hk. apply (sameRange_inside _ _ _ _ P SRr); [|lia].
        intros k' Hk'. rewrite (sameRange_outside _ _ _ _ _ SRl) by lia. apply HP. lia.
      * apply (sortedOn_sameRange_below dl r a mid (mid + 1) b SRr); [lia|exact Sl].
      * exact Sr.
    + destruct (Right data4 limit1 true true (sameRange_refl _ _ _)) as [SRr Sr].
      set (dr := Sort.pdqsort_loop less fuel data4 (mid + 1) b limit1 true true) in *.
      destruct (Left dr limit1 ((b - a) / 8 <=? b - mid)%nat ap SRr) as [SRl Sl].
      set (r := Sort.pdqsort_loop less fuel dr a mid limit1 _ ap) in *.
      apply Both.
      * eapply sameRange_trans; [eapply sameRange_mono; [| |exact SRr]; lia|].
        eapply sameRange_mono; [| |exact SRl]; lia.
      * intros k Hk. rewrite (sameRange_outside _ _ _ _ _ SRl) by lia.
        apply (sameRange_outside _ _ _ _ _ SRr). lia.
      * intros P HP k Hk. apply (sameRange_inside _ _ _ _ P SRl); [|lia].
        intros k' Hk'. rewrite (sameRange_outside _ _ _ _ _ SRr) by lia. apply HP. lia.
      * intros P HP k Hk. rewrite (sameRange_outside _ _ _ _ _ SRl) by lia.
        apply (sameRange_inside _ _ _ _ P SRr HP). lia.
      * exact Sl.
      * intros p q Hp Hpq Hq. rewrite !(sameRange_outside _ _ _ _ _ SRl) by lia.
        apply Sr; lia.
Qed.

End SortCorrect.

(** [sort.Slice] sorts: no element of the result is less than an earlier one. *)
Theorem Slice_sorted {A : Type} (less : A -> A -> bool) (x : list A) :
  StrictWeakOrder less -> sortedBy less (Sort.Slice less x).
Proof.
  intros SWO. destruct x as [|d x']; [intros i j u v _ Hu; destruct i; discriminate|].
  set (x := d :: x').
  unfold Sort.Slice, Sort.pdqsort. cbv zeta.
  destruct (pdqsort_loop_spec less d SWO (S (length x - 0)) x 0 (length x)
              (Sort.bitsLen (length x)) true true) as [SR So]; [lia|lia|lia|left; reflexivity|].
  intros i j u v Hij Hu Hv.
  pose proof (lookup_lt_Some _ _ _ Hv) as Hj.
  rewrite (sameRange_length _ _ _ _ _ SR) in Hj.
  rewrite <- (nth_lookup_Some _ _ d _ Hu), <- (nth_lookup_Some _ _ d _ Hv).
  apply So; lia.
Qed.

(** Insertion sort keeps equivalent elements in order *)

Section Stable.

Context {A : Type} (less : A -> A -> bool).
Hypothesis SWO : StrictWeakOrder less.

Lemma Swap_cons (x : A) l i j : Sort.Swap (x :: l) (S i) (S j) = x :: Sort.Swap l i j.
Proof. unfold Sort.Swap. simpl. destruct (l !! i), (l !! j); reflexivity. Qed.

Lemma Swap_adjacent (l1 : list A) u v l2 :
  Sort.Swap (l1 ++ u :: v :: l2)%list (S (length l1)) (length l1) = (l1 ++ v :: u :: l2)%list.
Proof.
  induction l1 as [|x l1 IH]; [reflexivity|].
  simpl. rewrite Swap_cons, IH. reflexivity.
Qed.

Lemma adjacent_split (data : list A) j u v :
  data !! j = Some u -> data !! S j = Some v ->
  exists l1 l2, data = (l1 ++ u :: v :: l2)%list /\ length l1 = j.
Proof.
  intros Hu Hv. exists (take j data), (drop (S (S j)) data). split.
  - rewrite <- (take_drop_middle data j u Hu) at 1. f_equal. f_equal.
    assert (Hd : drop (S j) data !! 0 = Some v).
    { rewrite lookup_drop. rewrite Nat.add_0_r. exact Hv. }
    rewrite <- (take_drop_middle (drop (S j) data) 0 v Hd). simpl.
    rewrite drop_drop. f_equal. f_equal. lia.
  - apply length_take_le. apply lookup_lt_Some in Hu. lia.
Qed.

Lemma Swap_adjacent_filter (data : list A) j x :
  Sort.Less less data (S j) j = true ->
  List.filter (equivalent less x) (Sort.Swap data (S j) j)
  = List.filter (equivalent less x) data.
Proof.
  unfold Sort.Less. intros HL.
  destruct (data !! S j) as [v|] eqn:Ev; [|discriminate].
  destruct (data !! j) as [u|] eqn:Eu; [|discriminate].
  destruct (adjacent_split data j u v Eu Ev) as (l1 & l2 & -> & <-).
  rewrite Swap_adjacent, !List.filter_app. f_equal. simpl.
  destruct (equivalent less x u) eqn:E1, (equivalent less x v) eqn:E2; try reflexivity.
  exfalso. unfold equivalent in *.
  apply andb_true_iff in E1 as [E1a E1b]. apply andb_true_iff in E2 as [E2a E2b].
  apply negb_true_iff in E1a, E1b, E2a, E2b.
  destruct SWO as (_ & _ & Hn). rewrite (Hn v x u E2b E1a) in HL. discriminate.
Qed.

Lemma insertDown_stable x a j : forall data,
  List.filter (equivalent less x) (Sort.insertDown less data a j)
  = List.filter (equivalent less x) data.
Proof.
  induction j as [|j IH]; intros data; cbn [Sort.insertDown]; [reflexivity|].
  destruct ((a <? S j)%nat && Sort.Less less data (S j) j) eqn:E; [|reflexivity].
  apply andb_true_iff in E as [_ E].
  rewrite IH. apply Swap_adjacent_filter. exact E.
Qed.

Lemma insertionSort_from_stable x a b fuel : forall data i,
  List.filter (equivalent less x) (Sort.insertionSort_from less fuel data a i b)
  = List.filter (equivalent less x) data.
Proof.
  induction fuel as [|fuel IH]; intros data i; cbn [Sort.insertionSort_from]; [reflexivity|].
  destruct (i <? b)%nat; [|reflexivity].
  rewrite IH. apply insertDown_stable.
Qed.

(** Up to twelve elements [sort.Slice] is an insertion sort, which keeps
    equivalent elements in their order. *)
Lemma Slice_small_stable (l : list A) x :
  length l <= 12 ->
  List.filter (equivalent less x) (Sort.Slice less l) = List.filter (equivalent less x) l.
Proof.
  intros Hl. unfold Sort.Slice, Sort.pdqsort. cbv zeta. cbn [Sort.pdqsort_loop].
  rewrite Nat.sub_0_r.
  assert (E : (length l <=? 12)%nat = true) by (apply Nat.leb_le; exact Hl).
  rewrite E. apply insertionSort_from_stable.
Qed.

End Stable.

Lemma newerFirst_StrictWeakOrder : StrictWeakOrder newerFirst.
Proof.
  unfold StrictWeakOrder, newerFirst, Time.After.
  split; [|split].
  - intros x. apply orb_false_iff. split; [apply Z.ltb_irrefl|].
    rewrite Z.ltb_irrefl. apply andb_false_r.
  - intros x y z H1 H2.
    apply orb_true_iff in H1, H2. apply orb_true_iff.
    rewrite !andb_true_iff, !Z.ltb_lt, !Z.eqb_eq in *. lia.
  - intros x y z H1 H2.
    apply orb_false_iff in H1 as [H1a H1b], H2 as [H2a H2b]. apply orb_false_iff.
    apply andb_false_iff in H1b, H2b.
    rewrite !Z.ltb_ge in *. rewrite andb_false_iff, Z.ltb_ge.
    rewrite !Z.eqb_neq in *. lia.
Qed.

Lemma equivalent_newerFirst p q :
  equivalent newerFirst p q = sameInstant (Post.Date p) (Post.Date q).
Proof.
  unfold equivalent, newerFirst, Time.After, sameInstant.
  destruct (Z.ltb_spec (Time.sec (Post.Date q)) (Time.sec (Post.Date p)));
    destruct (Z.ltb_spec (Time.sec (Post.Date p)) (Time.sec (Post.Date q)));
    destruct (Z.eqb_spec (Time.sec (Post.Date p)) (Time.sec (Post.Date q)));
    destruct (Z.eqb_spec (Time.sec (Post.Date q)) (Time.sec (Post.Date p)));
    destruct (Z.ltb_spec (Time.nsec (Post.Date q)) (Time.nsec (Post.Date p)));
    destruct (Z.ltb_spec (Time.nsec (Post.Date p)) (Time.nsec (Post.Date q)));
    destruct (Z.eqb_spec (Time.nsec (Post.Date p)) (Time.nsec (Post.Date q)));
    simpl; try reflexivity; try lia.
Qed.

Lemma Format_nonempty t : Time.Format_Jan_2_2006 t <> "".
Proof.
  unfold Time.Format_Jan_2_2006.
  destruct (Time.civilFromDays _) as [[year month] day].
  destruct (Strings.sliceTo 3 (Time.monthName month)); discriminate.
Qed.

Section IndexOrder.

Variable yaml_Unmarshal :
  string -> PostFrontmatter.t -> PostFrontmatter.t * option error.

Lemma collectPost_undated lang f p :
  collectPost yaml_Unmarshal lang f = Some p ->
  Post.DateStr p = "" -> Post.Date p = Time.zero.
Proof.
  unfold collectPost.
  destruct (Strings.HasSuffix (Name f) ".md"); [|discriminate].
  destruct (_ && _); [discriminate|].
  destruct (ReadFile f) as [c|e]; [|discriminate].
  destruct (ParseFrontmatter yaml_Unmarshal c) as [fm body].
  destruct (negb (String.eqb (PostFrontmatter.Date fm) "")).
  - destruct (Time.Parse_2006_01_02 (PostFrontmatter.Date fm)) as [t|].
    + destruct (String.eqb (Time.Format_Jan_2_2006 t) "") eqn:E.
      * apply String.eqb_eq in E. destruct (Format_nonempty t E).
      * intros [= <-]. simpl. intros E'. destruct (Format_nonempty t E').
    + simpl. destruct (ModTime f) as [mt|].
      * intros [= <-]. simpl. intros E'. destruct (Format_nonempty mt E').
      * intros [= <-]. reflexivity.
  - simpl. destruct (ModTime f) as [mt|].
    + intros [= <-]. simpl. intros E'. destruct (Format_nonempty mt E').
    + intros [= <-]. reflexivity.
Qed.

(** C6, as amended.  The index holds the collected posts in descending
    order of date: no post is followed by one with a later date.  A post
    without a resolved date has the zero time for date and comes after
    every post dated later than the zero time.  With at most twelve
    posts, those of equal date keep the order of the directory listing.
    In particular a post dated 2026-01-20 comes before one dated
    2026-01-15. *)
Theorem postIndex_order (lang : string) (files : list DirEntry) :
  let posts := collectPosts yaml_Unmarshal lang files in
  let index := postIndex yaml_Unmarshal lang files in
  index ≡ₚ posts
  /\ (forall i j p q, (i <= j)%nat -> index !! i = Some p -> index !! j = Some q ->
      Time.After (Post.Date q) (Post.Date p) = false)
  /\ (forall i j p q, index !! i = Some p -> index !! j = Some q ->
      Post.DateStr p = "" -> Time.After (Post.Date q) Time.zero = true -> (j < i)%nat)
  /\ ((List.length posts <= 12)%nat ->
      forall t, List.filter (fun p => sameInstant t (Post.Date p)) index
                = List.filter (fun p => sameInstant t (Post.Date p)) posts)
  /\ (forall i j p q, index !! i = Some p -> index !! j = Some q ->
      Time.Parse_2006_01_02 "2026-01-20" = Some (Post.Date p) ->
      Time.Parse_2006_01_02 "2026-01-15" = Some (Post.Date q) -> (i < j)%nat).
Proof.
  intros posts index.
  assert (HP : index ≡ₚ posts) by apply Slice_Permutation.
  assert (HS : sortedBy newerFirst index)
    by (apply Slice_sorted, newerFirst_StrictWeakOrder).
  split; [exact HP|]. split; [|split; [|split]].
  - intros i j p q Hij Hp Hq. apply (HS i j p q Hij Hp Hq).
  - intros i j p q Hp Hq Hd Ha.
    assert (Hz : Post.Date p = Time.zero).
    { assert (Hin : p ∈ posts).
      { rewrite <- HP. apply list_elem_of_lookup. exists i. exact Hp. }
      apply list_elem_of_omap in Hin as (f & _ & Hc).
      apply (collectPost_undated lang f p Hc Hd). }
    destruct (le_lt_dec i j) as [Hij|Hji]; [|exact Hji].
    pose proof (HS i j p q Hij Hp Hq) as Hn. unfold newerFirst in Hn.
    rewrite Hz in Hn. congruence.
  - intros Hl t.
    pose proof (Slice_small_stable newerFirst newerFirst_StrictWeakOrder posts
                  (Post.mk "" "" t "") Hl) as Hst.
    erewrite (List.filter_ext _ (equivalent newerFirst (Post.mk "" "" t ""))),
      (List.filter_ext (fun p => sameInstant t (Post.Date p))
         (equivalent newerFirst (Post.mk "" "" t ""))); [exact Hst| |];
      intros p; rewrite equivalent_newerFirst; reflexivity.
  - intros i j p q Hp Hq Dp Dq.
    destruct (le_lt_dec j i) as [Hji|Hij]; [|exact Hij].
    pose proof (HS j i q p Hji Hq Hp) as Hn. unfold newerFirst in Hn.
    assert (E20 : Time.Parse_2006_01_02 "2026-01-20" = Some (Time.Date 2026 1 20))
      by (vm_compute; reflexivity).
    assert (E15 : Time.Parse_2006_01_02 "2026-01-15" = Some (Time.Date 2026 1 15))
      by (vm_compute; reflexivity).
    rewrite E20 in Dp. rewrite E15 in Dq. injection Dp as Dp. injection Dq as Dq.
    rewrite <- Dp, <- Dq in Hn. vm_compute in Hn. discriminate.
Qed.

End IndexOrder.

Lemma postIndex_order_witness :
  let files := [datedPost "older" "2026-01-15"; datedPost "newer" "2026-01-20";
                undatedPost "undated"] in
  map Post.Slug (postIndex Yaml.Unmarshal "en" files) = ["newer"; "older"; "undated"]
  /\ List.filter (fun p => sameInstant (Time.Date 2026 1 15) (Post.Date p))
       (postIndex Yaml.Unmarshal "en" files)
     = List.filter (fun p => sameInstant (Time.Date 2026 1 15) (Post.Date p))
         (collectPosts Yaml.Unmarshal "en" files).
Proof.
  intros files. split.
  - vm_compute. reflexivity.
  - apply (proj1 (proj2 (proj2 (proj2 (postIndex_order Yaml.Unmarshal "en" files))))).
    vm_compute. lia.
Defined.

(** C6 as the specification states it fails.  With twelve posts of one
    day followed by a newer one, [sort.Slice] leaves the posts of that
    day in another order than the directory listing: [post-07] comes
    before [post-01].  And a post without any date comes before a post
    dated in the year 0, which is earlier than the zero time. *)
Lemma postIndex_not_stable :
  map Post.Slug (collectPosts Yaml.Unmarshal "en" thirteenPosts)
  = ["post-01"; "post-02"; "post-03"; "post-04"; "post-05"; "post-06"; "post-07";
     "post-08"; "post-09"; "post-10"; "post-11"; "post-12"; "post-13"]
  /\ map Post.Slug (postIndex Yaml.Unmarshal "en" thirteenPosts)
     = ["post-13"; "post-07"; "post-03"; "post-04"; "post-05"; "post-06"; "post-01";
        "post-08"; "post-09"; "post-10"; "post-11"; "post-12"; "post-02"]
  /\ List.filter (fun p => sameInstant (Time.Date 2026 1 15) (Post.Date p))
       (postIndex Yaml.Unmarshal "en" thirteenPosts)
     <> List.filter (fun p => sameInstant (Time.Date 2026 1 15) (Post.Date p))
          (collectPosts Yaml.Unmarshal "en" thirteenPosts)
  /\ map Post.Slug
       (postIndex Yaml.Unmarshal "en" [undatedPost "undated"; datedPost "ancient" "0000-06-15"])
     = ["undated"; "ancient"].
Proof.
  split; [|split; [|split]]; try (vm_compute; reflexivity).
  intros E. vm_compute in E. discriminate.
Qed.

(** ** Further properties *)

(** *** Response headers *)

Lemma setSecurityHeaders_has w : hasSecurityHeaders (setSecurityHeaders w).
Proof.
  unfold hasSecurityHeaders, setSecurityHeaders, HeaderSet. cbn [Header].
  repeat split; simplify_map_eq; reflexivity.
Qed.

Lemma http_Error_has w msg code :
  hasSecurityHeaders w -> hasSecurityHeaders (http_Error w msg code).
Proof.
  unfold hasSecurityHeaders, http_Error, HeaderSet. cbn [Header].
  intros (H1 & H2 & H3 & H4). repeat split; simplify_map_eq; reflexivity.
Qed.

Lemma renderPage_has w title content :
  hasSecurityHeaders w -> hasSecurityHeaders (renderPage w title content).
Proof.
  unfold hasSecurityHeaders, renderPage, HeaderSet. cbn [Header].
  intros (H1 & H2 & H3 & H4). repeat split; simplify_map_eq; reflexivity.
Qed.

Lemma http_SetCookie_has w c :
  hasSecurityHeaders w -> hasSecurityHeaders (http_SetCookie w c).
Proof. intros H; exact H. Qed.



Section Responses.

Variable yaml_Unmarshal :
  string -> PostFrontmatter.t -> PostFrontmatter.t * option error.
Variable goldmark_Convert : string -> Result string.

(** X1. Every response of the contact page, of the home page and of the
    post page carries the four security headers with the values
    [setSecurityHeaders] gives them, whatever headers the response had
    before and whether a page or an error is written: nothing a handler
    does afterwards, [http.Error] included, takes one of them back. *)
Theorem handlers_set_security_headers {R : Type} `{SlugReader R} (sl : R)
    (readDir : Result (list DirEntry)) (w : ResponseWriter) (r : Request) :
  hasSecurityHeaders (ContactHandler w r)
  /\ hasSecurityHeaders (HomeHandler yaml_Unmarshal readDir w r)
  /\ hasSecurityHeaders (PostHandler yaml_Unmarshal goldmark_Convert sl w r).1.
Proof.
  split; [|split].
  - apply renderPage_has, setSecurityHeaders_has.
  - unfold HomeHandler. destruct readDir.
    + apply renderPage_has, http_SetCookie_has, setSecurityHeaders_has.
    + apply http_Error_has, http_SetCookie_has, setSecurityHeaders_has.
  - unfold PostHandler.
    destruct (IsValidSlug (PathValue r "slug")); cbn [negb fst];
      [|apply http_Error_has, setSecurityHeaders_has].
    destruct (Read sl (PathValue r "slug")) as [[md|e] sl'];
      [|apply http_Error_has, setSecurityHeaders_has].
    destruct (ParseFrontmatter yaml_Unmarshal md) as [fm body].
    destruct (goldmark_Convert body);
      [apply renderPage_has|apply http_Error_has]; apply setSecurityHeaders_has.
Qed.


(** X3. Each error the post page answers by itself has one cause.  The
    response is 400 "Invalid post slug" exactly when the slug fails
    validation; 404 "Post not found" exactly when the slug is valid and
    the reader returns an error; 500 "Error rendering post" exactly
    when the slug is valid, the reader returned a text and the markdown
    converter fails on its body. *)
Theorem PostHandler_error_causes {R : Type} `{SlugReader R} (sl : R)
    (w : ResponseWriter) (r : Request) :
  let slug := PathValue r "slug" in
  let body := Body (PostHandler yaml_Unmarshal goldmark_Convert sl w r).1 in
  (body = Some (HttpError 400 ("Invalid post slug" ++ LF)) <-> IsValidSlug slug = false)
  /\ (body = Some (HttpError 404 ("Post not found" ++ LF))
      <-> IsValidSlug slug = true /\ exists e, (Read sl slug).1 = Err e)
  /\ (body = Some (HttpError 500 ("Error rendering post" ++ LF))
      <-> IsValidSlug slug = true
          /\ exists md e, (Read sl slug).1 = Ok md
               /\ goldmark_Convert (ParseFrontmatter yaml_Unmarshal md).2 = Err e).
Proof.
  intros slug body. subst body. unfold PostHandler. fold slug.
  destruct (IsValidSlug slug) eqn:Hv; cbn [negb].
  - destruct (Read sl slug) as [[md|e] sl'] eqn:Hr; cbn [fst].
    + destruct (ParseFrontmatter yaml_Unmarshal md) as [fm mdBody] eqn:Hp.
      destruct (goldmark_Convert mdBody) as [buf|e] eqn:Hc;
        cbn [fst Body renderPage http_Error].
      * split; [split; [discriminate|discriminate]|].
        split; [split; [discriminate|intros [_ [e He]]; discriminate He]|].
        split; [discriminate|].
        intros [_ (md' & e & Hmd & He)]. injection Hmd as <-.
        rewrite Hp in He. cbn [snd] in He. congruence.
      * split; [split; [discriminate|discriminate]|].
        split; [split; [discriminate|intros [_ [e' He]]; discriminate He]|].
        split; [|reflexivity].
        intros _. split; [reflexivity|]. exists md, e. rewrite Hp.
        split; [reflexivity|exact Hc].
    + cbn [Body http_Error].
      split; [split; [discriminate|discriminate]|].
      split; [split; [|reflexivity]|].
      * intros _. split; [reflexivity|]. exists e. reflexivity.
      * split; [discriminate|].
        intros [_ (md & e' & Hmd & _)]. discriminate Hmd.
  - cbn [fst Body http_Error].
    split; [split; reflexivity|].
    split; [split; [discriminate|intros [Hf _]; discriminate Hf]|].
    split; [discriminate|intros [Hf _]; discriminate Hf].
Qed.

(** X4. The post page calls the reader at most once: a spy around any
    reader has recorded, after the slugs it had seen before, the path
    value of the request if that is a valid slug, and nothing otherwise.
    The reader is never asked for anything but the validated slug. *)
Theorem PostHandler_reads_once {R : Type} `{SlugReader R} (sl : R) (seen : list string)
    (w : ResponseWriter) (r : Request) :
  calls (PostHandler yaml_Unmarshal goldmark_Convert (mkSpy seen sl) w r).2
  = (seen ++ (if IsValidSlug (PathValue r "slug") then [PathValue r "slug"] else []))%list.
Proof.
  unfold PostHandler.
  destruct (IsValidSlug (PathValue r "slug")); cbn [negb snd calls];
    [|rewrite app_nil_r; reflexivity].
  unfold Read at 1. unfold SpyReader_Read. cbn [inner calls].
  destruct (Read sl (PathValue r "slug")) as [[md|e] sl']; [|reflexivity].
  destruct (ParseFrontmatter yaml_Unmarshal md) as [fm body].
  destruct (goldmark_Convert body); reflexivity.
Qed.

End Responses.

Lemma PostHandler_error_causes_witness :
  let sl := {| content := {[ "hello" := "# Hello" ]} |} in
  let failing := fun _ : string => @Err string "conversion failed" in
  Body (PostHandler Yaml.Unmarshal failing sl newResponse (postRequest "hello")).1
  = Some (HttpError 500 ("Error rendering post" ++ LF))
  /\ Body (PostHandler Yaml.Unmarshal failing sl newResponse (postRequest "a/b")).1
     = Some (HttpError 400 ("Invalid post slug" ++ LF))
  /\ Body (PostHandler Yaml.Unmarshal failing sl newResponse (postRequest "missing")).1
     = Some (HttpError 404 ("Post not found" ++ LF)).
Proof.
  intros sl failing. split; [|split].
  - apply (proj2 (proj2 (PostHandler_error_causes Yaml.Unmarshal failing sl newResponse
                           (postRequest "hello")))).
    split; [vm_compute; reflexivity|].
    exists "# Hello", "conversion failed". split; vm_compute; reflexivity.
  - apply (proj1 (PostHandler_error_causes Yaml.Unmarshal failing sl newResponse
                    (postRequest "a/b"))).
    vm_compute. reflexivity.
  - apply (proj1 (proj2 (PostHandler_error_causes Yaml.Unmarshal failing sl newResponse
                           (postRequest "missing")))).
    split; [vm_compute; reflexivity|]. exists "file does not exist". vm_compute. reflexivity.
Defined.

(** *** Escaping leaves no markup *)

Lemma countByte_app c s t : countByte c (s ++ t) = (countByte c s + countByte c t)%nat.
Proof.
  induction s as [|a s IH]; string_simpl; [reflexivity|].
  cbn [countByte]. rewrite IH. lia.
Qed.

Lemma countByte_escapeByte c a : isMarkup c = true -> countByte c (Template.escapeByte a) = O.
Proof.
  intros Hc. unfold isMarkup in Hc. rewrite !orb_true_iff, !Ascii.eqb_eq in Hc.
  unfold Template.escapeByte.
  destruct Hc as [[[[->| ->]| ->]| ->]| ->];
    repeat (match goal with
            | |- context [Ascii.eqb a ?x] =>
                let E := fresh "E" in destruct (Ascii.eqb a x) eqn:E; [reflexivity|]
            end);
    cbn [countByte];
    repeat (match goal with
            | E : Ascii.eqb a ?x = false |- context [Ascii.eqb a ?x] => rewrite E
            end); reflexivity.
Qed.

Lemma countByte_HTMLEscapeString c s :
  isMarkup c = true -> countByte c (Template.HTMLEscapeString s) = O.
Proof.
  intros Hc. induction s as [|a s IH]; [reflexivity|].
  cbn [Template.HTMLEscapeString]. rewrite countByte_app, countByte_escapeByte, IH; auto.
Qed.

Lemma countByte_postItem c post :
  isMarkup c = true -> countByte c (postItem post) = countByte c (postItem emptyPost).
Proof.
  intros Hc. unfold postItem, emptyPost. cbn [Post.Slug Post.Title Post.DateStr].
  rewrite !countByte_app, !countByte_HTMLEscapeString by exact Hc. reflexivity.
Qed.

Lemma string_app_nil_r (s : string) : s ++ "" = s.
Proof. induction s as [|c s IH]; [reflexivity|]. rewrite string_app_cons, IH. reflexivity. Qed.

Lemma countByte_concat_postItem c posts :
  isMarkup c = true ->
  countByte c (String.concat "" (map postItem posts))
  = (List.length posts * countByte c (postItem emptyPost))%nat.
Proof.
  intros Hc. induction posts as [|p posts IH]; [reflexivity|].
  cbn [map List.length].
  assert (E : String.concat "" (postItem p :: map postItem posts)
              = postItem p ++ String.concat "" (map postItem posts)).
  { destruct (map postItem posts); cbn [String.concat]; [|reflexivity].
    symmetry. apply string_app_nil_r. }
  rewrite E, countByte_app, IH, (countByte_postItem c p Hc). lia.
Qed.

Lemma countByte_plain c s : isMarkup c = true -> plain s = true -> countByte c s = O.
Proof.
  intros Hc Hp. rewrite <- (HTMLEscapeString_plain s Hp). apply countByte_HTMLEscapeString, Hc.
Qed.

(** X5. No post can add markup to the home page or to the post page
    through its slug, title or date.  For each of the bytes [<], [>],
    the double and the single quote and NUL, the home page holds as many
    of them as the page without posts plus, for every post, as many as
    the list item of a post with empty fields.  The article of the post
    page holds as many as the article with empty title and body that
    shows a date where this one shows one, plus those of the rendered
    markdown: the frontmatter counts only through whether a date is
    shown, and a date that is shown holds none of these bytes. *)
Theorem pages_markup_fixed (c : ascii) (lang : string) (posts : list Post.t)
    (title : string) (fm : PostFrontmatter.t) (buf : string) :
  isMarkup c = true ->
  let reference :=
    PostFrontmatter.mk ""
      (match shownDate fm with Some _ => "2006-01-02" | None => "" end) in
  countByte c (homeContent lang posts)
  = (countByte c (homeContent lang [])
     + List.length posts * countByte c (postItem emptyPost))%nat
  /\ countByte c (postHTML title fm buf)
     = (countByte c (postHTML "" reference "") + countByte c buf)%nat
  /\ (forall date, shownDate fm = Some date -> countByte c date = O).
Proof.
  intros Hc reference. split; [|split].
  - unfold homeContent.
    destruct (if String.eqb lang "th"
              then (welcomeTitle_th, welcomeText_th, postsHeading_th)
              else (welcomeTitle_en, welcomeText_en, postsHeading_en)) as [[wt wx] ph].
    rewrite !countByte_app, countByte_concat_postItem by exact Hc.
    cbn [map String.concat countByte]. lia.
  - subst reference. unfold postHTML, shownDate. cbn [PostFrontmatter.Date].
    destruct (String.eqb (PostFrontmatter.Date fm) "") eqn:Ee; cbn [negb].
    + cbn [String.eqb negb].
      rewrite !countByte_app, !countByte_HTMLEscapeString by exact Hc.
      cbn [countByte]. lia.
    + destruct (Time.Parse_2006_01_02 (PostFrontmatter.Date fm)) as [t|]; cbn [option_map].
      * replace (Time.Parse_2006_01_02 "2006-01-02") with (Some (Time.Date 2006 1 2))
          by (vm_compute; reflexivity).
        cbn [String.eqb Ascii.eqb Bool.eqb negb].
        rewrite !countByte_app, !countByte_HTMLEscapeString by exact Hc.
        rewrite !(countByte_plain c (Time.Format_Jan_2_2006 _) Hc (Format_plain _)).
        cbn [countByte]. lia.
      * cbn [String.eqb negb].
        rewrite !countByte_app, !countByte_HTMLEscapeString by exact Hc.
        cbn [countByte]. lia.
  - intros date Hd. unfold shownDate in Hd.
    destruct (String.eqb (PostFrontmatter.Date fm) ""); [discriminate|].
    destruct (Time.Parse_2006_01_02 (PostFrontmatter.Date fm)) as [t|]; [|discriminate].
    injection Hd as <-. apply countByte_plain; [exact Hc|apply Format_plain].
Qed.

Lemma pages_markup_fixed_witness :
  countByte "<" (homeContent "en" [Post.mk "a<b" "<script>" Time.zero "<"]) = 14%nat
  /\ countByte "<" (postHTML "<script>" (PostFrontmatter.mk "<b>" "2026-01-15") "<p>x</p>")
     = 10%nat
  /\ countByte "<" (postHTML "<script>" (PostFrontmatter.mk "<b>" "<i>") "<p>x</p>") = 8%nat.
Proof.
  destruct (pages_markup_fixed "<" "en" [Post.mk "a<b" "<script>" Time.zero "<"]
              "<script>" (PostFrontmatter.mk "<b>" "2026-01-15") "<p>x</p>" eq_refl)
    as (H1 & H2 & _).
  destruct (pages_markup_fixed "<" "en" [] "<script>" (PostFrontmatter.mk "<b>" "<i>")
              "<p>x</p>" eq_refl) as (_ & H3 & _).
  split; [rewrite H1|split; [rewrite H2|rewrite H3]]; vm_compute; reflexivity.
Defined.

(** *** The path a [FileReader] opens *)

Lemma cleanLoop_nil fuel rooted out dotdot :
  Filepath.cleanLoop fuel rooted out dotdot "" = out.
Proof. destruct fuel; reflexivity. Qed.

Lemma element_noSep e rest :
  noSep e = true -> Filepath.atEnd rest = true -> Filepath.element (e ++ rest) = (e, rest).
Proof.
  intros He Hr. induction e as [|c e IH]; string_simpl.
  - destruct rest as [|c rest]; [reflexivity|].
    cbn [Filepath.element]. cbn [Filepath.atEnd] in Hr. rewrite Hr. reflexivity.
  - cbn [noSep] in He. apply andb_true_iff in He as [Hc He].
    cbn [Filepath.element]. apply negb_true_iff in Hc. rewrite Hc, (IH He). reflexivity.
Qed.

(** One round of the loop on a real path element. *)
Lemma cleanLoop_element fuel rooted out dotdot c e rest :
  Filepath.isSep c = false -> Ascii.eqb c "." = false ->
  noSep e = true -> Filepath.atEnd rest = true ->
  Filepath.cleanLoop (S fuel) rooted out dotdot (String c e ++ rest)
  = Filepath.cleanLoop fuel rooted
      ((if rooted && negb (String.length out =? 1)%nat
           || negb rooted && negb (String.length out =? 0)%nat
        then out ++ "/" else out) ++ String c e) dotdot rest.
Proof.
  intros Hc Hd He Hr.
  assert (E : Filepath.element (String c e ++ rest) = (String c e, rest)).
  { apply element_noSep; [|exact Hr]. cbn [noSep]. rewrite Hc, He. reflexivity. }
  rewrite string_app_cons in E |- *.
  cbn [Filepath.cleanLoop]. rewrite Hc, Hd. cbn [andb].
  rewrite E. reflexivity.
Qed.

Lemma cleanLoop_last fuel rooted out dotdot c e :
  Filepath.isSep c = false -> Ascii.eqb c "." = false -> noSep e = true ->
  Filepath.cleanLoop (S fuel) rooted out dotdot (String c e)
  = (if rooted && negb (String.length out =? 1)%nat
        || negb rooted && negb (String.length out =? 0)%nat
     then out ++ "/" else out) ++ String c e.
Proof.
  intros Hc Hd He.
  rewrite <- (string_app_nil_r (String c e)) at 1.
  rewrite cleanLoop_element by (assumption || reflexivity).
  apply cleanLoop_nil.
Qed.

Lemma cleanLoop_sep fuel rooted out dotdot p :
  Filepath.cleanLoop (S fuel) rooted out dotdot (String "/" p)
  = Filepath.cleanLoop fuel rooted out dotdot p.
Proof. reflexivity. Qed.

Lemma slugChar_noSep c :
  Regexp.inClass slugRanges c = true -> Filepath.isSep c = false /\ Ascii.eqb c "." = false.
Proof.
  intros H. split.
  - destruct (Ascii.eqb_spec c "/") as [->|]; [discriminate H|].
    unfold Filepath.isSep. apply Ascii.eqb_neq. assumption.
  - destruct (Ascii.eqb_spec c ".") as [->|]; [discriminate H|reflexivity].
Qed.

Lemma allInClass_noSep s : allInClass slugRanges s = true -> noSep s = true.
Proof.
  induction s as [|c s IH]; [reflexivity|].
  cbn [allInClass noSep]. intros [Hc Hs]%andb_true_iff.
  destruct (slugChar_noSep c Hc) as [-> _]. rewrite (IH Hs). reflexivity.
Qed.

Lemma noSep_app s t : noSep (s ++ t) = noSep s && noSep t.
Proof.
  induction s as [|c s IH]; string_simpl; [reflexivity|].
  cbn [noSep]. rewrite IH, andb_assoc. reflexivity.
Qed.

(** A relative path of two real elements is clean. *)
Lemma Clean_two c1 e1 c2 e2 :
  Filepath.isSep c1 = false -> Ascii.eqb c1 "." = false -> noSep e1 = true ->
  Filepath.isSep c2 = false -> Ascii.eqb c2 "." = false -> noSep e2 = true ->
  Filepath.Clean (String c1 e1 ++ String "/" (String c2 e2))
  = String c1 e1 ++ String "/" (String c2 e2).
Proof.
  intros S1 D1 N1 S2 D2 N2.
  assert (L : exists fuel, String.length (String c1 e1 ++ String "/" (String c2 e2))
                           = S (S (S fuel))).
  { rewrite string_app_length. cbn [String.length].
    exists (String.length e1 + String.length e2)%nat. lia. }
  destruct L as [fuel L].
  assert (E : Filepath.cleanLoop (S (S (S fuel))) false "" 0
                (String c1 e1 ++ String "/" (String c2 e2))
              = String c1 e1 ++ String "/" (String c2 e2)).
  { rewrite cleanLoop_element by (assumption || reflexivity).
    cbn [andb orb negb String.length Nat.eqb]. rewrite string_app_nil, cleanLoop_sep.
    rewrite cleanLoop_last by assumption.
    cbn [andb orb negb String.length Nat.eqb].
    rewrite string_app_assoc. reflexivity. }
  unfold Filepath.Clean.
  rewrite string_app_cons in L, E |- *. cbv beta iota zeta.
  rewrite S1, L, E. reflexivity.
Qed.

Lemma Join_posts_valid slug :
  IsValidSlug slug = true ->
  Filepath.Join ["posts"; slug ++ ".md"] = "posts/" ++ slug ++ ".md".
Proof.
  rewrite IsValidSlug_unfold. intros [Hn Hs]%andb_true_iff.
  destruct slug as [|c s]; [discriminate Hn|].
  cbn [allInClass] in Hs. apply andb_true_iff in Hs as [Hc Hs].
  destruct (slugChar_noSep c Hc) as [Hsep Hdot].
  change (Filepath.Join ["posts"; String c s ++ ".md"])
    with (Filepath.Clean ("posts" ++ "/" ++ (String c s ++ ".md"))).
  rewrite (string_app_cons c s ".md").
  change ("posts" ++ "/" ++ String c (s ++ ".md"))
    with (String "p" "osts" ++ String "/" (String c (s ++ ".md"))).
  rewrite Clean_two; try reflexivity; try assumption.
  rewrite noSep_app, (allInClass_noSep s Hs). reflexivity.
Qed.

(** With two dots in front, the name is looked up beside the directory
    of posts. *)
Lemma Join_posts_parent slug :
  IsValidSlug slug = true ->
  Filepath.Join ["posts"; ("../" ++ slug) ++ ".md"] = slug ++ ".md".
Proof.
  rewrite IsValidSlug_unfold. intros [Hn Hs]%andb_true_iff.
  destruct slug as [|c s]; [discriminate Hn|].
  cbn [allInClass] in Hs. apply andb_true_iff in Hs as [Hc Hs].
  destruct (slugChar_noSep c Hc) as [Hsep Hdot].
  change (Filepath.Join ["posts"; ("../" ++ String c s) ++ ".md"])
    with (Filepath.Clean ("posts" ++ "/" ++ (("../" ++ String c s) ++ ".md"))).
  rewrite (string_app_assoc "../"), (string_app_cons c s ".md").
  change ("posts" ++ "/" ++ "../" ++ String c (s ++ ".md"))
    with (String "p" ("osts/../" ++ String c (s ++ ".md"))).
  unfold Filepath.Clean. cbv beta iota zeta.
  change (Filepath.isSep "p") with false. cbv iota.
  change (String "p" ("osts/../" ++ String c (s ++ ".md")))
    with (String "p" "osts"
          ++ String "/" (String "." (String "." (String "/" (String c (s ++ ".md")))))).
  assert (L : exists fuel,
             String.length
               (String "p" "osts"
                ++ String "/" (String "." (String "." (String "/" (String c (s ++ ".md"))))))
             = S (S (S (S (S fuel))))).
  { rewrite string_app_length. cbn [String.length]. eexists. cbn [Nat.add]. reflexivity. }
  destruct L as [fuel ->].
  rewrite cleanLoop_element by reflexivity.
  cbn [andb orb negb String.length Nat.eqb]. rewrite string_app_nil, cleanLoop_sep.
  change (Filepath.cleanLoop (S (S (S fuel))) false "posts" 0
            (String "." (String "." (String "/" (String c (s ++ ".md"))))))
    with (Filepath.cleanLoop (S (S fuel)) false "" 0 (String "/" (String c (s ++ ".md")))).
  rewrite cleanLoop_sep.
  rewrite cleanLoop_last; [|exact Hsep|exact Hdot|].
  - cbn [andb orb negb String.length Nat.eqb].
    rewrite string_app_nil. reflexivity.
  - rewrite noSep_app, (allInClass_noSep s Hs). reflexivity.
Qed.

Section Reader.

Variable yaml_Unmarshal :
  string -> PostFrontmatter.t -> PostFrontmatter.t * option error.
Variable goldmark_Convert : string -> Result string.

(** X6. For a valid slug the [FileReader] opens the file
    [posts/<slug>.md] and no other: joining [posts] with the file name
    changes nothing in it.  It returns the content read from that file,
    or the error of opening or of reading it. *)
Theorem FileReader_Read_valid_slug (fs : FileSystem) (slug : string) :
  IsValidSlug slug = true ->
  Read {| os_files := fs |} slug
  = (match fs ("posts/" ++ slug ++ ".md") with
     | Ok (Ok b) => Ok b
     | Ok (Err err) => Err err
     | Err err => Err err
     end, {| os_files := fs |}).
Proof.
  intros Hv. unfold Read, FileReader_Read. cbn [os_files].
  rewrite (Join_posts_valid slug Hv).
  destruct (fs ("posts/" ++ slug ++ ".md")) as [[b|e]|e]; reflexivity.
Qed.

(** X7. The [FileReader] does not confine a slug by itself: asked for
    two dots, a separator and a name, it opens [<name>.md] in the
    directory above [posts], because joining the path cleans it.  Only
    the validation in the handler keeps the reader inside [posts]. *)
Theorem FileReader_Read_parent (fs : FileSystem) (name : string) :
  IsValidSlug name = true ->
  Read {| os_files := fs |} ("../" ++ name)
  = (match fs (name ++ ".md") with
     | Ok (Ok b) => Ok b
     | Ok (Err err) => Err err
     | Err err => Err err
     end, {| os_files := fs |}).
Proof.
  intros Hv. unfold Read, FileReader_Read. cbn [os_files].
  rewrite (Join_posts_parent name Hv).
  destruct (fs (name ++ ".md")) as [[b|e]|e]; reflexivity.
Qed.

(** X8. The response of the post page served from files depends on
    nothing but the files [posts/<slug>.md] with a valid slug: two file
    systems that agree on those give the same response to every
    request, whatever else they hold. *)
Theorem PostHandler_confined (fs fs' : FileSystem) (w : ResponseWriter) (r : Request) :
  (forall slug, IsValidSlug slug = true ->
     fs ("posts/" ++ slug ++ ".md") = fs' ("posts/" ++ slug ++ ".md")) ->
  (PostHandler yaml_Unmarshal goldmark_Convert {| os_files := fs |} w r).1
  = (PostHandler yaml_Unmarshal goldmark_Convert {| os_files := fs' |} w r).1.
Proof.
  intros Hagree. unfold PostHandler.
  destruct (IsValidSlug (PathValue r "slug")) eqn:Hv; cbn [negb]; [|reflexivity].
  unfold Read, FileReader_Read. cbn [os_files].
  rewrite (Join_posts_valid _ Hv), (Hagree _ Hv).
  destruct (fs' ("posts/" ++ PathValue r "slug" ++ ".md")) as [[b|e]|e]; try reflexivity.
  destruct (ParseFrontmatter yaml_Unmarshal b) as [fm body].
  destruct (goldmark_Convert body); reflexivity.
Qed.

End Reader.

Lemma FileReader_Read_valid_slug_witness :
  Read {| os_files := onePost |} "hello-world" = (Ok "# Hello", {| os_files := onePost |}).
Proof. exact (FileReader_Read_valid_slug onePost "hello-world" eq_refl). Defined.

Lemma FileReader_Read_parent_witness :
  Read {| os_files := onePostAndSecret |} "../secret"
  = (Ok "top secret", {| os_files := onePostAndSecret |}).
Proof. exact (FileReader_Read_parent onePostAndSecret "secret" eq_refl). Defined.

Lemma PostHandler_confined_witness :
  (PostHandler Yaml.Unmarshal convertVerbatim {| os_files := onePost |} newResponse
     (postRequest "hello-world")).1
  = (PostHandler Yaml.Unmarshal convertVerbatim {| os_files := onePostAndSecret |} newResponse
       (postRequest "hello-world")).1
  /\ onePost "secret.md" <> onePostAndSecret "secret.md".
Proof.
  split.
  - apply (PostHandler_confined Yaml.Unmarshal convertVerbatim onePost onePostAndSecret).
    intros slug _. reflexivity.
  - vm_compute. discriminate.
Defined.

(** *** The frontmatter block and the trimmed body *)

Lemma sliceTo_sliceFrom n s : Strings.sliceTo n s ++ Strings.sliceFrom n s = s.
Proof.
  revert s; induction n as [|n IH]; intros s; [apply string_app_nil|].
  destruct s as [|c s]; [reflexivity|].
  cbn [Strings.sliceTo Strings.sliceFrom]. rewrite string_app_cons, IH. reflexivity.
Qed.

Lemma HasPrefix_split s p :
  Strings.HasPrefix s p = true -> s = p ++ Strings.sliceFrom (String.length p) s.
Proof.
  intros H. apply HasPrefix_beginsWith in H as [t ->]. rewrite sliceFrom_app. reflexivity.
Qed.

Lemma HasSuffix_split s p :
  Strings.HasSuffix s p = true ->
  s = Strings.sliceTo (String.length s - String.length p) s ++ p.
Proof.
  unfold Strings.HasSuffix. intros [_ H]%andb_true_iff. apply String.eqb_eq in H.
  set (n := (String.length s - String.length p)%nat) in *.
  rewrite <- (sliceTo_sliceFrom n s) at 1. rewrite H. reflexivity.
Qed.

Lemma HasPrefix_app_l s p u :
  Strings.HasPrefix s p = true -> Strings.HasPrefix (s ++ u) p = true.
Proof.
  rewrite !HasPrefix_beginsWith. intros [t ->]. exists (t ++ u). apply string_app_assoc.
Qed.

Lemma spaceEncodings_nonempty sp : In sp Strings.spaceEncodings -> (1 <= String.length sp)%nat.
Proof.
  intros H.
  assert (A : forallb (fun sp => (1 <=? String.length sp)%nat) Strings.spaceEncodings = true)
    by (vm_compute; reflexivity).
  rewrite forallb_forall in A. apply Nat.leb_le, A, H.
Qed.

Lemma whiteSpace_one sp : In sp Strings.spaceEncodings -> whiteSpace sp.
Proof.
  intros H. rewrite <- (string_app_nil_r sp). apply whiteSpace_cons; [exact H|constructor].
Qed.

Lemma whiteSpace_app a b : whiteSpace a -> whiteSpace b -> whiteSpace (a ++ b).
Proof.
  intros Ha Hb. induction Ha as [|sp t Hsp Ht IH]; [rewrite string_app_nil; exact Hb|].
  rewrite string_app_assoc. apply whiteSpace_cons; assumption.
Qed.

Lemma TrimLeft_fuel_spec fuel : forall s,
  (String.length s <= fuel)%nat ->
  exists a, s = a ++ Strings.TrimLeft_fuel fuel s /\ whiteSpace a
            /\ Strings.leadingSpace (Strings.TrimLeft_fuel fuel s) = None.
Proof.
  induction fuel as [|fuel IH]; intros s Hl.
  - destruct s as [|c s]; [|cbn [String.length] in Hl; lia].
    exists "". split; [reflexivity|split; [constructor|vm_compute; reflexivity]].
  - cbn [Strings.TrimLeft_fuel].
    destruct (Strings.leadingSpace s) as [sp|] eqn:E.
    + unfold Strings.leadingSpace in E. apply find_some in E as [Hin Hp].
      pose proof (spaceEncodings_nonempty sp Hin) as Hn.
      pose proof (HasPrefix_split s sp Hp) as Hs.
      destruct (IH (Strings.sliceFrom (String.length sp) s)) as (a & Ha & Hw & Hnone).
      { apply (f_equal String.length) in Hs. rewrite string_app_length in Hs. lia. }
      exists (sp ++ a). split; [|split; [|exact Hnone]].
      * rewrite string_app_assoc, <- Ha. exact Hs.
      * apply whiteSpace_cons; assumption.
    + exists "". rewrite string_app_nil. split; [reflexivity|split; [constructor|exact E]].
Qed.

Lemma TrimRight_fuel_spec fuel : forall s,
  (String.length s <= fuel)%nat ->
  exists b, s = Strings.TrimRight_fuel fuel s ++ b /\ whiteSpace b
            /\ Strings.trailingSpace (Strings.TrimRight_fuel fuel s) = None.
Proof.
  induction fuel as [|fuel IH]; intros s Hl.
  - destruct s as [|c s]; [|cbn [String.length] in Hl; lia].
    exists "". split; [reflexivity|split; [constructor|vm_compute; reflexivity]].
  - cbn [Strings.TrimRight_fuel].
    destruct (Strings.trailingSpace s) as [sp|] eqn:E.
    + unfold Strings.trailingSpace in E. apply find_some in E as [Hin Hp].
      pose proof (spaceEncodings_nonempty sp Hin) as Hn.
      pose proof (HasSuffix_split s sp Hp) as Hs.
      set (s' := Strings.sliceTo (String.length s - String.length sp) s) in *.
      destruct (IH s') as (b & Hb & Hw & Hnone).
      { apply (f_equal String.length) in Hs. rewrite string_app_length in Hs. lia. }
      exists (b ++ sp). split; [|split; [|exact Hnone]].
      * rewrite <- string_app_assoc, <- Hb. exact Hs.
      * apply whiteSpace_app; [exact Hw|apply whiteSpace_one, Hin].
    + exists "". rewrite string_app_nil_r. split; [reflexivity|split; [constructor|exact E]].
Qed.

Lemma leadingSpace_None_prefix s u :
  Strings.leadingSpace (s ++ u) = None -> Strings.leadingSpace s = None.
Proof.
  unfold Strings.leadingSpace. intros H.
  destruct (find (Strings.HasPrefix s) Strings.spaceEncodings) as [sp|] eqn:E; [|reflexivity].
  apply find_some in E as [Hin Hp].
  pose proof (find_none _ _ H sp Hin) as Hf. cbv beta in Hf.
  rewrite (HasPrefix_app_l s sp u Hp) in Hf. discriminate.
Qed.

(** [strings.TrimSpace] takes white space, and nothing else, from both
    ends, and leaves none there. *)
Lemma TrimSpace_spec s :
  (exists a b, s = a ++ Strings.TrimSpace s ++ b /\ whiteSpace a /\ whiteSpace b)
  /\ (forall sp, In sp Strings.spaceEncodings ->
      Strings.HasPrefix (Strings.TrimSpace s) sp = false
      /\ Strings.HasSuffix (Strings.TrimSpace s) sp = false).
Proof.
  unfold Strings.TrimSpace.
  destruct (TrimLeft_fuel_spec (String.length s) s (Nat.le_refl _)) as (a & Ha & Hwa & Hla).
  set (t := Strings.TrimLeft_fuel (String.length s) s) in *.
  destruct (TrimRight_fuel_spec (String.length t) t (Nat.le_refl _)) as (b & Hb & Hwb & Htb).
  set (r := Strings.TrimRight_fuel (String.length t) t) in *.
  split.
  - exists a, b. rewrite <- Hb. auto.
  - intros sp Hin. split.
    + rewrite Hb in Hla. apply leadingSpace_None_prefix in Hla.
      apply (find_none _ _ Hla sp Hin).
    + apply (find_none _ _ Htb sp Hin).
Qed.

Section FrontmatterComplete.

Variable yaml_Unmarshal :
  string -> PostFrontmatter.t -> PostFrontmatter.t * option error.

(** X9. Whenever the content begins with [---] and a further [---]
    follows, the split loses nothing: the content is the opening
    delimiter, a block, the closing delimiter and a rest, the block is
    free of the delimiter (the first [---] after the opening one closes
    it, also inside a value), and the result is the frontmatter the
    decoder leaves for the block together with the trimmed rest.
    Together with the two cases without a frontmatter this covers every
    input. *)
Theorem ParseFrontmatter_complete (content : string) :
  beginsWith content "---" ->
  occursIn "---" (Strings.sliceFrom 3 content) ->
  exists block rest,
    content = "---" ++ block ++ "---" ++ rest
    /\ ~ occursIn "---" block
    /\ ParseFrontmatter yaml_Unmarshal content
       = ((yaml_Unmarshal block PostFrontmatter.empty).1, Strings.TrimSpace rest).
Proof.
  intros Hp Ho.
  apply HasPrefix_beginsWith in Hp.
  destruct (Strings.Index (Strings.sliceFrom 3 content) "---") as [m|] eqn:E;
    [|apply Index_None in E; contradiction].
  destruct (Index_Some _ _ _ E) as (block & rest & Hs & _).
  exists block, rest. split; [|split].
  - rewrite (HasPrefix_split content "---" Hp) at 1.
    cbn [String.length]. rewrite (proj1 Hs) at 1. reflexivity.
  - intros (u & v & Hb). destruct Hs as [Hs Hmin].
    specialize (Hmin u (v ++ "---" ++ rest)).
    rewrite Hs, Hb, !string_app_assoc in Hmin. specialize (Hmin eq_refl).
    rewrite !string_app_length in Hmin. cbn [String.length] in Hmin. lia.
  - unfold ParseFrontmatter. rewrite Hp. cbn [negb].
    rewrite (SplitN_2_firstSplit _ _ _ _ Hs).
    destruct (yaml_Unmarshal block PostFrontmatter.empty) as [fm err]. reflexivity.
Qed.

(** X10. The body returned for a content with frontmatter is the text
    after the closing delimiter without the white space around it: only
    white space is taken from its two ends, and the body neither begins
    nor ends with a white-space character. *)
Theorem ParseFrontmatter_body_trimmed (content block rest : string) :
  beginsWith content "---" ->
  firstSplit "---" (Strings.sliceFrom 3 content) block rest ->
  let body := (ParseFrontmatter yaml_Unmarshal content).2 in
  (exists a b, rest = a ++ body ++ b /\ whiteSpace a /\ whiteSpace b)
  /\ (forall sp, In sp Strings.spaceEncodings ->
      Strings.HasPrefix body sp = false /\ Strings.HasSuffix body sp = false).
Proof.
  intros Hp Hs body.
  assert (E : body = Strings.TrimSpace rest).
  { subst body. unfold ParseFrontmatter.
    apply HasPrefix_beginsWith in Hp. rewrite Hp. cbn [negb].
    rewrite (SplitN_2_firstSplit _ _ _ _ Hs).
    destruct (yaml_Unmarshal block PostFrontmatter.empty) as [fm err]. reflexivity. }
  rewrite E. apply TrimSpace_spec.
Qed.

End FrontmatterComplete.

Lemma ParseFrontmatter_complete_witness :
  exists block rest,
    "---" ++ LF ++ "title: a---b" ++ LF ++ "---" ++ LF ++ "Body"
    = "---" ++ block ++ "---" ++ rest
    /\ ~ occursIn "---" block
    /\ ParseFrontmatter Yaml.Unmarshal
         ("---" ++ LF ++ "title: a---b" ++ LF ++ "---" ++ LF ++ "Body")
       = ((Yaml.Unmarshal block PostFrontmatter.empty).1, Strings.TrimSpace rest).
Proof.
  apply ParseFrontmatter_complete.
  - apply HasPrefix_beginsWith. vm_compute. reflexivity.
  - exists (LF ++ "title: a"), ("b" ++ LF ++ "---" ++ LF ++ "Body"). vm_compute. reflexivity.
Defined.

Lemma ParseFrontmatter_body_trimmed_witness :
  let content := "---" ++ LF ++ "title: T" ++ LF ++ "---" ++ LF ++ LF ++ "  Body " ++ LF in
  let body := (ParseFrontmatter Yaml.Unmarshal content).2 in
  (exists a b, LF ++ LF ++ "  Body " ++ LF = a ++ body ++ b /\ whiteSpace a /\ whiteSpace b)
  /\ (forall sp, In sp Strings.spaceEncodings ->
      Strings.HasPrefix body sp = false /\ Strings.HasSuffix body sp = false).
Proof.
  intros content.
  apply (ParseFrontmatter_body_trimmed Yaml.Unmarshal content (LF ++ "title: T" ++ LF)).
  - apply HasPrefix_beginsWith. vm_compute. reflexivity.
  - apply firstSplit_Index; vm_compute; reflexivity.
Defined.

(** *** The locale cookie *)

Section Cookie.

Variable yaml_Unmarshal :
  string -> PostFrontmatter.t -> PostFrontmatter.t * option error.

Lemma requestLang_values r : requestLang r = "en" \/ requestLang r = "th".
Proof.
  rewrite requestLang_resolvedLocale. unfold resolvedLocale.
  destruct (String.eqb (selectedLang r) "en"); auto.
Qed.

Lemma requestLang_from_cookie r v :
  QueryGet r "lang" = "" -> Cookie r "lang" = Ok v -> v = "en" \/ v = "th" ->
  requestLang r = v.
Proof.
  intros Hq Hc Hv. unfold requestLang. rewrite Hq, Hc. cbn [String.eqb].
  destruct Hv as [-> | ->]; reflexivity.
Qed.

(** X11. The locale survives the round trip through the cookie.  The
    cookie the home page sets last is named [lang], has the path [/]
    and a maximal age of one year; when a later request has no [lang]
    parameter and sends that cookie back, both handlers resolve the
    locale of the earlier request: the contact page serves the same
    fragment and the home page stores the same value again. *)
Theorem locale_cookie_round_trip (readDir : Result (list DirEntry))
    (w w' : ResponseWriter) (r r' : Request) (c : HttpCookie) :
  last (SetCookies (HomeHandler yaml_Unmarshal readDir w r)) = Some c ->
  QueryGet r' "lang" = "" ->
  Cookie r' (CookieName c) = Ok (CookieValue c) ->
  (CookieName c = "lang" /\ CookiePath c = "/" /\ MaxAge c = (365 * 24 * 60 * 60)%Z)
  /\ requestLang r' = requestLang r
  /\ Body (ContactHandler w' r') = Body (ContactHandler w' r)
  /\ map CookieValue (SetCookies (HomeHandler yaml_Unmarshal readDir w' r'))
     = (map CookieValue (SetCookies w') ++ [requestLang r])%list.
Proof.
  intros Hl Hq Hc.
  assert (Ec : c = mkCookie "lang" (requestLang r) "/" 31536000 false "Lax").
  { unfold HomeHandler in Hl. destruct readDir; cbn in Hl;
      rewrite last_snoc in Hl; injection Hl as <-; reflexivity. }
  subst c. cbn [CookieName CookieValue CookiePath MaxAge] in *.
  assert (E : requestLang r' = requestLang r)
    by apply (requestLang_from_cookie r' _ Hq Hc (requestLang_values r)).
  split; [split; [reflexivity|split; reflexivity]|]. split; [exact E|]. split.
  - unfold ContactHandler. rewrite E. reflexivity.
  - unfold HomeHandler. rewrite E. destruct readDir; cbn; rewrite map_app; reflexivity.
Qed.

End Cookie.

Lemma locale_cookie_round_trip_witness :
  let r := mkRequest ∅ {[ "lang" := ["en"] ]} [] in
  let r' := mkRequest ∅ ∅ [("theme", "dark"); ("lang", "en")] in
  let c := mkCookie "lang" "en" "/" 31536000 false "Lax" in
  (CookieName c = "lang" /\ CookiePath c = "/" /\ MaxAge c = (365 * 24 * 60 * 60)%Z)
  /\ requestLang r' = requestLang r
  /\ Body (ContactHandler newResponse r') = Body (ContactHandler newResponse r)
  /\ map CookieValue (SetCookies (HomeHandler Yaml.Unmarshal (Ok []) newResponse r'))
     = (map CookieValue (SetCookies newResponse) ++ [requestLang r])%list.
Proof.
  intros r r' c.
  apply (locale_cookie_round_trip Yaml.Unmarshal (Ok []) newResponse newResponse r r' c);
    vm_compute; reflexivity.
Defined.

(** *** The index and the files *)

Section IndexFiles.

Variable yaml_Unmarshal :
  string -> PostFrontmatter.t -> PostFrontmatter.t * option error.

Lemma TrimSuffix_HasSuffix s suffix :
  Strings.HasSuffix s suffix = true -> Strings.TrimSuffix s suffix ++ suffix = s.
Proof.
  intros H. unfold Strings.TrimSuffix. rewrite H. symmetry. apply HasSuffix_split, H.
Qed.

Lemma collectPost_file lang f p :
  collectPost yaml_Unmarshal lang f = Some p ->
  Name f = Post.Slug p ++ ".md" /\ exists c, ReadFile f = Ok c.
Proof.
  intros Hc. pose proof (collectPost_Some yaml_Unmarshal lang f p Hc) as [Hs _].
  unfold collectPost in Hc.
  destruct (Strings.HasSuffix (Name f) ".md") eqn:Hsuf; [|discriminate].
  split.
  - rewrite Hs. symmetry. apply TrimSuffix_HasSuffix, Hsuf.
  - destruct (_ && _); [discriminate|].
    destruct (ReadFile f) as [c|e]; [eauto|discriminate].
Qed.

Lemma postIndex_elem lang files p :
  In p (postIndex yaml_Unmarshal lang files) <->
  exists f, In f files /\ collectPost yaml_Unmarshal lang f = Some p.
Proof.
  unfold postIndex, collectPosts.
  rewrite <- list_elem_of_In, (Slice_Permutation newerFirst), list_elem_of_omap.
  split; intros (f & Hf & Hc); exists f; [rewrite <- list_elem_of_In|rewrite list_elem_of_In];
    auto.
Qed.

(** X12. Every entry of the index stands for a file of the listing
    that is named [<slug>.md] and could be read; the index has at most
    as many entries as the listing has files; and when the names of the
    listing are distinct, as those of a directory are, so are the slugs
    of the index: no post is listed twice. *)
Theorem postIndex_entries_are_files (lang : string) (files : list DirEntry) :
  (forall p, In p (postIndex yaml_Unmarshal lang files) ->
     exists f c, In f files /\ Name f = Post.Slug p ++ ".md" /\ ReadFile f = Ok c)
  /\ (List.length (postIndex yaml_Unmarshal lang files) <= List.length files)%nat
  /\ (NoDup (map Name files) ->
      NoDup (map Post.Slug (postIndex yaml_Unmarshal lang files))).
Proof.
  split; [|split].
  - intros p Hp. apply postIndex_elem in Hp as (f & Hf & Hc).
    destruct (collectPost_file lang f p Hc) as [Hn [c Hr]]. exists f, c. auto.
  - unfold postIndex, collectPosts.
    rewrite (Permutation_length (Slice_Permutation newerFirst _)).
    induction files as [|f fs IH]; [reflexivity|].
    cbn [omap list_omap List.length]. destruct (collectPost yaml_Unmarshal lang f);
      cbn [List.length]; lia.
  - intros Hnd. unfold postIndex.
    rewrite (Slice_Permutation newerFirst). unfold collectPosts.
    induction files as [|f fs IH]; [constructor|].
    cbn [map] in Hnd. apply NoDup_cons in Hnd as [Hnot Hnd].
    cbn [omap list_omap]. destruct (collectPost yaml_Unmarshal lang f) as [p|] eqn:Hc;
      [|apply IH, Hnd].
    cbn [map]. apply NoDup_cons. split; [|apply IH, Hnd].
    intros Hin. apply Hnot.
    apply list_elem_of_fmap in Hin as (p' & Hs & Hp').
    apply list_elem_of_omap in Hp' as (f' & Hf' & Hc').
    apply list_elem_of_fmap. exists f'. split; [|exact Hf'].
    destruct (collectPost_file lang f p Hc) as [-> _].
    destruct (collectPost_file lang f' p' Hc') as [-> _]. rewrite Hs. reflexivity.
Qed.

End IndexFiles.

Lemma postIndex_entries_are_files_witness :
  let files := [undatedPost "a"; mkDirEntry "notes.txt" (Ok "x") None;
                mkDirEntry "b.md" (Err "permission denied") None; undatedPost "c"] in
  (exists f c, In f files /\ Name f = "c.md" /\ ReadFile f = Ok c)
  /\ (List.length (postIndex Yaml.Unmarshal "en" files) <= 4)%nat
  /\ NoDup (map Post.Slug (postIndex Yaml.Unmarshal "en" files)).
Proof.
  intros files.
  destruct (postIndex_entries_are_files Yaml.Unmarshal "en" files) as (H1 & H2 & H3).
  split; [|split].
  - apply (H1 (Post.mk "c" "C" Time.zero "")). vm_compute. right. left. reflexivity.
  - exact H2.
  - apply H3. vm_compute.
    repeat (apply NoDup_cons_2;
            [rewrite ?not_elem_of_cons; repeat split; try discriminate; apply not_elem_of_nil|]).
    apply NoDup_nil_2.
Defined.

(** *** Dates *)

Section Calendar.

Local Open Scope Z_scope.

Lemma isLeap_true y :
  Time.isLeap y = true <-> y mod 4 = 0 /\ (y mod 100 <> 0 \/ y mod 400 = 0).
Proof.
  unfold Time.isLeap.
  rewrite andb_true_iff, orb_true_iff, negb_true_iff, !Z.eqb_eq, Z.eqb_neq. reflexivity.
Qed.

Lemma daysIn_cases m y :
  1 <= m <= 12 ->
  (m = 2 /\ Time.daysIn m y = 29 /\ y mod 4 = 0 /\ (y mod 100 <> 0 \/ y mod 400 = 0))
  \/ (m = 2 /\ Time.daysIn m y = 28)
  \/ ((m = 4 \/ m = 6 \/ m = 9 \/ m = 11) /\ Time.daysIn m y = 30)
  \/ ((m = 1 \/ m = 3 \/ m = 5 \/ m = 7 \/ m = 8 \/ m = 10 \/ m = 12) /\ Time.daysIn m y = 31).
Proof.
  intros Hm. unfold Time.daysIn.
  destruct (Z.eqb_spec m 2) as [->|N2].
  - destruct (Time.isLeap y) eqn:E; [left|right; left; auto].
    apply isLeap_true in E. tauto.
  - right; right.
    destruct (Z.eqb_spec m 4); [left; cbn [orb]; split; [lia|reflexivity]|].
    destruct (Z.eqb_spec m 6); [left; cbn [orb]; split; [lia|reflexivity]|].
    destruct (Z.eqb_spec m 9); [left; cbn [orb]; split; [lia|reflexivity]|].
    destruct (Z.eqb_spec m 11); [left; cbn [orb]; split; [lia|reflexivity]|].
    right. cbn [orb]. split; [lia|reflexivity].
Qed.

(** The day count of a valid civil date leads back to the date. *)
Lemma civilFromDays_daysFromCivil y m d :
  1 <= m <= 12 -> 1 <= d <= Time.daysIn m y ->
  Time.civilFromDays (Time.daysFromCivil y m d) = (y, m, d).
Proof.
  intros Hm Hd.
  unfold Time.daysFromCivil, Time.civilFromDays. cbv zeta.
  set (yy := if m <=? 2 then y - 1 else y).
  set (era := yy / 400). set (yoe := yy - era * 400).
  set (mp := if m <=? 2 then m + 9 else m - 3).
  set (doy := (153 * mp + 2) / 5 + d - 1).
  set (doe := yoe * 365 + yoe / 4 - yoe / 100 + doy).
  assert (Hyy : (m <= 2 /\ yy = y - 1) \/ (2 < m /\ yy = y)).
  { subst yy. destruct (Z.leb_spec m 2); [left|right]; auto. }
  assert (Hmp : (m <= 2 /\ mp = m + 9) \/ (2 < m /\ mp = m - 3)).
  { subst mp. destruct (Z.leb_spec m 2); [left|right]; auto. }
  assert (Hyoe : 0 <= yoe < 400 /\ yy = era * 400 + yoe).
  { subst yoe era. Z.div_mod_to_equations. lia. }
  clearbody yy mp era yoe.
  assert (Hdoy : (0 <= doy <= 364
                  \/ (doy = 365 /\ (yoe + 1) mod 4 = 0
                      /\ ((yoe + 1) mod 100 <> 0 \/ yoe = 399)))
                 /\ (5 * doy + 2) / 153 = mp
                 /\ doy - (153 * mp + 2) / 5 + 1 = d).
  { subst doy.
    destruct (daysIn_cases m y Hm) as [(-> & E & L4 & L)|[(-> & E)|[(Hc & E)|(Hc & E)]]];
      rewrite E in Hd.
    - assert (mp = 11) as -> by lia.
      assert (yy = y - 1) by lia.
      Z.div_mod_to_equations. lia.
    - assert (mp = 11) as -> by lia. Z.div_mod_to_equations. lia.
    - destruct Hc as [->|[->|[->| ->]]];
        match goal with |- context [153 * mp] =>
          first [assert (mp = 1) as -> by lia | assert (mp = 3) as -> by lia
                |assert (mp = 6) as -> by lia | assert (mp = 8) as -> by lia]
        end; Z.div_mod_to_equations; lia.
    - destruct Hc as [->|[->|[->|[->|[->|[->| ->]]]]]];
        match goal with |- context [153 * mp] =>
          first [assert (mp = 10) as -> by lia | assert (mp = 0) as -> by lia
                |assert (mp = 2) as -> by lia | assert (mp = 4) as -> by lia
                |assert (mp = 5) as -> by lia | assert (mp = 7) as -> by lia
                |assert (mp = 9) as -> by lia]
        end; Z.div_mod_to_equations; lia. }
  destruct Hdoy as (Hdoy & E3 & E4).
  assert (Hdoe : 0 <= doe < 146097).
  { subst doe. Z.div_mod_to_equations. lia. }
  assert (E2 : (doe - doe / 1460 + doe / 36524 - doe / 146096) / 365 = yoe).
  { subst doe. destruct Hdoy as [Hdoy|(-> & H4 & H100)]; Z.div_mod_to_equations; lia. }
  replace (era * 146097 + doe - 306 + 306) with (doe + era * 146097) by lia.
  rewrite Z.div_add by lia. rewrite (Z.div_small doe) by lia. rewrite Z.add_0_l.
  replace (doe + era * 146097 - era * 146097) with doe by lia.
  rewrite E2.
  replace (doe - (365 * yoe + yoe / 4 - yoe / 100)) with doy by (subst doe; lia).
  rewrite E3, E4.
  destruct Hmp as [[Hle ->]|[Hgt ->]]; destruct Hyy as [[Hle' Ey]|[Hgt' Ey]]; try lia.
  - destruct (Z.ltb_spec (m + 9) 10); [lia|].
    replace (m + 9 - 9) with m by lia.
    destruct (Z.leb_spec m 2); [|lia]. do 2 f_equal. lia.
  - destruct (Z.ltb_spec (m - 3) 10); [|lia].
    replace (m - 3 + 3) with m by lia.
    destruct (Z.leb_spec m 2); [lia|]. do 2 f_equal. lia.
Qed.

End Calendar.

Section Digits.

Local Open Scope Z_scope.

Lemma isDigit_digit a :
  Time.isDigit a = true ->
  0 <= Time.digit a <= 9 /\ Time.digitChar (Time.digit a) = a
  /\ (Time.digit a = 0 -> a = "0"%char).
Proof.
  unfold Time.isDigit, Time.digit, Time.digitChar.
  intros [H1 H2]%andb_true_iff. apply Nat.leb_le in H1, H2.
  assert (E : ascii_of_nat (Z.to_nat (48 + (Z.of_nat (nat_of_ascii a) - 48))) = a).
  { replace (Z.to_nat (48 + (Z.of_nat (nat_of_ascii a) - 48))) with (nat_of_ascii a) by lia.
    apply ascii_nat_embedding. }
  split; [lia|]. split; [exact E|].
  intros Hz. rewrite <- E.
  replace (Z.of_nat (nat_of_ascii a) - 48) with 0 by lia. reflexivity.
Qed.

Lemma digit_zero_eqb a :
  Time.isDigit a = true -> Ascii.eqb a "0" = (Time.digit a =? 0).
Proof.
  intros H. destruct (isDigit_digit a H) as (_ & _ & Hz).
  destruct (Z.eqb_spec (Time.digit a) 0) as [E|N].
  - rewrite (Hz E). reflexivity.
  - apply Ascii.eqb_neq. intros ->. apply N. reflexivity.
Qed.

Lemma digits_fuel_last fuel u acc :
  0 <= u < 10 -> Time.digits_fuel (S fuel) u acc = String (Time.digitChar u) acc.
Proof.
  intros H. cbn [Time.digits_fuel].
  rewrite (Z.mod_small u 10), (Z.div_small u 10) by lia. reflexivity.
Qed.

Lemma digits_fuel_step fuel u acc :
  10 <= u ->
  Time.digits_fuel (S fuel) u acc
  = Time.digits_fuel fuel (u / 10) (String (Time.digitChar (u mod 10)) acc).
Proof.
  intros H. cbn [Time.digits_fuel].
  destruct (Z.eqb_spec (u / 10) 0) as [E|N]; [|reflexivity].
  exfalso. Z.div_mod_to_equations. lia.
Qed.

(** A number below 10000 printed with width 4 shows its four decimal
    digits. *)
Lemma appendInt_4 a b c d :
  0 <= a <= 9 -> 0 <= b <= 9 -> 0 <= c <= 9 -> 0 <= d <= 9 ->
  Time.appendInt (((a * 10 + b) * 10 + c) * 10 + d) 4
  = String (Time.digitChar a) (String (Time.digitChar b)
      (String (Time.digitChar c) (String (Time.digitChar d) ""))).
Proof.
  intros Ha Hb Hc Hd. unfold Time.appendInt.
  set (u := ((a * 10 + b) * 10 + c) * 10 + d).
  assert (Hu : 0 <= u < 10000) by (subst u; lia).
  destruct (Z.ltb_spec u 0) as [|_]; [lia|]. rewrite Z.abs_eq by lia.
  rewrite string_app_nil. unfold Time.digits.
  assert (Em : u mod 10 = d) by (subst u; Z.div_mod_to_equations; lia).
  assert (Ed : u / 10 = (a * 10 + b) * 10 + c) by (subst u; Z.div_mod_to_equations; lia).
  destruct (Z_lt_le_dec u 10) as [L1|G1].
  { rewrite digits_fuel_last by lia.
    assert (a = 0 /\ b = 0 /\ c = 0 /\ u = d) as (-> & -> & -> & ->) by (subst u; lia).
    reflexivity. }
  destruct (Z.to_nat u) as [|n1] eqn:En; [lia|].
  rewrite digits_fuel_step by lia. rewrite Em, Ed.
  set (v := (a * 10 + b) * 10 + c) in *.
  assert (Em2 : v mod 10 = c) by (subst v; Z.div_mod_to_equations; lia).
  assert (Ed2 : v / 10 = a * 10 + b) by (subst v; Z.div_mod_to_equations; lia).
  destruct (Z_lt_le_dec v 10) as [L2|G2].
  { destruct n1 as [|n2]; [lia|]. rewrite digits_fuel_last by lia.
    assert (a = 0 /\ b = 0 /\ v = c) as (-> & -> & ->) by (subst v; lia).
    reflexivity. }
  destruct n1 as [|n2]; [lia|].
  rewrite digits_fuel_step by lia. rewrite Em2, Ed2.
  set (x := a * 10 + b) in *.
  assert (Em3 : x mod 10 = b) by (subst x; Z.div_mod_to_equations; lia).
  assert (Ed3 : x / 10 = a) by (subst x; Z.div_mod_to_equations; lia).
  destruct (Z_lt_le_dec x 10) as [L3|G3].
  { destruct n2 as [|n3]; [lia|]. rewrite digits_fuel_last by lia.
    assert (a = 0 /\ x = b) as (-> & ->) by (subst x; lia).
    reflexivity. }
  destruct n2 as [|n3]; [lia|].
  rewrite digits_fuel_step by lia. rewrite Em3, Ed3.
  destruct n3 as [|n4]; [lia|].
  rewrite digits_fuel_last by lia. reflexivity.
Qed.

(** A day of the month printed without padding. *)
Lemma appendInt_day g h :
  0 <= g <= 9 -> 0 <= h <= 9 -> 1 <= g * 10 + h ->
  Time.appendInt (g * 10 + h) 0
  = if g =? 0 then String (Time.digitChar h) ""
    else String (Time.digitChar g) (String (Time.digitChar h) "").
Proof.
  intros Hg Hh Hpos. unfold Time.appendInt.
  set (u := g * 10 + h).
  destruct (Z.ltb_spec u 0) as [|_]; [lia|]. rewrite Z.abs_eq by lia.
  rewrite string_app_nil. cbn [Nat.sub Time.zeros]. rewrite string_app_nil.
  unfold Time.digits.
  destruct (Z.eqb_spec g 0) as [->|N].
  - rewrite digits_fuel_last by (subst u; lia). subst u. reflexivity.
  - destruct (Z.to_nat u) as [|n1] eqn:En; [lia|].
    rewrite digits_fuel_step by (subst u; lia).
    assert (Em : u mod 10 = h) by (subst u; Z.div_mod_to_equations; lia).
    assert (Ed : u / 10 = g) by (subst u; Z.div_mod_to_equations; lia).
    rewrite Em, Ed. destruct n1 as [|n2]; [lia|].
    rewrite digits_fuel_last by lia. reflexivity.
Qed.

Lemma Format_Date y m d :
  1 <= m <= 12 -> 1 <= d <= Time.daysIn m y ->
  Time.Format_Jan_2_2006 (Time.Date y m d)
  = (Strings.sliceTo 3 (Time.monthName m) ++ " " ++ Time.appendInt d 0 ++ ", "
     ++ Time.appendInt y 4)%string.
Proof.
  intros Hm Hd. unfold Time.Format_Jan_2_2006, Time.Date. cbn [Time.sec Time.offset].
  rewrite Z.add_0_r, Z.div_mul by lia.
  rewrite (civilFromDays_daysFromCivil y m d Hm Hd). reflexivity.
Qed.

Lemma monthName_abbrev m :
  1 <= m <= 12 ->
  Strings.sliceTo 3 (Time.monthName m)
  = nth (Z.to_nat (m - 1))
      ["Jan"; "Feb"; "Mar"; "Apr"; "May"; "Jun"; "Jul"; "Aug"; "Sep"; "Oct"; "Nov"; "Dec"]%string
      ""%string.
Proof.
  intros Hm. unfold Time.monthName.
  assert (H : exists k, (k < 12)%nat /\ Z.to_nat (m - 1) = k) by (eexists; split; [|reflexivity]; lia).
  destruct H as (k & Hk & ->).
  do 12 (destruct k as [|k]; [reflexivity|]). lia.
Qed.

(** What [time.Parse] accepts for the layout [2006-01-02], and the
    time it returns. *)
Lemma Parse_Some s t :
  Time.Parse_2006_01_02 s = Some t ->
  exists a b c d e f g h,
    s = String a (String b (String c (String d (String "-"
          (String e (String f (String "-" (String g (String h ""))))))))) 
    /\ Time.isDigit a = true /\ Time.isDigit b = true /\ Time.isDigit c = true
    /\ Time.isDigit d = true /\ Time.isDigit e = true /\ Time.isDigit f = true
    /\ Time.isDigit g = true /\ Time.isDigit h = true
    /\ let year := ((Time.digit a * 10 + Time.digit b) * 10 + Time.digit c) * 10 + Time.digit d in
       let month := Time.digit e * 10 + Time.digit f in
       let day := Time.digit g * 10 + Time.digit h in
       1 <= month <= 12 /\ 1 <= day <= Time.daysIn month year
       /\ t = Time.Date year month day.
Proof.
  unfold Time.Parse_2006_01_02, Time.getyear4, Time.getnum2, Time.skipByte.
  destruct s as [|a [|b [|c [|d s]]]]; try discriminate.
  destruct (Time.isDigit a) eqn:Da; [|discriminate].
  destruct (Time.isDigit b) eqn:Db; [|discriminate].
  destruct (Time.isDigit c) eqn:Dc; [|discriminate].
  destruct (Time.isDigit d) eqn:Dd; [|discriminate]. cbn [andb].
  destruct s as [|h1 s]; [discriminate|].
  destruct (Ascii.eqb_spec h1 "-") as [->|]; [|discriminate].
  destruct s as [|e [|f s]]; try discriminate.
  destruct (Time.isDigit e) eqn:De; [|discriminate].
  destruct (Time.isDigit f) eqn:Df; [|discriminate]. cbn [andb].
  destruct (Z.leb_spec (Time.digit e * 10 + Time.digit f) 0) as [|M1]; [discriminate|].
  destruct (Z.ltb_spec 12 (Time.digit e * 10 + Time.digit f)) as [|M2]; [discriminate|].
  cbn [orb].
  destruct s as [|h2 s]; [discriminate|].
  destruct (Ascii.eqb_spec h2 "-") as [->|]; [|discriminate].
  destruct s as [|g [|h s]]; try discriminate.
  destruct (Time.isDigit g) eqn:Dg; [|discriminate].
  destruct (Time.isDigit h) eqn:Dh; [|discriminate]. cbn [andb].
  destruct s as [|x s]; [|discriminate].
  destruct (Z.ltb_spec (Time.digit g * 10 + Time.digit h) 1) as [|D1]; [discriminate|].
  match goal with |- context [Time.daysIn ?m ?y <? ?dd] =>
    destruct (Z.ltb_spec (Time.daysIn m y) dd) as [|D2]; [discriminate|] end.
  cbn [orb]. intros [= <-].
  exists a, b, c, d, e, f, g, h. cbv zeta.
  repeat (split; [first [reflexivity | assumption | lia]|]). reflexivity.
Qed.

(** Parsing a date and formatting it gives the date written out. *)
Lemma Format_Parse s t :
  Time.Parse_2006_01_02 s = Some t -> Time.Format_Jan_2_2006 t = longDate s.
Proof.
  intros H. destruct (Parse_Some s t H)
    as (a & b & c & d & e & f & g & h & -> & Da & Db & Dc & Dd & De & Df & Dg & Dh & Hv).
  cbv zeta in Hv. destruct Hv as (Hm & Hd & ->).
  rewrite (Format_Date _ _ _ Hm Hd).
  destruct (isDigit_digit a Da) as (Ra & Ca & _).
  destruct (isDigit_digit b Db) as (Rb & Cb & _).
  destruct (isDigit_digit c Dc) as (Rc & Cc & _).
  destruct (isDigit_digit d Dd) as (Rd & Cd & _).
  destruct (isDigit_digit g Dg) as (Rg & Cg & _).
  destruct (isDigit_digit h Dh) as (Rh & Ch & _).
  rewrite appendInt_4 by assumption. rewrite appendInt_day by lia.
  rewrite (monthName_abbrev _ Hm). rewrite Ca, Cb, Cc, Cd.
  unfold longDate. rewrite (digit_zero_eqb g Dg).
  destruct (Time.digit g =? 0); rewrite ?Cg, Ch; reflexivity.
Qed.

End Digits.

Section CalendarOrder.

Local Open Scope Z_scope.

Lemma daysFromCivil_closed y m d :
  Time.daysFromCivil y m d
  = let yy := if m <=? 2 then y - 1 else y in
    let mp := if m <=? 2 then m + 9 else m - 3 in
    365 * yy + yy / 4 - yy / 100 + yy / 400 + ((153 * mp + 2) / 5 + d - 1) - 306.
Proof.
  unfold Time.daysFromCivil. cbv zeta.
  set (yy := if m <=? 2 then y - 1 else y).
  set (mp := if m <=? 2 then m + 9 else m - 3).
  clearbody yy mp. Z.div_mod_to_equations. lia.
Qed.

(** A later civil date has a greater day count. *)
Lemma daysFromCivil_lt y m d y' m' d' :
  1 <= m <= 12 -> 1 <= d <= Time.daysIn m y ->
  1 <= m' <= 12 -> 1 <= d' ->
  y < y' \/ (y = y' /\ (m < m' \/ (m = m' /\ d < d'))) ->
  Time.daysFromCivil y m d < Time.daysFromCivil y' m' d'.
Proof.
  intros Hm Hd Hm' Hd' Hlt.
  rewrite !daysFromCivil_closed. cbv zeta.
  set (yy := if m <=? 2 then y - 1 else y).
  set (mp := if m <=? 2 then m + 9 else m - 3).
  set (yy' := if m' <=? 2 then y' - 1 else y').
  set (mp' := if m' <=? 2 then m' + 9 else m' - 3).
  assert (Hyy : (m <= 2 /\ yy = y - 1 /\ mp = m + 9) \/ (2 < m /\ yy = y /\ mp = m - 3)).
  { subst yy mp. destruct (Z.leb_spec m 2); [left|right]; auto. }
  assert (Hyy' : (m' <= 2 /\ yy' = y' - 1 /\ mp' = m' + 9)
                 \/ (2 < m' /\ yy' = y' /\ mp' = m' - 3)).
  { subst yy' mp'. destruct (Z.leb_spec m' 2); [left|right]; auto. }
  clearbody yy mp yy' mp'.
  destruct (daysIn_cases m y Hm) as [(-> & E & L4 & L)|[(-> & E)|[(Hc & E)|(Hc & E)]]];
    rewrite E in Hd; clear E.
  - assert (mp = 11 /\ yy = y - 1) as [-> ->] by lia.
    Z.div_mod_to_equations. lia.
  - assert (mp = 11 /\ yy = y - 1) as [-> ->] by lia.
    Z.div_mod_to_equations. lia.
  - destruct Hc as [->|[->|[->| ->]]];
      [assert (mp = 1 /\ yy = y) as [-> ->] by lia
      |assert (mp = 3 /\ yy = y) as [-> ->] by lia
      |assert (mp = 6 /\ yy = y) as [-> ->] by lia
      |assert (mp = 8 /\ yy = y) as [-> ->] by lia];
      Z.div_mod_to_equations; lia.
  - destruct Hc as [->|[->|[->|[->|[->|[->| ->]]]]]];
      [assert (mp = 10 /\ yy = y - 1) as [-> ->] by lia
      |assert (mp = 0 /\ yy = y) as [-> ->] by lia
      |assert (mp = 2 /\ yy = y) as [-> ->] by lia
      |assert (mp = 4 /\ yy = y) as [-> ->] by lia
      |assert (mp = 5 /\ yy = y) as [-> ->] by lia
      |assert (mp = 7 /\ yy = y) as [-> ->] by lia
      |assert (mp = 9 /\ yy = y) as [-> ->] by lia];
      Z.div_mod_to_equations; lia.
Qed.

End CalendarOrder.

Section DateOrder.

Local Open Scope Z_scope.

Lemma After_Date y1 m1 d1 y2 m2 d2 :
  Time.After (Time.Date y1 m1 d1) (Time.Date y2 m2 d2)
  = (Time.daysFromCivil y2 m2 d2 <? Time.daysFromCivil y1 m1 d1).
Proof.
  unfold Time.After, Time.Date. cbn [Time.sec Time.nsec].
  rewrite Z.ltb_irrefl, andb_false_r, orb_false_r.
  destruct (Z.ltb_spec (Time.daysFromCivil y2 m2 d2 * 86400) (Time.daysFromCivil y1 m1 d1 * 86400));
    destruct (Z.ltb_spec (Time.daysFromCivil y2 m2 d2) (Time.daysFromCivil y1 m1 d1));
    first [reflexivity | lia].
Qed.

Lemma Ascii_compare_digit a b :
  Ascii.compare a b = (Time.digit a ?= Time.digit b).
Proof.
  unfold Ascii.compare, Time.digit, nat_of_ascii.
  destruct (N.compare_spec (N_of_ascii a) (N_of_ascii b)) as [E|L|G];
    destruct (Z.compare_spec (Z.of_nat (N.to_nat (N_of_ascii a)) - 48)
                (Z.of_nat (N.to_nat (N_of_ascii b)) - 48));
    first [reflexivity | lia].
Qed.

(** Dates in the form [YYYY-MM-DD] compare as texts the way they compare
    as dates. *)
Lemma After_Parse s1 s2 t1 t2 :
  Time.Parse_2006_01_02 s1 = Some t1 -> Time.Parse_2006_01_02 s2 = Some t2 ->
  Time.After t1 t2 = String.ltb s2 s1.
Proof.
  intros H1 H2.
  destruct (Parse_Some s1 t1 H1)
    as (a1 & b1 & c1 & e1 & f1 & g1 & h1 & i1 & -> & Da1 & Db1 & Dc1 & De1 & Df1 & Dg1
        & Dh1 & Di1 & Hv1).
  destruct (Parse_Some s2 t2 H2)
    as (a2 & b2 & c2 & e2 & f2 & g2 & h2 & i2 & -> & Da2 & Db2 & Dc2 & De2 & Df2 & Dg2
        & Dh2 & Di2 & Hv2).
  cbv zeta in Hv1, Hv2. destruct Hv1 as (Hm1 & Hd1 & ->). destruct Hv2 as (Hm2 & Hd2 & ->).
  rewrite After_Date.
  unfold String.ltb. cbn [String.compare].
  change (Ascii.compare "-" "-") with Eq. cbv iota.
  rewrite !Ascii_compare_digit.
  destruct (isDigit_digit a1 Da1) as (Ra1 & _). destruct (isDigit_digit b1 Db1) as (Rb1 & _).
  destruct (isDigit_digit c1 Dc1) as (Rc1 & _). destruct (isDigit_digit e1 De1) as (Re1 & _).
  destruct (isDigit_digit f1 Df1) as (Rf1 & _). destruct (isDigit_digit g1 Dg1) as (Rg1 & _).
  destruct (isDigit_digit h1 Dh1) as (Rh1 & _). destruct (isDigit_digit i1 Di1) as (Ri1 & _).
  destruct (isDigit_digit a2 Da2) as (Ra2 & _). destruct (isDigit_digit b2 Db2) as (Rb2 & _).
  destruct (isDigit_digit c2 Dc2) as (Rc2 & _). destruct (isDigit_digit e2 De2) as (Re2 & _).
  destruct (isDigit_digit f2 Df2) as (Rf2 & _). destruct (isDigit_digit g2 Dg2) as (Rg2 & _).
  destruct (isDigit_digit h2 Dh2) as (Rh2 & _). destruct (isDigit_digit i2 Di2) as (Ri2 & _).
  set (y1 := ((Time.digit a1 * 10 + Time.digit b1) * 10 + Time.digit c1) * 10 + Time.digit e1) in *.
  set (y2 := ((Time.digit a2 * 10 + Time.digit b2) * 10 + Time.digit c2) * 10 + Time.digit e2) in *.
  set (m1 := Time.digit f1 * 10 + Time.digit g1) in *.
  set (m2 := Time.digit f2 * 10 + Time.digit g2) in *.
  set (d1 := Time.digit h1 * 10 + Time.digit i1) in *.
  set (d2 := Time.digit h2 * 10 + Time.digit i2) in *.
  assert (Lt21 : y2 < y1 \/ (y2 = y1 /\ (m2 < m1 \/ (m2 = m1 /\ d2 < d1))) ->
                 (Time.daysFromCivil y2 m2 d2 <? Time.daysFromCivil y1 m1 d1) = true).
  { intros H. apply Z.ltb_lt. apply daysFromCivil_lt; auto; lia. }
  assert (Ge21 : y1 < y2 \/ (y1 = y2 /\ (m1 < m2 \/ (m1 = m2 /\ d1 <= d2))) ->
                 (Time.daysFromCivil y2 m2 d2 <? Time.daysFromCivil y1 m1 d1) = false).
  { intros H. apply Z.ltb_ge.
    destruct (Z.eq_dec d1 d2) as [Ed|Nd].
    - destruct H as [H|(Ey & [H|(Em & _)])].
      + apply Z.lt_le_incl, daysFromCivil_lt; auto; lia.
      + apply Z.lt_le_incl, daysFromCivil_lt; auto; lia.
      + rewrite Ey, Em, Ed. lia.
    - apply Z.lt_le_incl, daysFromCivil_lt; auto; lia. }
  destruct (Z.compare_spec (Time.digit a2) (Time.digit a1)); cbv iota;
    [|apply Lt21; subst y1 y2; lia|apply Ge21; subst y1 y2; lia].
  destruct (Z.compare_spec (Time.digit b2) (Time.digit b1)); cbv iota;
    [|apply Lt21; subst y1 y2; lia|apply Ge21; subst y1 y2; lia].
  destruct (Z.compare_spec (Time.digit c2) (Time.digit c1)); cbv iota;
    [|apply Lt21; subst y1 y2; lia|apply Ge21; subst y1 y2; lia].
  destruct (Z.compare_spec (Time.digit e2) (Time.digit e1)); cbv iota;
    [|apply Lt21; subst y1 y2; lia|apply Ge21; subst y1 y2; lia].
  assert (Ey : y2 = y1) by (subst y1 y2; lia).
  destruct (Z.compare_spec (Time.digit f2) (Time.digit f1)); cbv iota;
    [|apply Lt21; subst m1 m2; lia|apply Ge21; subst m1 m2; lia].
  destruct (Z.compare_spec (Time.digit g2) (Time.digit g1)); cbv iota;
    [|apply Lt21; subst m1 m2; lia|apply Ge21; subst m1 m2; lia].
  assert (Em : m2 = m1) by (subst m1 m2; lia).
  destruct (Z.compare_spec (Time.digit h2) (Time.digit h1)); cbv iota;
    [|apply Lt21; subst d1 d2; lia|apply Ge21; subst d1 d2; lia].
  destruct (Z.compare_spec (Time.digit i2) (Time.digit i1)); cbv iota;
    [|apply Lt21; subst d1 d2; lia|apply Ge21; subst d1 d2; lia].
  apply Ge21. subst d1 d2. lia.
Qed.

End DateOrder.

Section IndexDates.

Variable yaml_Unmarshal :
  string -> PostFrontmatter.t -> PostFrontmatter.t * option error.

Lemma Parse_nonempty s t : Time.Parse_2006_01_02 s = Some t -> String.eqb s "" = false.
Proof. destruct s; [discriminate|reflexivity]. Qed.

Lemma collectPost_date lang f p c :
  collectPost yaml_Unmarshal lang f = Some p -> ReadFile f = Ok c ->
  (Post.Date p, Post.DateStr p)
  = match Time.Parse_2006_01_02 (PostFrontmatter.Date (ParseFrontmatter yaml_Unmarshal c).1) with
    | Some t => (t, Time.Format_Jan_2_2006 t)
    | None =>
        match ModTime f with
        | Some mt => (mt, Time.Format_Jan_2_2006 mt)
        | None => (Time.zero, "")
        end
    end.
Proof.
  intros Hc Hr. unfold collectPost in Hc. rewrite Hr in Hc.
  destruct (Strings.HasSuffix (Name f) ".md"); [|discriminate].
  destruct (_ && _); [discriminate|].
  destruct (ParseFrontmatter yaml_Unmarshal c) as [fm body]. cbn [fst].
  destruct (String.eqb (PostFrontmatter.Date fm) "") eqn:Ee; cbn [negb] in Hc.
  - apply String.eqb_eq in Ee. rewrite Ee.
    change (Time.Parse_2006_01_02 "") with (@None Time.Time).
    cbn [String.eqb] in Hc. destruct (ModTime f) as [mt|]; injection Hc as <-; reflexivity.
  - destruct (Time.Parse_2006_01_02 (PostFrontmatter.Date fm)) as [t|].
    + destruct (String.eqb (Time.Format_Jan_2_2006 t) "") eqn:E.
      * apply String.eqb_eq in E. destruct (Format_nonempty t E).
      * injection Hc as <-. reflexivity.
    + cbn [String.eqb] in Hc. destruct (ModTime f) as [mt|]; injection Hc as <-; reflexivity.
Qed.

(** X13. The date of an index entry comes from exactly one source.  If
    the date of the frontmatter parses as [YYYY-MM-DD], it is the date
    and its formatted form is the text shown, whatever the modification
    time of the file; otherwise the modification time is, if the file
    information is there; otherwise the date is the zero time and the
    text is empty. *)
Theorem postIndex_date_resolution (lang : string) (files : list DirEntry) (p : Post.t) :
  In p (postIndex yaml_Unmarshal lang files) ->
  exists f c,
    In f files /\ Name f = Post.Slug p ++ ".md" /\ ReadFile f = Ok c
    /\ (Post.Date p, Post.DateStr p)
       = match Time.Parse_2006_01_02
                 (PostFrontmatter.Date (ParseFrontmatter yaml_Unmarshal c).1) with
         | Some t => (t, Time.Format_Jan_2_2006 t)
         | None =>
             match ModTime f with
             | Some mt => (mt, Time.Format_Jan_2_2006 mt)
             | None => (Time.zero, "")
             end
         end.
Proof.
  intros Hp. apply postIndex_elem in Hp as (f & Hf & Hc).
  destruct (collectPost_file yaml_Unmarshal lang f p Hc) as [Hn [c Hr]].
  exists f, c. split; [exact Hf|]. split; [exact Hn|]. split; [exact Hr|].
  apply (collectPost_date lang f p c Hc Hr).
Qed.

(** X14. A frontmatter date is shown as it was written.  If it parses
    as [YYYY-MM-DD], the post page carries, and the index entry shows,
    the abbreviated English name of that month, that day without a
    leading zero, a comma and those four digits of the year: the way
    through the day count of the calendar and back changes nothing. *)
Theorem frontmatter_date_shown_as_written (fm : PostFrontmatter.t) (t : Time.Time) :
  Time.Parse_2006_01_02 (PostFrontmatter.Date fm) = Some t ->
  (forall title buf,
     postHTML title fm buf
     = "<article>" ++ LF
       ++ "<div class=" ++ q ++ "post-header" ++ q ++ ">" ++ LF
       ++ "<h1>" ++ Template.HTMLEscapeString title ++ "</h1>" ++ LF
       ++ "<span class=" ++ q ++ "post-meta" ++ q ++ ">"
       ++ longDate (PostFrontmatter.Date fm) ++ "</span>" ++ LF
       ++ "</div>" ++ LF ++ buf ++ "</article>")
  /\ (forall lang f c p,
        ReadFile f = Ok c -> (ParseFrontmatter yaml_Unmarshal c).1 = fm ->
        collectPost yaml_Unmarshal lang f = Some p ->
        Post.DateStr p = longDate (PostFrontmatter.Date fm)).
Proof.
  intros Hp. split.
  - intros title buf. unfold postHTML.
    rewrite (Parse_nonempty _ _ Hp), Hp, (Format_Parse _ _ Hp). cbn [negb].
    rewrite !string_app_assoc. reflexivity.
  - intros lang f c p Hr Hfm Hc.
    pose proof (collectPost_date lang f p c Hc Hr) as E.
    rewrite Hfm, Hp in E. injection E as _ ->. apply Format_Parse, Hp.
Qed.

(** X15. The index follows the written dates.  Of two entries whose
    frontmatter dates both parse, the one whose date text is the greater
    in the order of texts comes first: for dates of the form
    [YYYY-MM-DD] that order is the order of the days. *)
Theorem postIndex_order_by_written_date (lang : string) (files : list DirEntry)
    (i j : nat) (p p' : Post.t) (f f' : DirEntry) (c c' : string) (t t' : Time.Time) :
  let index := postIndex yaml_Unmarshal lang files in
  let date := PostFrontmatter.Date (ParseFrontmatter yaml_Unmarshal c).1 in
  let date' := PostFrontmatter.Date (ParseFrontmatter yaml_Unmarshal c').1 in
  index !! i = Some p -> index !! j = Some p' ->
  collectPost yaml_Unmarshal lang f = Some p -> ReadFile f = Ok c ->
  collectPost yaml_Unmarshal lang f' = Some p' -> ReadFile f' = Ok c' ->
  Time.Parse_2006_01_02 date = Some t -> Time.Parse_2006_01_02 date' = Some t' ->
  String.ltb date' date = true ->
  (i < j)%nat.
Proof.
  intros index date date' Hi Hj Hc Hr Hc' Hr' Ht Ht' Hlt.
  pose proof (collectPost_date lang f p c Hc Hr) as E. fold date in E. rewrite Ht in E.
  pose proof (collectPost_date lang f' p' c' Hc' Hr') as E'. fold date' in E'.
  rewrite Ht' in E'.
  injection E as Ed _. injection E' as Ed' _.
  assert (HS : sortedBy newerFirst index)
    by (apply Slice_sorted, newerFirst_StrictWeakOrder).
  destruct (le_lt_dec j i) as [Hji|Hij]; [|exact Hij].
  pose proof (HS j i p' p Hji Hj Hi) as Hn. unfold newerFirst in Hn.
  rewrite Ed, Ed', (After_Parse _ _ _ _ Ht Ht'), Hlt in Hn. discriminate.
Qed.

End IndexDates.

Lemma postIndex_date_resolution_witness :
  let files := [mkDirEntry "a.md" (Ok "text") (Some (Time.Date 2024 2 29))] in
  let p := Post.mk "a" "A" (Time.Date 2024 2 29) "Feb 29, 2024" in
  exists f c,
    In f files /\ Name f = Post.Slug p ++ ".md" /\ ReadFile f = Ok c
    /\ (Post.Date p, Post.DateStr p)
       = match Time.Parse_2006_01_02
                 (PostFrontmatter.Date (ParseFrontmatter Yaml.Unmarshal c).1) with
         | Some t => (t, Time.Format_Jan_2_2006 t)
         | None =>
             match ModTime f with
             | Some mt => (mt, Time.Format_Jan_2_2006 mt)
             | None => (Time.zero, "")
             end
         end.
Proof.
  intros files p. apply (postIndex_date_resolution Yaml.Unmarshal "en" files p).
  vm_compute. left. reflexivity.
Defined.

Lemma frontmatter_date_shown_as_written_witness :
  postHTML "T" (PostFrontmatter.mk "T" "2026-01-05") "<p>x</p>"
  = "<article>" ++ LF
    ++ "<div class=" ++ q ++ "post-header" ++ q ++ ">" ++ LF
    ++ "<h1>T</h1>" ++ LF
    ++ "<span class=" ++ q ++ "post-meta" ++ q ++ ">Jan 5, 2026</span>" ++ LF
    ++ "</div>" ++ LF ++ "<p>x</p>" ++ "</article>"
  /\ option_map Post.DateStr (collectPost Yaml.Unmarshal "en" (datedPost "a" "2024-02-29"))
     = Some "Feb 29, 2024".
Proof.
  split.
  - exact (proj1 (frontmatter_date_shown_as_written Yaml.Unmarshal
                    (PostFrontmatter.mk "T" "2026-01-05") (Time.Date 2026 1 5)
                    ltac:(vm_compute; reflexivity)) "T" "<p>x</p>").
  - destruct (collectPost Yaml.Unmarshal "en" (datedPost "a" "2024-02-29")) as [p|] eqn:E;
      [|vm_compute in E; discriminate E].
    cbn [option_map]. f_equal.
    exact (proj2 (frontmatter_date_shown_as_written Yaml.Unmarshal
                    (PostFrontmatter.mk "" "2024-02-29") (Time.Date 2024 2 29)
                    ltac:(vm_compute; reflexivity))
             "en" (datedPost "a" "2024-02-29")
             ("---" ++ LF ++ "date: 2024-02-29" ++ LF ++ "---" ++ LF ++ "text") p
             ltac:(vm_compute; reflexivity) ltac:(vm_compute; reflexivity) E).
Defined.

Lemma postIndex_order_by_written_date_witness :
  let files := [datedPost "older" "2025-12-31"; datedPost "newer" "2026-01-01"] in
  map Post.Slug (postIndex Yaml.Unmarshal "en" files) = ["newer"; "older"]
  /\ String.ltb "2025-12-31" "2026-01-01" = true
  /\ (0 < 1)%nat.
Proof.
  intros files. split; [vm_compute; reflexivity|]. split; [vm_compute; reflexivity|].
  apply (postIndex_order_by_written_date Yaml.Unmarshal "en" files 0 1
           (Post.mk "newer" "Newer" (Time.Date 2026 1 1) "Jan 1, 2026")
           (Post.mk "older" "Older" (Time.Date 2025 12 31) "Dec 31, 2025")
           (datedPost "newer" "2026-01-01") (datedPost "older" "2025-12-31")
           ("---" ++ LF ++ "date: 2026-01-01" ++ LF ++ "---" ++ LF ++ "text")
           ("---" ++ LF ++ "date: 2025-12-31" ++ LF ++ "---" ++ LF ++ "text")
           (Time.Date 2026 1 1) (Time.Date 2025 12 31));
    vm_compute; reflexivity.
Defined.

(** *** Titles made from slugs *)

Lemma ReplaceAll_fuel_copy fuel c s old new :
  Strings.HasPrefix (String c s) old = false ->
  Strings.ReplaceAll_fuel (S fuel) (String c s) old new
  = String c (Strings.ReplaceAll_fuel fuel s old new).
Proof. intros H. cbn [Strings.ReplaceAll_fuel]. rewrite H. reflexivity. Qed.

Lemma ReplaceAll_fuel_replace fuel s old new :
  Strings.HasPrefix s old = true ->
  Strings.ReplaceAll_fuel (S fuel) s old new
  = new ++ Strings.ReplaceAll_fuel fuel (Strings.sliceFrom (String.length old) s) old new.
Proof. intros H. cbn [Strings.ReplaceAll_fuel]. rewrite H. reflexivity. Qed.

(** The title made from a slug with a language tag is the title made
    from the rest of the slug, with the capitalized tag before it. *)
Lemma title_of_tagged_slug lang x :
  lang = "en" \/ lang = "th" ->
  toTitleCase (Strings.ReplaceAll (lang ++ "-" ++ x) "-" " ")
  = toTitleCase lang ++ " " ++ toTitleCase (Strings.ReplaceAll x "-" " ").
Proof.
  intros [-> | ->].
  - change ("en" ++ "-" ++ x) with (String "e" (String "n" (String "-" x))).
    unfold Strings.ReplaceAll. cbn [String.length].
    rewrite !ReplaceAll_fuel_copy by reflexivity.
    rewrite ReplaceAll_fuel_replace
      by (change (String "-" x) with ("-" ++ x); apply HasPrefix_app).
    reflexivity.
  - change ("th" ++ "-" ++ x) with (String "t" (String "h" (String "-" x))).
    unfold Strings.ReplaceAll. cbn [String.length].
    rewrite !ReplaceAll_fuel_copy by reflexivity.
    rewrite ReplaceAll_fuel_replace
      by (change (String "-" x) with ("-" ++ x); apply HasPrefix_app).
    reflexivity.
Qed.

Section TitlesAndLinks.

Variable yaml_Unmarshal :
  string -> PostFrontmatter.t -> PostFrontmatter.t * option error.
Variable goldmark_Convert : string -> Result string.

(** X16. In the index a post without a title of its own, whose file
    name is a language tag, a hyphen and a valid slug, is listed under
    the title of that slug without the tag: its words capitalized, with
    spaces for the hyphens.  The post page of the same file is titled
    from the whole slug: its title is the title of the index with the
    capitalized tag and a space before it. *)
Theorem index_title_drops_language_tag (lang x : string) (f : DirEntry) (c : string) :
  lang = "en" \/ lang = "th" ->
  IsValidSlug x = true ->
  Name f = (lang ++ "-" ++ x) ++ ".md" ->
  ReadFile f = Ok c ->
  PostFrontmatter.Title (ParseFrontmatter yaml_Unmarshal c).1 = "" ->
  exists p,
    collectPost yaml_Unmarshal lang f = Some p
    /\ Post.Slug p = lang ++ "-" ++ x
    /\ Post.Title p = titleOfSlug x
    /\ toTitleCase (Strings.ReplaceAll (Post.Slug p) "-" " ")
       = titleOfSlug lang ++ " " ++ Post.Title p.
Proof.
  intros Hl Hx Hn Hr Ht.
  assert (Hpre : Strings.HasPrefix (lang ++ "-" ++ x) (lang ++ "-") = true).
  { rewrite <- string_app_assoc. apply HasPrefix_app. }
  assert (Htag : Strings.HasPrefix (lang ++ "-" ++ x) "th-"
                 || Strings.HasPrefix (lang ++ "-" ++ x) "en-" = true).
  { apply orb_true_iff. destruct Hl as [-> | ->]; [right|left]; exact Hpre. }
  assert (Hrest : Strings.sliceFrom 3 (lang ++ "-" ++ x) = x).
  { destruct Hl as [-> | ->]; reflexivity. }
  rewrite IsValidSlug_unfold in Hx. apply andb_true_iff in Hx as [_ Hx].
  unfold collectPost.
  rewrite Hn, HasSuffix_app, TrimSuffix_app, Hr, Htag, Hpre. cbn [andb negb].
  destruct (ParseFrontmatter yaml_Unmarshal c) as [fm body]. cbn [fst] in Ht.
  rewrite Ht, Hrest. cbn [String.eqb negb].
  repeat match goal with |- context [let '(_, _) := ?e in _] => destruct e end.
  eexists. split; [reflexivity|]. cbn [Post.Slug Post.Title].
  split; [reflexivity|]. split; [apply toTitleCase_titleOfSlug, Hx|].
  rewrite (title_of_tagged_slug lang x Hl), (toTitleCase_titleOfSlug x Hx).
  destruct Hl as [-> | ->]; reflexivity.
Qed.

Lemma plain_slug s : allInClass slugRanges s = true -> plain s = true.
Proof.
  induction s as [|c s IH]; [reflexivity|].
  cbn [allInClass plain]. intros [Hc Hs]%andb_true_iff. rewrite (IH Hs), andb_true_r.
  apply negb_true_iff. unfold isSpecial.
  repeat match goal with
         | |- context [Ascii.eqb c ?x] =>
             destruct (Ascii.eqb_spec c x) as [->|]; [discriminate Hc|]
         end.
  reflexivity.
Qed.

(** X17. The links of the index lead to the files listed.  For an
    entry whose slug is valid, the list item links to [/posts/<slug>]
    with the slug unchanged by the escaping, and a [FileReader] asked
    for that slug opens [posts/] followed by the name of the very file
    the entry was made from. *)
Theorem index_links_resolve (lang : string) (files : list DirEntry) (fs : FileSystem)
    (p : Post.t) :
  In p (postIndex yaml_Unmarshal lang files) ->
  IsValidSlug (Post.Slug p) = true ->
  exists f rest,
    In f files
    /\ postItem p = "<li><a href=" ++ q ++ "/posts/" ++ Post.Slug p ++ q ++ ">" ++ rest
    /\ Read {| os_files := fs |} (Post.Slug p)
       = (match fs ("posts/" ++ Name f) with
          | Ok (Ok b) => Ok b
          | Ok (Err err) => Err err
          | Err err => Err err
          end, {| os_files := fs |}).
Proof.
  intros Hp Hv. apply postIndex_elem in Hp as (f & Hf & Hc).
  destruct (collectPost_file yaml_Unmarshal lang f p Hc) as [Hn _].
  exists f. eexists. split; [exact Hf|]. split.
  - unfold postItem. rewrite HTMLEscapeString_plain.
    + reflexivity.
    + rewrite IsValidSlug_unfold in Hv. apply andb_true_iff in Hv as [_ Hv].
      apply plain_slug, Hv.
  - unfold Read, FileReader_Read. cbn [os_files].
    rewrite (Join_posts_valid _ Hv), Hn.
    destruct (fs ("posts/" ++ Post.Slug p ++ ".md")) as [[b|e]|e]; reflexivity.
Qed.

End TitlesAndLinks.

Lemma index_title_drops_language_tag_witness :
  let f := mkDirEntry "en-getting-started.md" (Ok "## Why Go?") None in
  exists p,
    collectPost Yaml.Unmarshal "en" f = Some p
    /\ Post.Title p = "Getting Started"
    /\ toTitleCase (Strings.ReplaceAll (Post.Slug p) "-" " ") = "En Getting Started".
Proof.
  intros f.
  destruct (index_title_drops_language_tag Yaml.Unmarshal "en" "getting-started" f
              "## Why Go?" ltac:(left; reflexivity) ltac:(vm_compute; reflexivity)
              eq_refl eq_refl ltac:(vm_compute; reflexivity)) as (p & Hc & Hs & Ht & Hr).
  exists p. split; [exact Hc|]. split.
  - rewrite Ht. vm_compute. reflexivity.
  - rewrite Hr, Ht. vm_compute. reflexivity.
Defined.

Lemma index_links_resolve_witness :
  let files := [undatedPost "hello-world"] in
  let p := Post.mk "hello-world" "Hello World" Time.zero "" in
  exists f rest,
    In f files
    /\ postItem p = "<li><a href=" ++ q ++ "/posts/" ++ Post.Slug p ++ q ++ ">" ++ rest
    /\ Read {| os_files := onePost |} (Post.Slug p)
       = (match onePost ("posts/" ++ Name f) with
          | Ok (Ok b) => Ok b
          | Ok (Err err) => Err err
          | Err err => Err err
          end, {| os_files := onePost |}).
Proof.
  intros files p.
  apply (index_links_resolve Yaml.Unmarshal "en" files onePost p).
  - vm_compute. left. reflexivity.
  - vm_compute. reflexivity.
Defined.

(** *** The comparison of the sort *)

(** X18. The comparison the home page hands to [sort.Slice] is a strict
    weak order on posts, as sorting needs it: no post is newer than
    itself, of two posts at most one is newer than the other, being
    newer is transitive, and two posts of which neither is newer have
    dates that are the same instant, whatever their locations. *)
Theorem newerFirst_strict_weak_order :
  (forall p, newerFirst p p = false)
  /\ (forall p p', newerFirst p p' = true -> newerFirst p' p = false)
  /\ (forall p p' p'', newerFirst p p' = true -> newerFirst p' p'' = true ->
      newerFirst p p'' = true)
  /\ (forall p p', newerFirst p p' = false -> newerFirst p' p = false ->
      sameInstant (Post.Date p) (Post.Date p') = true).
Proof.
  destruct newerFirst_StrictWeakOrder as (Hirr & Htr & _).
  split; [exact Hirr|]. split; [|split; [exact Htr|]].
  - intros p p' H. destruct (newerFirst p' p) eqn:E; [|reflexivity].
    rewrite <- (Hirr p). symmetry. apply (Htr p p' p H E).
  - intros p p' H H'. rewrite <- equivalent_newerFirst. unfold equivalent.
    rewrite H, H'. reflexivity.
Qed.

Lemma newerFirst_strict_weak_order_witness :
  let a := Post.mk "a" "A" (Time.Date 2026 1 20) "Jan 20, 2026" in
  let b := Post.mk "b" "B" (Time.Date 2026 1 15) "Jan 15, 2026" in
  let c := Post.mk "c" "C" (Time.mkTime (Time.daysFromCivil 2026 1 15 * 86400) 0 25200)
             "Jan 15, 2026" in
  newerFirst b a = false /\ sameInstant (Post.Date b) (Post.Date c) = true.
Proof.
  intros a b c.
  destruct newerFirst_strict_weak_order as (_ & Hasym & _ & Htie).
  split.
  - apply (Hasym a b). vm_compute. reflexivity.
  - apply (Htie b c); vm_compute; reflexivity.
Defined.
